(** * Maestro retrieval engine: a shallow embedding of [maestro_rag]

    The development follows [engine.py] and [concept_graph.py]:

    - Python [str] is [string]; a character is a code point below 256 and
      its classification ([str.isspace], the regex class [\w],
      [str.lower]) is Python's on that range.
    - Python [dict] keeps insertion order and the code relies on it (stable
      sorts over [dict.items()]), so a dict whose order is observable is an
      association list with unique keys (module [OD]); sets and maps whose
      order is not observable are stdpp's [gset] and [gmap].
    - Python [float] is read as the real number it approximates ([R]); the
      concept graph only compares, maximises and scales decimal literals
      and is kept executable over [Q].
    - External collaborators (the digest, the embedding provider, the
      nearest-neighbour query of the vector store, the reranker, the clock)
      are section variables. *)

From Stdlib Require Import String Ascii List ZArith QArith Reals Lia Lra Permutation Sorted.
From stdpp Require Import base option list gmap sets strings.

Import ListNotations.
Local Open Scope string_scope.
Local Open Scope list_scope.

(** ** Python text primitives *)

Module Py.

Definition code (c : ascii) : nat := nat_of_ascii c.

Definition between (lo hi n : nat) : bool := (lo <=? n)%nat && (n <=? hi)%nat.

(** [str.isspace] on one character. *)
Definition is_space (c : ascii) : bool :=
  let n := code c in
  between 9 13 n || between 28 32 n || (n =? 133)%nat || (n =? 160)%nat.

(** The regex class [\w] of a [str] pattern. *)
Definition is_word (c : ascii) : bool :=
  let n := code c in
  between 48 57 n || between 65 90 n || (n =? 95)%nat || between 97 122 n
  || (n =? 170)%nat || between 178 179 n || (n =? 181)%nat
  || between 185 186 n || between 188 190 n
  || between 192 214 n || between 216 246 n || between 248 255 n.

(** [str.lower] on one character. *)
Definition lower_char (c : ascii) : ascii :=
  let n := code c in
  if between 65 90 n || between 192 214 n || between 216 222 n
  then ascii_of_nat (n + 32) else c.

Fixpoint lower (s : string) : string :=
  match s with
  | EmptyString => EmptyString
  | String c s' => String (lower_char c) (lower s')
  end.

(** [bool(s)] for a string: non-empty. *)
Definition truthy (s : string) : bool :=
  match s with EmptyString => false | String _ _ => true end.

(** [s.lstrip(...)] and [s.rstrip(...)], the stripped characters given by [p]. *)
Fixpoint lstrip_by (p : ascii -> bool) (s : string) : string :=
  match s with
  | EmptyString => EmptyString
  | String c s' => if p c then lstrip_by p s' else s
  end.

Fixpoint rstrip_by (p : ascii -> bool) (s : string) : string :=
  match s with
  | EmptyString => EmptyString
  | String c s' =>
      match rstrip_by p s' with
      | EmptyString => if p c then EmptyString else String c EmptyString
      | r => String c r
      end
  end.

Definition strip_by (p : ascii -> bool) (s : string) : string :=
  rstrip_by p (lstrip_by p s).

(** [s.strip()] *)
Definition strip (s : string) : string := strip_by is_space s.

(** Maximal runs of characters satisfying [p], left to right: [s.split()]
    for [p] the non-space characters, [re.findall(r"\w+", s)] for [p] the
    word characters. *)
Fixpoint runs (p : ascii -> bool) (s : string) : list string :=
  match s with
  | EmptyString => []
  | String c s' =>
      if p c then
        match s' with
        | EmptyString => [String c EmptyString]
        | String c' _ =>
            if p c' then
              match runs p s' with
              | w :: ws => String c w :: ws
              | [] => [String c EmptyString]
              end
            else String c EmptyString :: runs p s'
        end
      else runs p s'
  end.

(** [s.split()] *)
Definition split (s : string) : list string := runs (fun c => negb (is_space c)) s.

(** [sep.join(ws)] *)
Fixpoint join (sep : string) (ws : list string) : string :=
  match ws with
  | [] => EmptyString
  | [w] => w
  | w :: ws' => w +:+ sep +:+ join sep ws'
  end.

(** [s[:n]] for [0 <= n] *)
Fixpoint take (n : nat) (s : string) : string :=
  match n, s with
  | S n', String c s' => String c (take n' s')
  | _, _ => EmptyString
  end.

(** [s.startswith(p)] *)
Fixpoint startswith (p s : string) : bool :=
  match p, s with
  | EmptyString, _ => true
  | String a p', String b s' => if ascii_dec a b then startswith p' s' else false
  | String _ _, EmptyString => false
  end.

(** [s.split("\n")]: the lines between newline characters; never empty. *)
Definition newline : ascii := ascii_of_nat 10.

Fixpoint split_lines (s : string) : list string :=
  match s with
  | EmptyString => [EmptyString]
  | String c s' =>
      if ascii_dec c newline then EmptyString :: split_lines s'
      else match split_lines s' with
           | l :: ls => String c l :: ls
           | [] => [String c EmptyString]
           end
  end.

(** [xs[-n:]] for a list and [0 < n] *)
Definition last_n {A} (n : nat) (xs : list A) : list A :=
  skipn (length xs - n) xs.

(** [xs[:k]] for a list and any integer [k]: a negative [k] counts from the
    end. *)
Definition slice_to {A} (k : Z) (xs : list A) : list A :=
  if (0 <=? k)%Z then firstn (Z.to_nat k) xs
  else firstn (length xs - Z.to_nat (- k)) xs.

(** [enumerate(xs)] *)
Definition enumerate {A} (xs : list A) : list (nat * A) :=
  combine (seq 0 (length xs)) xs.

(** [range(0, n, step)] *)
Definition range_step (n step : nat) : list nat :=
  map (fun j => (j * step)%nat) (seq 0 ((n + step - 1) / step)).

End Py.

(** ** Insertion-ordered dictionaries with string keys *)

Module OD.
Section Ops.
Context {V : Type}.

(** [d.get(k)] *)
Fixpoint get (k : string) (d : list (string * V)) : option V :=
  match d with
  | [] => None
  | (k', v) :: d' => if String.eqb k k' then Some v else get k d'
  end.

(** [k in d] *)
Definition mem (k : string) (d : list (string * V)) : bool :=
  match get k d with Some _ => true | None => false end.

(** [d[k] = v]: an existing key keeps its position, a new one goes last. *)
Fixpoint set (k : string) (v : V) (d : list (string * V)) : list (string * V) :=
  match d with
  | [] => [(k, v)]
  | (k', v') :: d' =>
      if String.eqb k k' then (k, v) :: d' else (k', v') :: set k v d'
  end.

(** [d.pop(k, None)] *)
Fixpoint pop (k : string) (d : list (string * V)) : list (string * V) :=
  match d with
  | [] => []
  | (k', v') :: d' => if String.eqb k k' then d' else (k', v') :: pop k d'
  end.

Definition keys (d : list (string * V)) : list string := map fst d.

(** [dict(pairs)] *)
Definition of_list (pairs : list (string * V)) : list (string * V) :=
  fold_left (fun d p => set p.1 p.2 d) pairs [].

End Ops.
End OD.

(** ** [sorted(xs, key=..., reverse=True)]: stable, descending *)

Section SortedDesc.
Context {A K : Type} (key : A -> K) (ltb : K -> K -> bool).

(** [x] stood before every element of [l] in the input, so it goes in front
    of the first element whose key is not larger than its own. *)
Fixpoint insert_desc (x : A) (l : list A) : list A :=
  match l with
  | [] => [x]
  | y :: l' => if ltb (key x) (key y) then y :: insert_desc x l' else x :: l
  end.

Definition sorted_desc (l : list A) : list A := foldr insert_desc [] l.

End SortedDesc.

(** ** Float comparisons *)

#[global] Instance Rlt_decision (x y : R) : Decision (x < y)%R := Rlt_dec x y.
#[global] Instance Rle_decision (x y : R) : Decision (x <= y)%R := Rle_dec x y.
#[global] Instance Req_decision (x y : R) : Decision (x = y) := Req_dec_T x y.

Definition Rltb (x y : R) : bool := bool_decide (x < y)%R.
Definition Rleb (x y : R) : bool := bool_decide (x <= y)%R.

(** [x / y] on floats raises [ZeroDivisionError] for [y == 0]. *)
Definition fdiv (x y : R) : option R :=
  if decide (y = 0%R) then None else Some (x / y)%R.

(** ** Data types ([engine.py], "Data Types") *)

Module Chunk.
Record t : Type := mk {
  id : string;
  text : string;
  contextual_text : string;
  skill : string;
  file : string;
  file_path : string;
  section : string;
  domains : list string
}.
End Chunk.

(** ** Chunker *)

Module Chunker.

(** A line matched by [^(#{1,3} .+)$] under [re.MULTILINE]: one to three
    [#], a space, and at least one further character. *)
Definition is_heading (line : string) : bool :=
  match line with
  | String "#" (String " " (String _ _)) => true
  | String "#" (String "#" (String " " (String _ _))) => true
  | String "#" (String "#" (String "#" (String " " (String _ _)))) => true
  | _ => false
  end.

(** [pattern.split(text)]: the text between heading lines alternating with
    the heading lines themselves (the pattern has one capturing group).
    [acc] is the text read since the last heading, [first] tells whether
    the next line is the first line of the text. *)
Fixpoint split_at_headings (first : bool) (acc : string) (ls : list string)
  : list string :=
  match ls with
  | [] => [acc]
  | l :: ls' =>
      let sep := if first then EmptyString else String Py.newline EmptyString in
      if is_heading l
      then (acc +:+ sep) :: l :: split_at_headings false EmptyString ls'
      else split_at_headings false (acc +:+ sep +:+ l) ls'
  end.

Definition pattern_split (text : string) : list string :=
  split_at_headings true EmptyString (Py.split_lines text).

Definition is_hash (c : ascii) : bool := if ascii_dec c "#" then true else false.

(** The loop [for i in range(1, len(parts), 2)] of [_split_sections]. *)
Fixpoint heading_sections (rest : list string) : list (string * string) :=
  match rest with
  | h :: rest' =>
      let title := Py.strip (Py.lstrip_by is_hash h) in
      match rest' with
      | b :: rest'' =>
          let body := Py.strip b in
          (if Py.truthy body then [(title, body)] else [])
            ++ heading_sections rest''
      | [] => []
      end
  | [] => []
  end.

Definition _split_sections (text : string) : list (string * string) :=
  match pattern_split text with
  | [] => [("main", text)]
  | p0 :: rest =>
      let sections :=
        (if Py.truthy (Py.strip p0) then [("intro", Py.strip p0)] else [])
          ++ heading_sections rest in
      match sections with
      | [] => [("main", text)]
      | _ => sections
      end
  end.

(** One iteration of the loop of [_split_long] on the state
    [(chunks, current)]. *)
Definition split_long_step (max_tokens : Z) (st : list string * list string)
  (word : string) : list string * list string :=
  let current := snd st ++ [word] in
  if (max_tokens <=? Z.of_nat (length current))%Z
  then (fst st ++ [Py.join " " current], Py.last_n 50 current)
  else (fst st, current).

Definition _split_long (max_tokens : Z) (text : string) : list string :=
  let words := Py.split text in
  if (Z.of_nat (length words) <=? max_tokens)%Z
  then (if Py.truthy (Py.strip text) then [text] else [])
  else
    let st := fold_left (split_long_step max_tokens) words ([], []) in
    match snd st with
    | [] => fst st
    | _ => fst st ++ [Py.join " " (snd st)]
    end.

(** [str.splitlines] line boundaries. *)
Definition is_linebreak (c : ascii) : bool :=
  let n := Py.code c in
  Py.between 10 13 n || Py.between 28 30 n || (n =? 133)%nat.

Fixpoint splitlines_from (after_cr : bool) (s : string) : list string :=
  match s with
  | EmptyString => []
  | String c s' =>
      if after_cr && (Py.code c =? 10)%nat then splitlines_from false s'
      else if is_linebreak c
      then EmptyString :: splitlines_from (Py.code c =? 13)%nat s'
      else match splitlines_from false s' with
           | l :: ls => String c l :: ls
           | [] => [String c EmptyString]
           end
  end.

(** [s.replace(pat, empty)] for a non-empty [pat]; [skip] characters of a
    match already found are still to be dropped. *)
Fixpoint remove_all (pat : string) (skip : nat) (s : string) : string :=
  match s with
  | EmptyString => EmptyString
  | String c s' =>
      match skip with
      | S k => remove_all pat k s'
      | O =>
          if Py.startswith pat s
          then remove_all pat (String.length pat - 1) s'
          else String c (remove_all pat 0 s')
      end
  end.

Definition is_quote (c : ascii) : bool :=
  (Py.code c =? 39)%nat || (Py.code c =? 34)%nat.

(** The loop of [_extract_context] over the first eight lines. *)
Fixpoint context_of_lines (lines : list string) : option string :=
  match lines with
  | [] => None
  | line :: lines' =>
      if Py.startswith "description:" line
      then Some (Py.strip_by is_quote (Py.strip (remove_all "description:" 0 line)))
      else context_of_lines lines'
  end.

(** The separator of the fallback context line, [" \u2014 "]; the dash lies
    outside the modelled character range and is written as a hyphen. *)
Definition dash : string := " - ".

Definition _extract_context (text filename skill : string) : string :=
  match context_of_lines (firstn 8 (splitlines_from false text)) with
  | Some d => d
  | None => skill +:+ dash +:+ filename
  end.

Section WithDigest.

(** [hashlib.md5(s.encode()).hexdigest()] *)
Variable md5_hex : string -> string.

Definition raw_id (skill_name name section_title sub : string) : string :=
  skill_name +:+ "/" +:+ name +:+ "/" +:+ section_title +:+ "/" +:+ Py.take 50 sub.

Definition make_chunk (name path skill_name : string) (domains : list string)
  (file_context section_title sub : string) : Chunk.t :=
  Chunk.mk
    (md5_hex (raw_id skill_name name section_title sub))
    sub
    ("[" +:+ skill_name +:+ " | " +:+ name +:+ "]" +:+ String Py.newline EmptyString
       +:+ file_context +:+ String Py.newline (String Py.newline EmptyString) +:+ sub)
    skill_name name path section_title domains.

(** [chunk_file] on the text read from the file [path] whose last
    component is [name]. *)
Definition chunk_file (max_tokens : Z) (name path text skill_name : string)
  (domains : list string) : list Chunk.t :=
  let sections := _split_sections text in
  let file_context := _extract_context text name skill_name in
  flat_map
    (fun s : string * string =>
       map (make_chunk name path skill_name domains file_context (fst s))
           (_split_long max_tokens (snd s)))
    sections.

End WithDigest.
End Chunker.

(** ** BM25 *)

Module BM25.

Record t : Type := mk {
  k1 : R;
  b : R;
  _docs : list (list string);
  _ids : list string;
  _df : gmap string nat;
  _avgdl : R;
  _N : nat
}.

(** [BM25()] *)
Definition init : t := mk 1.5 0.75 [] [] ∅ 0 0.

(** [re.findall(r"\w+", text.lower())] *)
Definition _tokenize (text : string) : list string :=
  Py.runs Py.is_word (Py.lower text).

(** [m[t] += 1] on a [defaultdict(int)] *)
Definition incr (m : gmap string nat) (t : string) : gmap string nat :=
  <[t := S (default 0%nat (m !! t))]> m.

(** The body of the loop of [fit] on the state [(total, df)]. *)
Definition fit_step (st : nat * gmap string nat) (tokens : list string)
  : nat * gmap string nat :=
  ((st.1 + length tokens)%nat,
   set_fold (fun t m => incr m t) st.2 (list_to_set tokens : gset string)).

Definition fit (self : t) (docs ids : list string) : t :=
  let toks := map _tokenize docs in
  let n := length docs in
  let st := fold_left fit_step toks (0%nat, ∅) in
  mk (k1 self) (b self) toks ids st.2
     (if (n =? 0)%nat then 1%R else (INR st.1 / INR n)%R) n.

(** The inverse document frequency of a query token. ([self._df[qt]] is
    only read for a token of some document, which [fit] has counted.) *)
Definition idf (self : t) (qt : string) : R :=
  let df := INR (default 0%nat (_df self !! qt)) in
  ln ((INR (_N self) - df + 0.5) / (df + 0.5) + 1).

(** One iteration of [for qt in q_tokens]; [None] is [ZeroDivisionError]. *)
Definition term_step (self : t) (tf_map : gmap string nat) (dl : nat)
  (acc : option R) (qt : string) : option R :=
  s ← acc;
  match tf_map !! qt with
  | None => Some s
  | Some tf =>
      x ← fdiv (b self * INR dl) (_avgdl self);
      y ← fdiv (idf self qt * (INR tf * (k1 self + 1)))
               (INR tf + k1 self * (1 - b self + x));
      Some (s + y)%R
  end.

Definition doc_score (self : t) (q_tokens tokens : list string) : option R :=
  fold_left (term_step self (fold_left incr tokens ∅) (length tokens))
            q_tokens (Some 0%R).

(** One iteration of [for i, tokens in enumerate(self._docs)]; [None] is an
    exception ([IndexError] on [self._ids[i]] or [ZeroDivisionError]). *)
Definition score_step (self : t) (q_tokens : list string)
  (acc : option (list (string * R))) (it : nat * list string)
  : option (list (string * R)) :=
  scores ← acc;
  s ← doc_score self q_tokens it.2;
  if Rltb 0 s
  then (cid ← _ids self !! it.1; Some (OD.set cid s scores))
  else Some scores.

Definition score (self : t) (query : string) (top_k : Z)
  : option (list (string * R)) :=
  let q_tokens := _tokenize query in
  scores ← fold_left (score_step self q_tokens)
            (combine (seq 0 (length (_docs self))) (_docs self)) (Some []);
  Some (Py.slice_to top_k (sorted_desc snd Rltb scores)).

End BM25.

(** ** Concept graph ([concept_graph.py]) *)

Module ConceptGraph.

Record t : Type := mk {
  edges : gmap string (list (string * Q));
  aliases : gmap string string
}.

Definition empty : t := mk ∅ ∅.

Definition add_edge (a b : string) (w : Q) (e : gmap string (list (string * Q)))
  : gmap string (list (string * Q)) :=
  <[a := default [] (e !! a) ++ [(b, w)]]> e.

Definition add_relation (a b : string) (weight : Q) (g : t) : t :=
  let a := Py.lower a in
  let b := Py.lower b in
  mk (add_edge b a weight (add_edge a b weight (edges g))) (aliases g).

Definition add_alias (alias canonical : string) (g : t) : t :=
  mk (edges g) (<[Py.lower alias := Py.lower canonical]> (aliases g)).

Definition is_sigil (c : ascii) : bool :=
  (Py.code c =? 64)%nat || (Py.code c =? 35)%nat.

(** [re.findall(r"[@#]?\w+", s)] *)
Fixpoint sigil_tokens (s : string) : list string :=
  match s with
  | EmptyString => []
  | String c s' =>
      let glued :=
        match sigil_tokens s' with
        | w :: ws => String c w :: ws
        | [] => [String c EmptyString]
        end in
      match s' with
      | EmptyString => if Py.is_word c then [String c EmptyString] else []
      | String c' _ =>
          if Py.is_word c then
            if Py.is_word c' then glued
            else String c EmptyString :: sigil_tokens s'
          else if is_sigil c && Py.is_word c' then glued
          else sigil_tokens s'
      end
  end.

Definition Qltb (x y : Q) : bool := negb (Qle_bool y x).

(** [max(current, weight)] *)
Definition qmax (current weight : Q) : Q :=
  if Qltb current weight then weight else current.

(** [_collect_neighbors] on the state [(candidates, visited)]; a [depth]
    that is not positive is [0]. *)
Fixpoint _collect_neighbors (g : t) (depth : nat) (concept : string)
  (min_weight : Q) (st : list (string * Q) * gset string)
  : list (string * Q) * gset string :=
  match depth with
  | O => st
  | S d =>
      if decide (concept ∈ st.2) then st
      else
        fold_left
          (fun (st : list (string * Q) * gset string) (e : string * Q) =>
             if Qle_bool min_weight e.2 then
               let current := default 0%Q (OD.get e.1 st.1) in
               let st' := (OD.set e.1 (qmax current e.2) st.1, st.2) in
               match d with
               | O => st'
               | S _ => _collect_neighbors g d e.1 (min_weight * 0.7)%Q st'
               end
             else st)
          (default [] (edges g !! concept))
          (st.1, {[concept]} ∪ st.2)
  end.

Definition resolve (g : t) (token : string) : string :=
  default token (aliases g !! token).

(** The sorted candidates of [expand] cut to [max_expansions], weights
    included. *)
Definition expand_ranked (g : t) (query : string) (max_expansions : Z)
  (min_weight : Q) (depth : Z) : list (string * Q) :=
  let query_lower := Py.lower query in
  let query_tokens : gset string := list_to_set (sigil_tokens query_lower) in
  let resolved : gset string := set_map (resolve g) query_tokens in
  let candidates :=
    fold_left
      (fun c token =>
         (_collect_neighbors g (Z.to_nat depth) token min_weight (c, ∅)).1)
      (elements resolved) [] in
  let candidates :=
    fold_left (fun c token => OD.pop token c)
              (elements (resolved ∪ query_tokens)) candidates in
  let ranked := sorted_desc snd Qltb candidates in
  Py.slice_to max_expansions ranked.

Definition expand (g : t) (query : string) (max_expansions : Z)
  (min_weight : Q) (depth : Z) : list string :=
  map fst (expand_ranked g query max_expansions min_weight depth).

(** [expand(query)] with the default arguments. *)
Definition expand_default (g : t) (query : string) : list string :=
  expand g query 6 0.5 1.

(** The relations and aliases of [get_swift_concept_graph], in source order. *)
Definition swift_relations : list (string * string * Q) :=
  [
   ("sendable", "actor isolation", 1.0); ("sendable", "data race", 1.0);
   ("sendable", "crossing boundary", 0.9); ("sendable", "thread safety", 0.8);
   ("sendable", "nonisolated", 0.7); ("sendable", "@unchecked sendable", 0.8);
   ("actor", "isolation", 1.0); ("actor", "actor isolation", 1.0);
   ("actor", "reentrancy", 0.8); ("actor", "sendable", 0.9);
   ("actor", "nonisolated", 0.8); ("actor", "async", 0.7);
   ("@mainactor", "ui thread", 1.0); ("@mainactor", "main thread", 1.0);
   ("@mainactor", "global actor", 0.9); ("@mainactor", "isolation domain", 0.8);
   ("@mainactor", "viewmodel", 0.7); ("@mainactor", "actor isolation", 0.9);
   ("async", "await", 1.0); ("async", "task", 0.9);
   ("async", "suspension point", 0.8); ("async", "structured concurrency", 0.8);
   ("async", "async let", 0.9); ("async", "concurrency", 1.0);
   ("task", "cancellation", 0.9); ("task", "task group", 0.9);
   ("task", "structured concurrency", 0.9); ("task", "unstructured task", 0.7);
   ("task", "task.detached", 0.7); ("task", "priority", 0.6);
   ("data race", "thread safety", 1.0); ("data race", "sendable", 1.0);
   ("data race", "actor isolation", 0.9); ("data race", "strict concurrency", 0.9);
   ("data race", "mutable state", 0.8); ("swift 6", "strict concurrency", 1.0);
   ("swift 6", "region-based isolation", 0.9); ("swift 6", "sendable", 0.9);
   ("swift 6", "breaking changes", 0.8); ("swift 6", "migration", 0.9);
   ("continuation", "async", 0.9); ("continuation", "callback", 0.9);
   ("continuation", "bridging", 0.8); ("@state", "source of truth", 1.0);
   ("@state", "view update", 0.9); ("@state", "private", 0.7);
   ("@state", "@binding", 0.9); ("@observable", "observation", 1.0);
   ("@observable", "@state", 0.8); ("@observable", "viewmodel", 0.9);
   ("@observable", "ios 17", 0.8); ("@observable", "macro", 0.7);
   ("@binding", "two-way binding", 1.0); ("@binding", "child view", 0.8);
   ("@binding", "@state", 0.9); ("@environment", "dependency injection", 0.9);
   ("@environment", "environment values", 1.0); ("@environment", "view hierarchy", 0.8);
   ("navigationstack", "navigation", 1.0); ("navigationstack", "navigationpath", 0.9);
   ("navigationstack", "programmatic navigation", 0.9); ("navigationstack", "deep link", 0.7);
   ("navigationstack", "ios 16", 0.7); ("viewmodel", "mvvm", 1.0);
   ("viewmodel", "@observable", 0.9); ("viewmodel", "business logic", 0.9);
   ("viewmodel", "@mainactor", 0.8); ("viewmodel", "separation of concerns", 0.8);
   ("performance", "lazy loading", 0.9); ("performance", "identity", 0.8);
   ("performance", "equatable", 0.8); ("performance", "redraw", 0.9);
   ("performance", "profiling", 0.7); ("@test", "swift testing", 1.0);
   ("@test", "#expect", 0.9); ("@test", "@suite", 0.8);
   ("@test", "parameterized", 0.8); ("#expect", "assertion", 1.0);
   ("#expect", "swift testing", 0.9); ("#expect", "xctest", 0.6);
   ("mock", "test double", 1.0); ("mock", "stub", 0.8);
   ("mock", "protocol", 0.9); ("mock", "dependency injection", 0.8);
   ("xctest", "unit test", 1.0); ("xctest", "xctestcase", 1.0);
   ("xctest", "xcassertion", 0.9); ("xctest", "swift testing", 0.7);
   ("mvvm", "viewmodel", 1.0); ("mvvm", "separation of concerns", 0.9);
   ("mvvm", "data binding", 0.8); ("mvvm", "testability", 0.8);
   ("clean architecture", "use case", 0.9); ("clean architecture", "repository", 0.9);
   ("clean architecture", "dependency inversion", 0.9); ("clean architecture", "testability", 0.8);
   ("dependency injection", "protocol", 0.9); ("dependency injection", "testability", 0.9);
   ("dependency injection", "inversion of control", 0.9)
  ]%Q.

Definition swift_aliases : list (string * string) :=
  [
   ("di", "dependency injection"); ("vm", "viewmodel");
   ("s6", "swift 6"); ("tca", "the composable architecture");
   ("async/await", "async"); ("mainactor", "@mainactor");
   ("observable", "@observable"); ("state", "@state")
  ].

Definition get_swift_concept_graph : t :=
  let g :=
    fold_left (fun g (r : string * string * Q) => add_relation r.1.1 r.1.2 r.2 g)
              swift_relations empty in
  fold_left (fun g (a : string * string) => add_alias a.1 a.2 g) swift_aliases g.

End ConceptGraph.

(** ** The engine ([MaestroEngine]) *)

Module Engine.

Record Config : Type := mkConfig {
  reranker_enabled : bool;
  reranker_candidates : Z;
  top_k : Z;
  chunk_max_tokens : Z;
  cache_enabled : bool;
  cache_similarity : R
}.

(** [Config()] *)
Definition default_config : Config := mkConfig true 20 7 400 true 0.92.

Record SkillFingerprint : Type := mkFingerprint {
  name : string;
  description : string;
  fp_domains : list string;
  chunk_count : nat;
  embedding : option (list R)
}.

Definition fingerprint_text (fp : SkillFingerprint) : string :=
  name fp +:+ ": " +:+ description fp +:+ ". Domains: "
    +:+ Py.join ", " (fp_domains fp).

Record SearchResult : Type := mkResult {
  chunk : Chunk.t;
  final_score : R;
  semantic_rank : option nat;
  bm25_rank : option nat;
  rerank_score : option R
}.

Record SearchResponse : Type := mkResponse {
  query : string;
  results : list SearchResult;
  skills_used : list string;
  time_ms : R;
  from_cache : bool;
  expanded_terms : option (list string)
}.

Definition set_from_cache (v : bool) (r : SearchResponse) : SearchResponse :=
  mkResponse (query r) (results r) (skills_used r) (time_ms r) v (expanded_terms r).

(** What [_store_chunks] writes under a chunk id; [domains] stands for its
    JSON text. *)
Record Meta : Type := mkMeta {
  m_skill : string;
  m_file : string;
  m_file_path : string;
  m_section : string;
  m_domains : list string
}.

Record Entry : Type := mkEntry {
  e_embedding : list R;
  e_document : string;
  e_meta : Meta
}.

(** The collection of the vector store, keyed by chunk id. *)
Abbreviation Collection := (gmap string Entry).

(** A markdown file found by [rglob]: its name, its path, and what
    [read_text] gives (the text, or the message of the exception). *)
Record MdFile : Type := mkMd {
  md_name : string;
  md_path : string;
  md_read : string + string
}.

(** A skill directory as [index] sees it: [sd_domains] and
    [sd_description] are what [_extract_domains] and [_extract_description]
    read from its [SKILL.md]. *)
Record SkillDir : Type := mkDir {
  sd_is_dir : bool;
  sd_name : string;
  sd_domains : list string;
  sd_description : string;
  sd_files : list MdFile
}.

(** The engine's attributes. [_cache] holds references into [heap], the
    store of [SearchResponse] objects: a response handed to a caller and the
    one kept in the cache are the same object. *)
Record t : Type := mk {
  config : Config;
  _bm25 : BM25.t;
  _collection : option Collection;
  _fingerprints : list (string * SkillFingerprint);
  _cache : list (string * nat);
  heap : list SearchResponse;
  _concept_graph : ConceptGraph.t;
  _indexed : bool
}.

Definition set_fingerprints (fps : list (string * SkillFingerprint)) (e : t) : t :=
  mk (config e) (_bm25 e) (_collection e) fps (_cache e) (heap e)
     (_concept_graph e) (_indexed e).

Definition count (c : Collection) : nat := size c.

(** [_cosine]; [None] is [ZeroDivisionError]. *)
Definition dot (a b : list R) : R :=
  fold_left Rplus (map (fun p : R * R => (p.1 * p.2)%R) (combine a b)) 0%R.

Definition norm (a : list R) : R :=
  sqrt (fold_left Rplus (map (fun x => (x * x)%R) a) 0%R).

Definition _cosine (a b : list R) : option R :=
  let na := norm a in
  let nb := norm b in
  if decide (na = 0%R) then Some 0%R
  else if decide (nb = 0%R) then Some 0%R
  else fdiv (dot a b) (na * nb).

(** The loop of [_match_skills] that scores the fingerprints that carry a
    non-empty embedding. *)
Fixpoint skill_scores (query_emb : list R) (fps : list (string * SkillFingerprint))
  : option (list (string * R)) :=
  match fps with
  | [] => Some []
  | (n, fp) :: fps' =>
      match embedding fp with
      | Some (x :: xs) =>
          sim ← _cosine query_emb (x :: xs);
          rest ← skill_scores query_emb fps';
          Some ((n, sim) :: rest)
      | _ => skill_scores query_emb fps'
      end
  end.

(** [_match_skills]; the sorted list is empty exactly when no fingerprint
    was scored. *)
Definition _match_skills (fps : list (string * SkillFingerprint))
  (query_emb : list R) : option (list string) :=
  match fps with
  | [] => Some []
  | _ =>
      scores ← skill_scores query_emb fps;
      match sorted_desc snd Rltb scores with
      | [] => Some []
      | top :: rest =>
          let threshold := (top.2 * 0.6)%R in
          let matched :=
            map fst (filter (fun p : string * R => Rleb threshold p.2) (top :: rest)) in
          Some (firstn 8 matched)
      end
  end.

(** *** Reciprocal rank fusion *)

(** [rrf[chunk_id] += 1 / (k + rank + 1)] on a [defaultdict(float)] *)
Definition rrf_add (k : nat) (rrf : list (string * R)) (rank : nat) (cid : string)
  : list (string * R) :=
  OD.set cid (default 0%R (OD.get cid rrf) + 1 / INR (k + rank + 1))%R rrf.

(** The two accumulation loops of [_rrf_fuse]. *)
Definition rrf_scores (k : nat) (sem_ids bm25_ids : list string) : list (string * R) :=
  let rrf :=
    fold_left (fun rrf it => rrf_add k rrf it.1 it.2) (Py.enumerate sem_ids) [] in
  fold_left (fun rrf it => rrf_add k rrf it.1 it.2) (Py.enumerate bm25_ids) rrf.

(** [collection.get(ids=..., include=["documents", "metadatas"])] *)
Definition collection_get (c : Collection) (ids : list string) : list (string * Entry) :=
  omap (fun cid => e ← c !! cid; Some (cid, e)) ids.

Definition fused_result (sem_map : list (string * (R * nat)))
  (bm25_rank_map : list (string * nat)) (cid : string) (rrf_score : R) (e : Entry)
  : SearchResult :=
  let m := e_meta e in
  mkResult
    (Chunk.mk cid (e_document e) (e_document e) (m_skill m) (m_file m)
              (m_file_path m) (m_section m) (m_domains m))
    rrf_score
    (snd <$> OD.get cid sem_map)
    (OD.get cid bm25_rank_map)
    None.

(** [_rrf_fuse(sem, bm25)]; [k] is 60 at its only call. *)
Definition _rrf_fuse (coll : option Collection) (sem : list (string * R * nat))
  (bm25 : list (string * R)) (k : nat) : list SearchResult :=
  let sem_ids := map (fun x : string * R * nat => x.1.1) sem in
  let sem_map :=
    OD.of_list (map (fun it : nat * (string * R * nat) => (it.2.1.1, (it.2.1.2, it.1)))
                    (Py.enumerate sem)) in
  let bm25_sorted := sorted_desc snd Rltb bm25 in
  let bm25_rank_map :=
    OD.of_list (map (fun it : nat * (string * R) => (it.2.1, it.1))
                    (Py.enumerate bm25_sorted)) in
  let rrf := rrf_scores k sem_ids (map fst bm25_sorted) in
  match rrf with
  | [] => []
  | _ =>
      match coll with
      | None => []
      | Some c =>
          let id_to_data := OD.of_list (collection_get c (OD.keys rrf)) in
          omap (fun it : string * R =>
                  e ← OD.get it.1 id_to_data;
                  Some (fused_result sem_map bm25_rank_map it.1 it.2 e))
               (sorted_desc snd Rltb rrf)
      end
  end.

Section Externals.

(** [hashlib.md5(...).hexdigest()] *)
Variable md5_hex : string -> string.
(** The embedding provider. *)
Variable embed_documents : list string -> list (list R).
Variable embed_query : string -> list R.
(** [collection.query(query_embeddings=[q], n_results=n, where=w)]: the ids
    found with their cosine distances. *)
Variable collection_query :
  Collection -> list R -> Z -> option (list string) -> list (string * R).
(** [CrossEncoder(...).predict(pairs)]; [None] when loading or predicting
    raises. *)
Variable cross_encoder : list (string * string) -> option (list R).
(** The wall-clock time a search took. *)
Variable elapsed_ms : R.

(** *** Indexing *)

Record IndexLoop : Type := mkLoop {
  all_chunks : list Chunk.t;
  skill_count : nat;
  errors : list string;
  fingerprints : list (string * SkillFingerprint)
}.

(** The loop over [skill_dir.rglob("*.md")] on the state
    [(skill_chunks, errors)]. *)
Definition chunk_md (max_tokens : Z) (sd : SkillDir)
  (st : list Chunk.t * list string) (f : MdFile) : list Chunk.t * list string :=
  if Py.startswith "." (md_name f) then st
  else match md_read f with
       | inl text =>
           (st.1 ++ Chunker.chunk_file md5_hex max_tokens (md_name f) (md_path f)
                                       text (sd_name sd) (sd_domains sd),
            st.2)
       | inr exn =>
           (st.1, st.2 ++ [sd_name sd +:+ "/" +:+ md_name f +:+ ": " +:+ exn])
       end.

(** The body of [for skill_dir in skill_dirs]. *)
Definition index_step (max_tokens : Z) (st : IndexLoop) (sd : SkillDir) : IndexLoop :=
  if negb (sd_is_dir sd) then st
  else
    let r := fold_left (chunk_md max_tokens sd) (sd_files sd) ([], errors st) in
    match r.1 with
    | [] => mkLoop (all_chunks st) (skill_count st) r.2 (fingerprints st)
    | skill_chunks =>
        mkLoop (all_chunks st ++ skill_chunks) (S (skill_count st)) r.2
               (OD.set (sd_name sd)
                       (mkFingerprint (sd_name sd) (sd_description sd) (sd_domains sd)
                                      (length skill_chunks) None)
                       (fingerprints st))
    end.

Definition meta_of (c : Chunk.t) : Meta :=
  mkMeta (Chunk.skill c) (Chunk.file c) (Chunk.file_path c) (Chunk.section c)
         (Chunk.domains c).

(** [collection.add] of one batch; the collection is keyed by chunk id. *)
Definition add_batch (c : Collection) (batch : list Chunk.t) : Collection :=
  let embeddings := embed_documents (map Chunk.contextual_text batch) in
  fold_left
    (fun (c : Collection) (it : nat * Chunk.t) =>
       <[Chunk.id it.2 :=
           mkEntry (default [] (embeddings !! it.1)) (Chunk.text it.2) (meta_of it.2)]> c)
    (Py.enumerate batch) c.

Definition _store_chunks (coll : option Collection) (chunks : list Chunk.t)
  (force : bool) : option Collection :=
  match coll with
  | None => None
  | Some c =>
      let c := if force then (∅ : Collection) else c in
      Some (fold_left
              (fun c i => add_batch c (firstn 64 (skipn i chunks)))
              (Py.range_step (length chunks) 64) c)
  end.

(** The loop [for name, emb in zip(names, embs)] of [_embed_fingerprints]. *)
Fixpoint set_embeddings (fps : list (string * SkillFingerprint)) (embs : list (list R))
  : list (string * SkillFingerprint) :=
  match fps, embs with
  | (n, fp) :: fps', emb :: embs' =>
      (n, mkFingerprint (name fp) (description fp) (fp_domains fp) (chunk_count fp)
                        (Some emb))
        :: set_embeddings fps' embs'
  | _, _ => fps
  end.

Definition _embed_fingerprints (fps : list (string * SkillFingerprint))
  : list (string * SkillFingerprint) :=
  match fps with
  | [] => []
  | _ => set_embeddings fps (embed_documents (map (fun p => fingerprint_text p.2) fps))
  end.

Definition _build_bm25 (bm : BM25.t) (chunks : list Chunk.t) : BM25.t :=
  BM25.fit bm (map Chunk.text chunks) (map Chunk.id chunks).

(** What [index] returns (the duration left out). *)
Record IndexStats : Type := mkStats {
  st_skills : nat;
  st_files : nat;
  st_chunks : nat;
  st_fingerprints : nat;
  st_errors : list string
}.

(** [index(paths, force)]; [fs] is what [_discover_skills] finds when the
    call is made, and an absent [paths] is the empty list. The index-meta
    file that [_save_index_meta] writes is not part of the engine's state. *)
Definition index (e : t) (fs paths : list SkillDir) (force : bool) : IndexStats * t :=
  let skill_dirs := match paths with [] => fs | _ => paths end in
  let st :=
    fold_left (index_step (chunk_max_tokens (config e))) skill_dirs
              (mkLoop [] 0 [] (_fingerprints e)) in
  match all_chunks st with
  | [] => (mkStats 0 0 0 0 (errors st), set_fingerprints (fingerprints st) e)
  | chunks =>
      let coll := _store_chunks (_collection e) chunks force in
      let fps := _embed_fingerprints (fingerprints st) in
      let bm := _build_bm25 (_bm25 e) chunks in
      (mkStats (skill_count st)
               (size (list_to_set (map Chunk.file_path chunks) : gset string))
               (length chunks) (length fps) (errors st),
       mk (config e) bm coll fps (_cache e) (heap e) (_concept_graph e) true)
  end.

(** *** Search *)

(** [_ensure_indexed]; a collection object is truthy. *)
Definition _ensure_indexed (e : t) (fs : list SkillDir) : t :=
  if negb (_indexed e)
     || match _collection e with Some c => (count c =? 0)%nat | None => false end
  then (index e fs [] false).2
  else e.

Definition _semantic_search (coll : option Collection) (query_emb : list R)
  (top_k : Z) (where_ : option (list string)) : list (string * R * nat) :=
  match coll with
  | None => []
  | Some c =>
      if (count c =? 0)%nat then []
      else
        let res := collection_query c query_emb (Z.min top_k (Z.of_nat (count c))) where_ in
        map (fun it : nat * (string * R) => (it.2.1, (1 - it.2.2)%R, it.1))
            (Py.enumerate res)
  end.

(** The loop [for r, score in zip(results, scores)] of [_rerank]. *)
Fixpoint apply_scores (rs : list SearchResult) (scores : list R) : list SearchResult :=
  match rs, scores with
  | r :: rs', s :: scores' =>
      mkResult (chunk r) s (semantic_rank r) (bm25_rank r) (Some s)
        :: apply_scores rs' scores'
  | _, _ => rs
  end.

Definition _rerank (q : string) (rs : list SearchResult) : list SearchResult :=
  match cross_encoder (map (fun r => (q, Chunk.text (chunk r))) rs) with
  | Some scores => sorted_desc final_score Rltb (apply_scores rs scores)
  | None => rs
  end.

(** One iteration of the scan of [_check_cache] on [(best_sim, best_resp)];
    [None] is an exception, which the caller swallows. *)
Definition cache_scan (q_emb : list R) (st : option (R * option nat))
  (it : string * nat) : option (R * option nat) :=
  best ← st;
  sim ← _cosine q_emb (embed_query it.1);
  if Rltb best.1 sim then Some (sim, Some it.2) else Some best.

(** [_check_cache]: the reference of the cached response, if any. *)
Definition _check_cache (e : t) (q : string) : option nat :=
  match OD.get q (_cache e) with
  | Some r => Some r
  | None =>
      match _cache e with
      | [] => None
      | items =>
          match fold_left (cache_scan (embed_query q)) items (Some (0%R, None)) with
          | Some best =>
              if Rleb (cache_similarity (config e)) best.1 then best.2 else None
          | None => None
          end
      end
  end.

Definition is_nil {A} (l : list A) : bool :=
  match l with [] => true | _ => false end.

(** [sorted({r.chunk.skill for r in final})] *)
Definition skills_of (final : list SearchResult) : list string :=
  sorted_desc (fun s : string => s) (fun a b => String.ltb b a)
    (elements (list_to_set (map (fun r => Chunk.skill (chunk r)) final) : gset string)).

(** [search(query, top_k)]: the reference of the response handed back and
    the engine afterwards; [None] when the call raises. *)
Definition search (e : t) (fs : list SkillDir) (q : string) (top_k_arg : option Z)
  : option (nat * t) :=
  let e := _ensure_indexed e fs in
  let cfg := config e in
  let top_k :=
    match top_k_arg with
    | Some k => if (k =? 0)%Z then top_k cfg else k
    | None => top_k cfg
    end in
  match (if cache_enabled cfg then _check_cache e q else None) with
  | Some r =>
      Some (r, mk cfg (_bm25 e) (_collection e) (_fingerprints e) (_cache e)
                  (alter (set_from_cache true) r (heap e))
                  (_concept_graph e) (_indexed e))
  | None =>
      let expanded := ConceptGraph.expand_default (_concept_graph e) q in
      let search_query :=
        q +:+ (if is_nil expanded then EmptyString else " " +:+ Py.join " " expanded) in
      let query_emb := embed_query search_query in
      matched_skills ← _match_skills (_fingerprints e) query_emb;
      let where_ := if is_nil matched_skills then None else Some matched_skills in
      let sem_candidates :=
        if reranker_enabled cfg then reranker_candidates cfg else (top_k * 2)%Z in
      let sem_results := _semantic_search (_collection e) query_emb sem_candidates where_ in
      scored ← BM25.score (_bm25 e) search_query sem_candidates;
      let bm25_results := OD.of_list scored in
      let fused := _rrf_fuse (_collection e) sem_results bm25_results 60 in
      let fused :=
        if reranker_enabled cfg && negb (is_nil fused) then _rerank q fused else fused in
      let final := Py.slice_to top_k fused in
      let response :=
        mkResponse q final (skills_of final) elapsed_ms false
                   (if is_nil expanded then None else Some expanded) in
      let r := length (heap e) in
      Some (r, mk cfg (_bm25 e) (_collection e) (_fingerprints e)
                  (if cache_enabled cfg then OD.set q r (_cache e) else _cache e)
                  (heap e ++ [response])
                  (_concept_graph e) (_indexed e))
  end.

(** [MaestroEngine(config)] with a reachable, empty vector store. *)
Definition init (cfg : Config) : t :=
  mk cfg BM25.init (Some ∅) [] [] [] ConceptGraph.get_swift_concept_graph false.

End Externals.
End Engine.

(** ** Context assembly, status and the remote embedder *)

Module Surface.

(** The block of one result in [as_context]. *)
Definition block (r : Engine.SearchResult) : string :=
  let c := Engine.chunk r in
  let nl := String Py.newline EmptyString in
  "## [" +:+ Chunk.skill c +:+ "] " +:+ Chunk.file c +:+ Chunker.dash
    +:+ Chunk.section c +:+ nl +:+ nl +:+ Chunk.text c +:+ nl +:+ nl +:+ "---" +:+ nl.

(** [len(block) // 4] *)
Definition block_tokens (r : Engine.SearchResult) : Z :=
  Z.of_nat (String.length (block r) / 4).

(** The loop of [as_context]: the blocks appended before the [break];
    [used] is the budget spent so far. *)
Fixpoint context_blocks (max_tokens used : Z) (rs : list Engine.SearchResult)
  : list string :=
  match rs with
  | [] => []
  | r :: rs' =>
      let t := block_tokens r in
      if (max_tokens <? used + t)%Z then []
      else block r :: context_blocks max_tokens (used + t)%Z rs'
  end.

Definition context_header (resp : Engine.SearchResponse) : string :=
  "# Relevant Knowledge (" +:+ Py.join ", " (Engine.skills_used resp) +:+ ")"
    +:+ String Py.newline EmptyString.

(** [SearchResponse.as_context(max_tokens)] *)
Definition as_context (resp : Engine.SearchResponse) (max_tokens : Z) : string :=
  match Engine.results resp with
  | [] => EmptyString
  | rs =>
      Py.join (String Py.newline EmptyString)
              (context_header resp :: context_blocks max_tokens 0 rs)
  end.

(** [Embedder._voyage_embed(texts, input_type)]; [client] is
    [self._voyage.embed(batch, model=..., input_type=...).embeddings]. *)
Definition _voyage_embed {E : Type} (client : list string -> string -> list E)
  (texts : list string) (input_type : string) : list E :=
  flat_map (fun i => client (firstn 128 (skipn i texts)) input_type)
           (Py.range_step (length texts) 128).



End Surface.

(** * Verified properties *)

(** ** Worked examples *)

Example pattern_split_headings :
  let nl := String Py.newline EmptyString in
  Chunker.pattern_split ("# a" +:+ nl +:+ "foo" +:+ nl +:+ "## b" +:+ nl +:+ "bar" +:+ nl)
  = [EmptyString; "# a"; nl +:+ "foo" +:+ nl; "## b"; nl +:+ "bar" +:+ nl].
Proof. vm_compute. reflexivity. Qed.

Example split_sections_intro_and_heading :
  let nl := String Py.newline EmptyString in
  Chunker._split_sections
    ("Preface." +:+ nl +:+ "## Concurrency" +:+ nl
       +:+ "Sendable conformance for actors avoids data races." +:+ nl)
  = [("intro", "Preface.");
     ("Concurrency", "Sendable conformance for actors avoids data races.")].
Proof. vm_compute. reflexivity. Qed.

Example split_sections_blank : Chunker._split_sections "  " = [("main", "  ")].
Proof. vm_compute. reflexivity. Qed.

Example split_long_windows :
  Chunker._split_long 3 "a b  c" = ["a b  c"]
  /\ Chunker._split_long 60 (Py.join " " (repeat "w" 61))
     = [Py.join " " (repeat "w" 60); Py.join " " (repeat "w" 51)].
Proof. split; vm_compute; reflexivity. Qed.

Example sigil_tokens_sample :
  ConceptGraph.sigil_tokens "a@b @@c #x# @ d_e @1" = ["a"; "@b"; "@c"; "#x"; "d_e"; "@1"].
Proof. vm_compute. reflexivity. Qed.

Example expand_sendable_warning :
  ConceptGraph.expand_default ConceptGraph.get_swift_concept_graph "Sendable warning"
  = ["actor isolation"; "data race"; "crossing boundary"; "actor"; "swift 6";
     "thread safety"].
Proof. vm_compute. reflexivity. Qed.

Example expand_unknown_seed :
  ConceptGraph.expand_default ConceptGraph.get_swift_concept_graph "hello world" = [].
Proof. vm_compute. reflexivity. Qed.

(** ** Slices and the stable descending sort *)

Section SliceFacts.
Context {A : Type}.

Lemma slice_to_prefix (k : Z) (l : list A) :
  exists n, Py.slice_to k l = firstn n l.
Proof. unfold Py.slice_to. destruct (0 <=? k)%Z; eauto. Qed.

Lemma slice_to_length (k : Z) (l : list A) :
  (0 <= k)%Z -> (Z.of_nat (length (Py.slice_to k l)) <= k)%Z.
Proof.
  intros Hk. unfold Py.slice_to.
  destruct (Z.leb_spec 0 k) as [_|?]; [|lia].
  rewrite length_firstn. lia.
Qed.

Lemma firstn_In (n : nat) (l : list A) (x : A) :
  In x (firstn n l) -> In x l.
Proof.
  revert n. induction l as [|y l IH]; intros [|n]; simpl; try tauto.
  intros [H|H]; [left; exact H | right; eapply IH, H].
Qed.

Lemma slice_to_In (k : Z) (l : list A) (x : A) :
  In x (Py.slice_to k l) -> In x l.
Proof.
  destruct (slice_to_prefix k l) as [n ->]. apply firstn_In.
Qed.

Lemma firstn_StronglySorted (R : A -> A -> Prop) (n : nat) (l : list A) :
  StronglySorted R l -> StronglySorted R (firstn n l).
Proof.
  intros H. revert n. induction H as [|x l Hl IH Hx]; intros [|n]; simpl;
    try constructor.
  - apply IH.
  - rewrite Forall_forall in *. intros y Hy. apply Hx.
    apply list_elem_of_In. apply list_elem_of_In in Hy. eapply firstn_In, Hy.
Qed.

Lemma slice_to_StronglySorted (R : A -> A -> Prop) (k : Z) (l : list A) :
  StronglySorted R l -> StronglySorted R (Py.slice_to k l).
Proof.
  destruct (slice_to_prefix k l) as [n ->]. apply firstn_StronglySorted.
Qed.

End SliceFacts.

Section SortedDescFacts.
Context {A K : Type} (key : A -> K) (ltb : K -> K -> bool).
(** [ge a b]: [a] is not smaller than [b]. *)
Context (ge : K -> K -> Prop).
Hypothesis ge_trans : forall a b c, ge a b -> ge b c -> ge a c.
Hypothesis ltb_true : forall a b, ltb a b = true -> ge b a.
Hypothesis ltb_false : forall a b, ltb a b = false -> ge a b.

Definition desc (x y : A) : Prop := ge (key x) (key y).

Lemma insert_desc_perm (x : A) (l : list A) :
  Permutation (insert_desc key ltb x l) (x :: l).
Proof.
  induction l as [|y l IH]; simpl; [reflexivity|].
  destruct (ltb (key x) (key y)); [|reflexivity].
  rewrite IH. apply perm_swap.
Qed.

Lemma sorted_desc_perm (l : list A) : Permutation (sorted_desc key ltb l) l.
Proof.
  induction l as [|x l IH]; simpl; [reflexivity|].
  rewrite insert_desc_perm. constructor. exact IH.
Qed.

Lemma insert_desc_sorted (x : A) (l : list A) :
  StronglySorted desc l -> StronglySorted desc (insert_desc key ltb x l).
Proof.
  induction 1 as [|y l Hl IH Hy]; simpl.
  - repeat constructor.
  - destruct (ltb (key x) (key y)) eqn:E.
    + constructor; [exact IH|].
      rewrite Forall_forall. intros z Hz.
      apply list_elem_of_In in Hz.
      apply (Permutation_in _ (insert_desc_perm x l)) in Hz.
      destruct Hz as [<-|Hz].
      * apply ltb_true, E.
      * rewrite Forall_forall in Hy. apply Hy, list_elem_of_In, Hz.
    + constructor; [constructor; assumption|].
      constructor; [apply ltb_false, E|].
      rewrite Forall_forall in *. intros z Hz.
      eapply ge_trans; [apply ltb_false, E | apply Hy, Hz].
Qed.

Lemma sorted_desc_sorted (l : list A) : StronglySorted desc (sorted_desc key ltb l).
Proof.
  induction l as [|x l IH]; simpl; [constructor|].
  apply insert_desc_sorted, IH.
Qed.

Lemma sorted_desc_In (l : list A) (x : A) : In x (sorted_desc key ltb l) <-> In x l.
Proof.
  split; apply Permutation_in; [|symmetry]; apply sorted_desc_perm.
Qed.

End SortedDescFacts.

Lemma Rltb_true (a b : R) : Rltb a b = true -> (b >= a)%R.
Proof. unfold Rltb. intros H%bool_decide_eq_true. lra. Qed.

Lemma Rltb_false (a b : R) : Rltb a b = false -> (a >= b)%R.
Proof. unfold Rltb. intros H%bool_decide_eq_false. lra. Qed.

Lemma Rge_transitive (a b c : R) : (a >= b)%R -> (b >= c)%R -> (a >= c)%R.
Proof. lra. Qed.

(** Sorting floats in descending order gives a non-increasing list. *)
Lemma sorted_desc_R {A} (key : A -> R) (l : list A) :
  StronglySorted (fun x y => (key x >= key y)%R) (sorted_desc key Rltb l).
Proof.
  apply (sorted_desc_sorted key Rltb Rge Rge_transitive Rltb_true Rltb_false).
Qed.

(** ** Cosine similarity *)

Section Cosine.
Local Open Scope R_scope.

Lemma fold_sum_shift (l : list R) (x : R) :
  fold_left Rplus l x = x + fold_left Rplus l 0.
Proof.
  revert x. induction l as [|y l IH]; intros x; simpl.
  - lra.
  - rewrite (IH (x + y)), (IH (0 + y)). lra.
Qed.

Lemma sum_squares_nonneg (a : list R) :
  0 <= fold_left Rplus (map (fun x => x * x) a) 0.
Proof.
  induction a as [|x a IH]; simpl.
  - lra.
  - rewrite fold_sum_shift. pose proof (Rle_0_sqr x) as Hx. unfold Rsqr in Hx. lra.
Qed.

Lemma sum_squares_zero (a : list R) :
  fold_left Rplus (map (fun x => x * x) a) 0 = 0 <-> Forall (fun x => x = 0) a.
Proof.
  induction a as [|x a IH]; simpl.
  - split; [constructor | reflexivity].
  - rewrite fold_sum_shift.
    pose proof (sum_squares_nonneg a) as Ha.
    pose proof (Rle_0_sqr x) as Hx. unfold Rsqr in Hx.
    split.
    + intros H. assert (x * x = 0) as Hxx by lra.
      constructor.
      * apply Rmult_integral in Hxx. tauto.
      * apply IH. lra.
    + intros H. inversion H as [|? ? H0 Hrest]; subst.
      apply IH in Hrest. rewrite Hrest. lra.
Qed.

Lemma norm_zero (a : list R) :
  Engine.norm a = 0 <-> Forall (fun x => x = 0) a.
Proof.
  unfold Engine.norm. rewrite <- sum_squares_zero. split.
  - intros H. apply sqrt_eq_0; [apply sum_squares_nonneg | exact H].
  - intros ->. apply sqrt_0.
Qed.

Lemma cosine_some (a b : list R) :
  Engine._cosine a b =
    Some (if decide (Engine.norm a = 0) then 0
          else if decide (Engine.norm b = 0) then 0
          else Engine.dot a b / (Engine.norm a * Engine.norm b)).
Proof.
  unfold Engine._cosine, fdiv.
  destruct (decide (Engine.norm a = 0)) as [Ha|Ha]; [reflexivity|].
  destruct (decide (Engine.norm b = 0)) as [Hb|Hb]; [reflexivity|].
  destruct (decide (Engine.norm a * Engine.norm b = 0)) as [Hab|Hab]; [|reflexivity].
  apply Rmult_integral in Hab. tauto.
Qed.

Lemma skill_scores_some (q : list R) (fps : list (string * Engine.SkillFingerprint)) :
  is_Some (Engine.skill_scores q fps).
Proof.
  induction fps as [|[n fp] fps IH]; simpl.
  - eauto.
  - destruct (Engine.embedding fp) as [[|x xs]|]; try exact IH.
    rewrite cosine_some. simpl. destruct IH as [rest ->]. simpl. eauto.
Qed.

Lemma match_skills_some (fps : list (string * Engine.SkillFingerprint)) (q : list R) :
  is_Some (Engine._match_skills fps q).
Proof.
  unfold Engine._match_skills. destruct fps as [|p fps]; [eauto|].
  destruct (skill_scores_some q (p :: fps)) as [sc ->]. simpl.
  destruct (sorted_desc snd Rltb sc); eauto.
Qed.

End Cosine.

(** C10. [_cosine] never raises: it returns 0 when either norm is zero
    (exactly when a vector has only zero entries) and otherwise divides the
    dot product by the non-zero product of the norms; so the fingerprint
    matcher and the scan of the semantic cache never divide by zero. *)
Theorem cosine_safe (a b : list R) :
  exists r : R,
    Engine._cosine a b = Some r
    /\ ((Engine.norm a <> 0 /\ Engine.norm b <> 0)%R ->
        (Engine.norm a * Engine.norm b <> 0
         /\ r = Engine.dot a b / (Engine.norm a * Engine.norm b))%R)
    /\ ((Engine.norm a = 0 \/ Engine.norm b = 0)%R -> r = 0%R)
    /\ (Engine.norm a = 0%R <-> Forall (fun x => x = 0%R) a)
    /\ (forall fps, is_Some (Engine._match_skills fps a))
    /\ (forall embed_query st it,
          is_Some st -> is_Some (Engine.cache_scan embed_query a st it)).
Proof.
  rewrite cosine_some. eexists; split; [reflexivity|].
  split; [|split; [|split; [|split]]].
  - intros [Ha Hb]. split.
    + intros Hab. apply Rmult_integral in Hab. tauto.
    + repeat case_decide; tauto.
  - intros [H|H]; repeat case_decide; tauto.
  - apply norm_zero.
  - intros fps. apply match_skills_some.
  - intros eq st it [best ->]. unfold Engine.cache_scan. simpl.
    rewrite cosine_some. simpl. destruct (Rltb _ _); eauto.
Qed.

(** ** Skill fingerprint matching *)

Lemma filter_sorted {A} (R : A -> A -> Prop) (P : A -> Prop)
  `{forall x, Decision (P x)} (l : list A) :
  StronglySorted R l -> StronglySorted R (filter P l).
Proof.
  induction 1 as [|x l Hl IH Hx]; [constructor|].
  rewrite filter_cons. destruct (decide (P x)); [|exact IH].
  constructor; [exact IH|].
  rewrite Forall_forall in *. intros y Hy. apply Hx.
  apply list_elem_of_filter in Hy. tauto.
Qed.

(** The similarity [t] is the highest one of [scores]. *)
Definition highest (t : R) (scores : list (string * R)) : Prop :=
  (exists n, In (n, t) scores) /\ forall p, In p scores -> (p.2 <= t)%R.

Lemma skill_scores_In (q : list R) (fps : list (string * Engine.SkillFingerprint))
  (scores : list (string * R)) :
  Engine.skill_scores q fps = Some scores ->
  forall n s,
    In (n, s) scores <->
    exists fp emb, In (n, fp) fps /\ Engine.embedding fp = Some emb
                   /\ emb <> [] /\ Engine._cosine q emb = Some s.
Proof.
  revert scores. induction fps as [|[n0 fp0] fps IH]; simpl; intros scores Hs n s.
  - inversion Hs; subst. simpl. split; [tauto|]. intros (? & ? & [] & _).
  - destruct (Engine.embedding fp0) as [[|x xs]|] eqn:E.
    + rewrite (IH _ Hs). split.
      * intros (fp & emb & Hin & ?). exists fp, emb. tauto.
      * intros (fp & emb & [Heq|Hin] & He & Hne & Hc).
        -- inversion Heq; subst. congruence.
        -- exists fp, emb. tauto.
    + destruct (Engine._cosine q (x :: xs)) as [sim|] eqn:Ec; [|discriminate].
      destruct (Engine.skill_scores q fps) as [rest|] eqn:Er; [|discriminate].
      simpl in Hs. inversion Hs; subst. simpl. rewrite (IH _ eq_refl). split.
      * intros [Heq|(fp & emb & Hin & ?)].
        -- inversion Heq; subst. exists fp0, (x :: xs). repeat split; auto; congruence.
        -- exists fp, emb. tauto.
      * intros (fp & emb & [Heq|Hin] & He & Hne & Hc).
        -- inversion Heq; subst. left. congruence.
        -- right. exists fp, emb. tauto.
    + rewrite (IH _ Hs). split.
      * intros (fp & emb & Hin & ?). exists fp, emb. tauto.
      * intros (fp & emb & [Heq|Hin] & He & Hne & Hc).
        -- inversion Heq; subst. congruence.
        -- exists fp, emb. tauto.
Qed.

(** C8. [_match_skills] scores every fingerprint that has a non-empty
    embedding by its cosine similarity to the query embedding, keeps
    exactly the skills whose similarity is at least 0.6 times the highest
    one, in descending order of similarity, and returns the first 8 names
    at most. *)
Theorem match_skills_spec (fps : list (string * Engine.SkillFingerprint)) (q : list R) :
  exists scores ranked : list (string * R),
    Engine.skill_scores q fps = Some scores
    /\ (forall n s,
          In (n, s) scores <->
          exists fp emb, In (n, fp) fps /\ Engine.embedding fp = Some emb
                         /\ emb <> [] /\ Engine._cosine q emb = Some s)
    /\ Engine._match_skills fps q = Some (map fst (firstn 8 ranked))
    /\ length (map fst (firstn 8 ranked)) <= 8
    /\ StronglySorted (fun x y : string * R => (x.2 >= y.2)%R) ranked
    /\ (forall top, highest top scores ->
          Permutation ranked
            (filter (fun p : string * R => (top * 0.6 <= p.2)%R) scores)).
Proof.
  destruct (skill_scores_some q fps) as [scores Hs].
  pose proof (sorted_desc_R snd scores) as Hsorted.
  pose proof (sorted_desc_perm snd Rltb scores) as Hperm.
  exists scores.
  destruct (sorted_desc snd Rltb scores) as [|t rest] eqn:E.
  - exists []. apply Permutation_nil in Hperm. subst scores.
    split; [exact Hs|]. split; [apply (skill_scores_In _ _ _ Hs)|].
    split.
    { unfold Engine._match_skills. destruct fps; [reflexivity|].
      rewrite Hs. reflexivity. }
    split; [simpl; lia|]. split; [constructor|].
    intros top _. reflexivity.
  - exists (filter (fun p : string * R => Rleb (t.2 * 0.6) p.2) (t :: rest)).
    split; [exact Hs|]. split; [apply (skill_scores_In _ _ _ Hs)|].
    split.
    { unfold Engine._match_skills. destruct fps as [|p fps].
      - simpl in Hs. inversion Hs; subst. discriminate.
      - rewrite Hs. simpl. rewrite E. rewrite <- firstn_map. reflexivity. }
    split; [rewrite length_map, length_firstn; lia|].
    split; [apply filter_sorted, Hsorted|].
    intros top [[n Hn] Hmax].
    assert (top = t.2) as ->.
    { apply Rle_antisym.
      - apply (Permutation_in _ (Permutation_sym Hperm)) in Hn.
        destruct Hn as [Heq|Hn]; [rewrite Heq; simpl; lra|].
        apply StronglySorted_inv in Hsorted as [_ Hall].
        rewrite Forall_forall in Hall.
        apply list_elem_of_In, Hall in Hn. simpl in Hn. lra.
      - apply Hmax. apply (Permutation_in _ Hperm). left. reflexivity. }
    transitivity (filter (fun p : string * R => (t.2 * 0.6 <= p.2)%R) (t :: rest)).
    + match goal with |- ?x ≡ₚ ?y => cut (x = y); [intros ->; reflexivity|] end.
      generalize (t :: rest). intros l.
      induction l as [|p l IH]; [reflexivity|].
      rewrite !filter_cons, IH. unfold Rleb.
      destruct (decide (t.2 * 0.6 <= p.2)%R) as [Hle|Hle].
      * rewrite (bool_decide_eq_true_2 _ Hle). reflexivity.
      * rewrite (bool_decide_eq_false_2 _ Hle). reflexivity.
    + apply filter_Permutation, Hperm.
Qed.

(** ** Ordered dictionaries *)

Section ODFacts.
Context {V : Type}.
Implicit Types (d : list (string * V)) (k x : string) (v : V).

Lemma od_get_set k x v d :
  OD.get k (OD.set x v d) = if String.eqb k x then Some v else OD.get k d.
Proof.
  induction d as [|[k' v'] d IH]; simpl.
  - reflexivity.
  - destruct (String.eqb_spec x k') as [->|Hx]; simpl.
    + destruct (String.eqb_spec k k'); reflexivity.
    + rewrite IH. destruct (String.eqb_spec k k') as [->|Hk]; [|reflexivity].
      destruct (String.eqb_spec k' x) as [->|]; [tauto|reflexivity].
Qed.

Lemma od_keys_set k x v d :
  In k (OD.keys (OD.set x v d)) <-> k = x \/ In k (OD.keys d).
Proof.
  unfold OD.keys. induction d as [|[k' v'] d IH]; simpl.
  - intuition congruence.
  - destruct (String.eqb_spec x k') as [->|Hx]; simpl.
    + intuition congruence.
    + rewrite IH. intuition congruence.
Qed.

Lemma od_set_NoDup x v d : NoDup (OD.keys d) -> NoDup (OD.keys (OD.set x v d)).
Proof.
  unfold OD.keys. induction d as [|[k' v'] d IH]; simpl; intros Hd.
  - repeat constructor. intros H; inversion H.
  - apply NoDup_cons in Hd as [Hk Hd].
    destruct (String.eqb_spec x k') as [->|Hx]; simpl.
    + apply NoDup_cons. split; assumption.
    + apply NoDup_cons. split; [|apply IH, Hd].
      rewrite list_elem_of_In. intros H. apply (od_keys_set k' x v d) in H.
      destruct H as [->|H]; [tauto|]. apply Hk, list_elem_of_In, H.
Qed.

Lemma od_get_None k d : OD.get k d = None <-> ~ In k (OD.keys d).
Proof.
  unfold OD.keys. induction d as [|[k' v'] d IH]; simpl.
  - tauto.
  - destruct (String.eqb_spec k k') as [->|Hk].
    + split; [discriminate|tauto].
    + rewrite IH. intuition congruence.
Qed.

Lemma od_get_In k v d : OD.get k d = Some v -> In (k, v) d.
Proof.
  induction d as [|[k' v'] d IH]; simpl; [discriminate|].
  destruct (String.eqb_spec k k') as [->|Hk].
  - intros [= ->]. left. reflexivity.
  - intros H. right. apply IH, H.
Qed.

Lemma od_In_get k v d : NoDup (OD.keys d) -> In (k, v) d -> OD.get k d = Some v.
Proof.
  unfold OD.keys. induction d as [|[k' v'] d IH]; simpl; intros Hd; [tauto|].
  apply NoDup_cons in Hd as [Hk Hd].
  intros [[= -> ->]|Hin].
  - rewrite String.eqb_refl. reflexivity.
  - destruct (String.eqb_spec k k') as [->|Hne]; [|apply IH; assumption].
    exfalso. apply Hk, list_elem_of_In, in_map_iff. exists (k', v). tauto.
Qed.

Lemma od_pop_In k v x d :
  NoDup (OD.keys d) -> In (k, v) (OD.pop x d) <-> In (k, v) d /\ k <> x.
Proof.
  unfold OD.keys. induction d as [|[k' v'] d IH]; simpl; intros Hd; [tauto|].
  apply NoDup_cons in Hd as [Hk Hd].
  destruct (String.eqb_spec x k') as [->|Hx]; simpl.
  - split.
    + intros Hin. split; [tauto|]. intros ->.
      apply Hk, list_elem_of_In, in_map_iff. exists (k', v). tauto.
    + intros [[[= -> ->]|Hin] Hne]; tauto.
  - rewrite (IH Hd). split.
    + intros [[= -> ->]|[Hin Hne]]; [split; [tauto|congruence] | tauto].
    + intros [[Heq|Hin] Hne]; tauto.
Qed.

Lemma od_pop_NoDup x d : NoDup (OD.keys d) -> NoDup (OD.keys (OD.pop x d)).
Proof.
  unfold OD.keys. induction d as [|[k' v'] d IH]; simpl; intros Hd; [constructor|].
  apply NoDup_cons in Hd as [Hk Hd].
  destruct (String.eqb_spec x k') as [->|Hx]; simpl; [exact Hd|].
  apply NoDup_cons. split; [|apply IH, Hd].
  rewrite list_elem_of_In, in_map_iff. intros ([k0 v0] & Hk0 & Hin). simpl in Hk0. subst k0.
  apply od_pop_In in Hin as [Hin _]; [|exact Hd].
  apply Hk, list_elem_of_In, in_map_iff. exists (k', v0). tauto.
Qed.

(** [dict(pairs)] for pairs drawn from the graph of a function [f]. *)
Lemma od_of_list_get (f : string -> option V) (l : list (string * V)) k :
  (forall p, In p l -> f p.1 = Some p.2) ->
  OD.get k (OD.of_list l) = if decide (k ∈ map fst l) then f k else None.
Proof.
  unfold OD.of_list. intros Hl.
  assert (forall d, OD.get k (fold_left (fun d p => OD.set p.1 p.2 d) l d)
                    = if decide (k ∈ map fst l) then f k else OD.get k d) as H.
  { induction l as [|p l IH]; intros d; simpl.
    - destruct (decide (k ∈ [])) as [Hin|]; [inversion Hin|reflexivity].
    - rewrite IH by (intros; apply Hl; right; assumption).
      destruct (decide (k ∈ map fst l)) as [Hin|Hin].
      + destruct (decide (k ∈ p.1 :: map fst l)) as [|Hn]; [reflexivity|].
        exfalso. apply Hn. right. exact Hin.
      + rewrite od_get_set.
        destruct (String.eqb_spec k p.1) as [->|Hne].
        * destruct (decide (p.1 ∈ p.1 :: map fst l)) as [|Hn]; [|exfalso; apply Hn; left].
          symmetry. apply Hl. left. reflexivity.
        * destruct (decide (k ∈ p.1 :: map fst l)) as [Hk|]; [|reflexivity].
          apply elem_of_cons in Hk as [?|?]; tauto. }
  rewrite H. destruct (decide _); reflexivity.
Qed.

End ODFacts.

(** ** Reciprocal rank fusion *)

(** What the list [ids] contributes to the fused score of [cid]: the term
    [1 / (k + rank + 1)] for each position [rank] (counted from [start]) at
    which [cid] stands; a list without repetitions has at most one. *)
Fixpoint rr_sum (k : nat) (cid : string) (start : nat) (ids : list string) : R :=
  match ids with
  | [] => 0%R
  | x :: ids' =>
      ((if String.eqb cid x then 1 / INR (k + start + 1) else 0)
       + rr_sum k cid (S start) ids')%R
  end.



Lemma rrf_fold (k : nat) (ids : list string) (start : nat) (d : list (string * R)) :
  NoDup (OD.keys d) ->
  let d' := fold_left (fun rrf (it : nat * string) => Engine.rrf_add k rrf it.1 it.2)
                      (combine (seq start (length ids)) ids) d in
  NoDup (OD.keys d')
  /\ (forall cid, In cid (OD.keys d') <-> In cid ids \/ In cid (OD.keys d))
  /\ (forall cid, default 0%R (OD.get cid d')
                  = (default 0%R (OD.get cid d) + rr_sum k cid start ids)%R).
Proof.
  revert start d. induction ids as [|x ids IH]; intros start d Hd; simpl.
  - split; [exact Hd|]. split; [tauto|]. intros cid. lra.
  - destruct (IH (S start) (Engine.rrf_add k d start x)) as (H1 & H2 & H3).
    { apply od_set_NoDup, Hd. }
    split; [exact H1|]. split.
    + intros cid. rewrite H2. unfold Engine.rrf_add. rewrite od_keys_set. simpl. intuition congruence.
    + intros cid. rewrite H3. unfold Engine.rrf_add. rewrite od_get_set.
      destruct (String.eqb_spec cid x) as [->|_]; simpl; lra.
Qed.

Lemma rrf_scores_spec (k : nat) (sem_ids lex_ids : list string) :
  let rrf := Engine.rrf_scores k sem_ids lex_ids in
  NoDup (OD.keys rrf)
  /\ (forall cid, In cid (OD.keys rrf) <-> In cid sem_ids \/ In cid lex_ids)
  /\ (forall cid v, In (cid, v) rrf ->
        v = (rr_sum k cid 0 sem_ids + rr_sum k cid 0 lex_ids)%R).
Proof.
  unfold Engine.rrf_scores, Py.enumerate.
  destruct (rrf_fold k sem_ids 0 []) as (A1 & A2 & A3); [constructor|].
  destruct (rrf_fold k lex_ids 0 _ A1) as (B1 & B2 & B3).
  split; [exact B1|]. split.
  - intros cid. rewrite B2, A2. simpl. tauto.
  - intros cid v Hin. apply (od_In_get _ _ _ B1) in Hin.
    specialize (B3 cid). rewrite Hin, A3 in B3. simpl in B3. lra.
Qed.

Lemma collection_get_lookup (c : Engine.Collection) (ids : list string) (cid : string) :
  In cid ids ->
  OD.get cid (OD.of_list (Engine.collection_get c ids)) = c !! cid.
Proof.
  intros Hin. rewrite (od_of_list_get (fun x => c !! x)).
  - destruct (decide _) as [|Hn]; [reflexivity|].
    destruct (c !! cid) as [e|] eqn:E; [|reflexivity].
    exfalso. apply Hn. apply list_elem_of_In, in_map_iff. exists (cid, e).
    split; [reflexivity|]. apply list_elem_of_In. unfold Engine.collection_get.
    apply list_elem_of_omap. exists cid. split; [apply list_elem_of_In, Hin|].
    rewrite E. reflexivity.
  - intros [x e] Hp. apply list_elem_of_In in Hp. unfold Engine.collection_get in Hp.
    apply list_elem_of_omap in Hp as (y & _ & Hy).
    destruct (c !! y) as [e'|] eqn:E; simpl in Hy; [|discriminate].
    inversion Hy; subst. exact E.
Qed.

Lemma omap_sorted {A B} (RA : A -> A -> Prop) (RB : B -> B -> Prop)
  (g : A -> option B) (l : list A) :
  (forall a a' b b', RA a a' -> g a = Some b -> g a' = Some b' -> RB b b') ->
  StronglySorted RA l -> StronglySorted RB (omap g l).
Proof.
  intros Hg. induction 1 as [|a l Hl IH Ha]; simpl; [constructor|].
  destruct (g a) as [b|] eqn:E; [|exact IH].
  constructor; [exact IH|].
  rewrite Forall_forall in Ha. rewrite Forall_forall. intros b' Hb'.
  apply list_elem_of_omap in Hb' as (a' & Ha' & Hga').
  eapply Hg; [apply Ha, Ha' | exact E | exact Hga'].
Qed.

Lemma omap_filter_fst {B C} (f : string -> option C) (h : string -> R -> C -> B)
  (proj : B -> string) (l : list (string * R)) :
  (forall x v e, proj (h x v e) = x) ->
  map proj (omap (fun it : string * R => e ← f it.1; Some (h it.1 it.2 e)) l)
  = filter (fun x => is_Some (f x)) (map fst l).
Proof.
  intros Hp. induction l as [|[x v] l IH]; [reflexivity|].
  cbn [omap list_omap map fst snd]. rewrite filter_cons.
  fold (omap (fun it : string * R => e ← f it.1; Some (h it.1 it.2 e)) l).
  destruct (f x) as [e|] eqn:E; cbn [mbind option_bind map].
  - destruct (decide (is_Some (Some e))) as [|Hn]; [|exfalso; apply Hn; eauto].
    rewrite Hp, IH. reflexivity.
  - destruct (decide (is_Some None)) as [[? ?]|]; [discriminate|]. exact IH.
Qed.

Lemma omap_ext_in {A B} (f g : A -> option B) (l : list A) :
  (forall a, In a l -> f a = g a) -> omap f l = omap g l.
Proof.
  induction l as [|a l IH]; intros H; [reflexivity|].
  cbn [omap list_omap]. rewrite (H a) by (left; reflexivity).
  destruct (g a); [f_equal|]; apply IH; intros; apply H; right; assumption.
Qed.

(** [_rrf_fuse] with a collection at hand: the sorted fused ids looked up in
    the collection. *)
Lemma rrf_fuse_unfold (c : Engine.Collection) (sem : list (string * R * nat))
  (bm25 : list (string * R)) (k : nat) :
  exists sem_map bm25_rank_map,
    Engine._rrf_fuse (Some c) sem bm25 k =
      omap (fun it : string * R =>
              e ← c !! it.1;
              Some (Engine.fused_result sem_map bm25_rank_map it.1 it.2 e))
           (sorted_desc snd Rltb
              (Engine.rrf_scores k (map (fun x : string * R * nat => x.1.1) sem)
                 (map fst (sorted_desc snd Rltb bm25)))).
Proof.
  unfold Engine._rrf_fuse.
  set (rrf := Engine.rrf_scores _ _ _).
  eexists _, _.
  destruct rrf as [|p rrf'] eqn:E; [reflexivity|]. rewrite <- E.
  apply omap_ext_in. intros [x v] Hin. simpl.
  rewrite collection_get_lookup; [reflexivity|].
  apply (proj1 (sorted_desc_In snd Rltb _ _)) in Hin.
  unfold OD.keys. apply in_map_iff. exists (x, v). tauto.
Qed.


(** ** BM25 *)

(** The number of documents that contain the token [t]. *)
Definition doc_freq (docs : list (list string)) (t : string) : nat :=
  length (filter (fun d : list string => t ∈ d) docs).

(** The number of tokens of the corpus. *)
Definition total_len (docs : list (list string)) : nat :=
  fold_right (fun d n => (length d + n)%nat) 0%nat docs.

(** The BM25 term of one query token for a document of length [dl] that
    holds the token [tf] times, in a corpus of [n] documents of which [df]
    hold the token, with average length [avgdl]; [k1 = 1.5], [b = 0.75]. *)
Definition bm25_term (n df tf dl : nat) (avgdl : R) : R :=
  (ln ((INR n - INR df + 0.5) / (INR df + 0.5) + 1) * (INR tf * (1.5 + 1))
   / (INR tf + 1.5 * (1 - 0.75 + 0.75 * INR dl / avgdl)))%R.

(** The BM25 score of the document [d] for the query tokens: one term for
    each query token (with repetition) that occurs in [d]. *)
Fixpoint bm25_sum (docs : list (list string)) (q_tokens d : list string) : R :=
  match q_tokens with
  | [] => 0%R
  | qt :: q' =>
      ((if decide (qt ∈ d)
        then bm25_term (length docs) (doc_freq docs qt) (count_occ string_dec d qt)
                       (length d) (INR (total_len docs) / INR (length docs))
        else 0)
       + bm25_sum docs q' d)%R
  end.

Lemma incr_lookup (m : gmap string nat) (x t : string) :
  BM25.incr m x !! t
  = if decide (x = t) then Some (S (default 0%nat (m !! t))) else m !! t.
Proof.
  unfold BM25.incr. destruct (decide (x = t)) as [->|Hne].
  - rewrite lookup_insert_eq. reflexivity.
  - rewrite lookup_insert_ne by exact Hne. reflexivity.
Qed.

(** The term frequencies of a document, as [score] builds them. *)
Lemma tf_map_lookup (tokens : list string) (t : string) :
  fold_left BM25.incr tokens ∅ !! t
  = if decide (t ∈ tokens) then Some (count_occ string_dec tokens t) else None.
Proof.
  assert (forall m : gmap string nat,
            fold_left BM25.incr tokens m !! t
            = if decide (t ∈ tokens)
              then Some (default 0 (m !! t) + count_occ string_dec tokens t)%nat
              else m !! t) as H.
  { induction tokens as [|x tokens IH]; intros m.
    - destruct (decide (t ∈ [])) as [Hin|]; [inversion Hin|reflexivity].
    - cbn [fold_left count_occ]. rewrite IH, incr_lookup.
      destruct (string_dec x t) as [->|Hne].
      + destruct (decide (t = t)); [|tauto].
        destruct (decide (t ∈ t :: tokens)) as [_|Hn]; [|exfalso; apply Hn; left].
        destruct (decide (t ∈ tokens)) as [_|Hn].
        * simpl. f_equal. lia.
        * f_equal. rewrite (proj1 (count_occ_not_In string_dec tokens t)).
          -- lia.
          -- rewrite <- list_elem_of_In. exact Hn.
      + destruct (decide (x = t)); [tauto|].
        destruct (decide (t ∈ tokens)) as [Hin|Hn].
        * destruct (decide (t ∈ x :: tokens)) as [_|Hn']; [reflexivity|].
          exfalso. apply Hn'. right. exact Hin.
        * destruct (decide (t ∈ x :: tokens)) as [Hin'|_]; [|reflexivity].
          apply elem_of_cons in Hin' as [?|?]; [congruence|tauto]. }
  rewrite H. rewrite lookup_empty. reflexivity.
Qed.

Lemma count_occ_pos (tokens : list string) (t : string) :
  t ∈ tokens -> (1 <= count_occ string_dec tokens t)%nat.
Proof.
  intros Hin. apply list_elem_of_In in Hin.
  apply (count_occ_In string_dec) in Hin. lia.
Qed.

(** One document's contribution to the document frequencies. *)
Lemma df_step_lookup (m : gmap string nat) (tokens : list string) (t : string) :
  default 0%nat
    (set_fold (fun t m => BM25.incr m t) m (list_to_set tokens : gset string) !! t)
  = (default 0 (m !! t) + if decide (t ∈ tokens) then 1 else 0)%nat.
Proof.
  assert (forall X : gset string,
            default 0%nat (set_fold (fun t m => BM25.incr m t) m X !! t)
            = (default 0 (m !! t) + if decide (t ∈ X) then 1 else 0)%nat) as H.
  { apply (set_fold_ind_L
             (fun (r : gmap string nat) (X : gset string) =>
                default 0%nat (r !! t)
                = (default 0 (m !! t) + if decide (t ∈ X) then 1 else 0)%nat)).
    - destruct (decide (t ∈ (∅ : gset string))) as [Hin|]; [set_solver|lia].
    - intros x X r Hx IH. rewrite incr_lookup.
      destruct (decide (x = t)) as [->|Hne].
      + simpl. rewrite IH.
        destruct (decide (t ∈ X)); [tauto|].
        destruct (decide (t ∈ {[t]} ∪ X)) as [_|Hn]; [lia|set_solver].
      + rewrite IH. destruct (decide (t ∈ X)) as [Hin|Hn].
        * destruct (decide (t ∈ {[x]} ∪ X)) as [_|Hn']; [reflexivity|].
          exfalso. apply Hn', elem_of_union. right. exact Hin.
        * destruct (decide (t ∈ {[x]} ∪ X)) as [Hin|_]; [|reflexivity].
          apply elem_of_union in Hin as [Hin|Hin]; [|tauto].
          apply elem_of_singleton in Hin. congruence. }
  rewrite H.
  destruct (decide (t ∈ (list_to_set tokens : gset string))) as [Hin|Hn];
    destruct (decide (t ∈ tokens)) as [Hin'|Hn']; try reflexivity; set_solver.
Qed.

Lemma fit_loop (toks : list (list string)) (st : nat * gmap string nat) (t : string) :
  let st' := fold_left BM25.fit_step toks st in
  st'.1 = (st.1 + total_len toks)%nat
  /\ default 0%nat (st'.2 !! t) = (default 0 (st.2 !! t) + doc_freq toks t)%nat.
Proof.
  revert st. induction toks as [|d toks IH]; intros st; simpl.
  - split; [lia|]. unfold doc_freq. simpl. lia.
  - destruct (IH (BM25.fit_step st d)) as [H1 H2]. split.
    + rewrite H1. simpl. lia.
    + rewrite H2. simpl. rewrite df_step_lookup. unfold doc_freq.
      rewrite filter_cons. destruct (decide (t ∈ d)); simpl; lia.
Qed.

Lemma od_set_In_inv {V} (k x : string) (v s : V) (d : list (string * V)) :
  In (k, v) (OD.set x s d) -> (k, v) = (x, s) \/ In (k, v) d.
Proof.
  induction d as [|[k' v'] d IH]; simpl.
  - intros [H|[]]. left. symmetry. exact H.
  - destruct (String.eqb x k'); simpl.
    + intros [H|H]; [left; symmetry; exact H | right; right; exact H].
    + intros [H|H]; [right; left; exact H|].
      destruct (IH H) as [?|?]; [left | right; right]; assumption.
Qed.

Section Fitted.
Variables docs ids : list string.
Let toks := map BM25._tokenize docs.
Let self := BM25.fit BM25.init docs ids.

Lemma fit_N : BM25._N self = length toks.
Proof. subst toks. rewrite length_map. reflexivity. Qed.

Lemma fit_df (t : string) :
  default 0%nat (BM25._df self !! t) = doc_freq toks t.
Proof.
  unfold self, BM25.fit. simpl.
  destruct (fit_loop toks (0%nat, ∅) t) as [_ H].
  fold toks. rewrite H. simpl. rewrite lookup_empty. reflexivity.
Qed.

Lemma fit_avgdl :
  BM25._avgdl self
  = if (length toks =? 0)%nat then 1%R
    else (INR (total_len toks) / INR (length toks))%R.
Proof.
  unfold self, BM25.fit. simpl.
  destruct (fit_loop toks (0%nat, ∅) EmptyString) as [H _].
  fold toks. rewrite H. simpl. subst toks. rewrite length_map. reflexivity.
Qed.

Lemma total_len_In (d : list string) (l : list (list string)) :
  In d l -> (length d <= total_len l)%nat.
Proof.
  induction l as [|x l IH]; simpl; [tauto|].
  intros [->|Hin]; [lia|]. apply IH in Hin. lia.
Qed.

(** The average length is positive as soon as some document has a token. *)
Lemma avgdl_pos (d : list string) (t : string) :
  In d toks -> t ∈ d -> (0 < BM25._avgdl self)%R.
Proof.
  intros Hd Ht. rewrite fit_avgdl.
  assert (1 <= length d)%nat as Hl.
  { destruct d; [inversion Ht|simpl; lia]. }
  pose proof (total_len_In d toks Hd) as Htot.
  assert (1 <= length toks)%nat as Hn.
  { destruct toks; [inversion Hd|simpl; lia]. }
  destruct (Nat.eqb_spec (length toks) 0) as [Hz|_]; [lia|].
  apply Rdiv_lt_0_compat; apply lt_0_INR; lia.
Qed.

Lemma fit_k1_b : BM25.k1 self = 1.5%R /\ BM25.b self = 0.75%R.
Proof. split; reflexivity. Qed.

Lemma term_step_unfold (tf_map : gmap string nat) (dl : nat) (s : R) (qt : string) :
  BM25.term_step self tf_map dl (Some s) qt
  = match tf_map !! qt with
    | None => Some s
    | Some tf =>
        x ← fdiv (BM25.b self * INR dl) (BM25._avgdl self);
        y ← fdiv (BM25.idf self qt * (INR tf * (BM25.k1 self + 1)))
                 (INR tf + BM25.k1 self * (1 - BM25.b self + x));
        Some (s + y)%R
    end.
Proof. reflexivity. Qed.

Lemma doc_score_spec (q d : list string) :
  In d toks -> BM25.doc_score self q d = Some (bm25_sum toks q d).
Proof.
  intros Hd. unfold BM25.doc_score.
  assert (forall acc,
            fold_left (BM25.term_step self (fold_left BM25.incr d ∅) (length d))
                      q (Some acc)
            = Some (acc + bm25_sum toks q d)%R) as H.
  { induction q as [|qt q IH]; intros acc; cbn [fold_left bm25_sum].
    - f_equal. lra.
    - rewrite term_step_unfold, tf_map_lookup.
      destruct (decide (qt ∈ d)) as [Hin|Hn].
      + pose proof (avgdl_pos d qt Hd Hin) as Hpos.
        pose proof (count_occ_pos d qt Hin) as Htf.
        apply le_INR in Htf. change (INR 1) with 1%R in Htf.
        pose proof (pos_INR (length d)) as Hdl.
        destruct fit_k1_b as [-> ->].
        unfold fdiv.
        destruct (decide (BM25._avgdl self = 0%R)) as [Hz|_]; [lra|].
        cbn [mbind option_bind].
        assert (0 <= 0.75 * INR (length d) / BM25._avgdl self)%R as Hx.
        { apply Rmult_le_pos; [lra|]. apply Rlt_le, Rinv_0_lt_compat, Hpos. }
        destruct (decide _) as [Hz|_]; [lra|].
        cbn [mbind option_bind]. rewrite IH. f_equal.
        unfold bm25_term, BM25.idf.
        rewrite fit_df, fit_N.
        assert (BM25._avgdl self = INR (total_len toks) / INR (length toks))%R as <-.
        { rewrite fit_avgdl.
          destruct (Nat.eqb_spec (length toks) 0) as [Hz|_]; [|reflexivity].
          destruct toks; [inversion Hd|discriminate]. }
        lra.
      + rewrite IH. f_equal. lra. }
  rewrite H. f_equal. lra.
Qed.

(** The pair [(cid, s)] is the id and the positive BM25 score of some
    document of the corpus. *)
Definition scored (q : list string) (cid : string) (s : R) : Prop :=
  (0 < s)%R
  /\ exists i text, ids !! i = Some cid /\ docs !! i = Some text
                    /\ s = bm25_sum toks q (BM25._tokenize text).

Lemma toks_lookup (i : nat) (d : list string) :
  toks !! i = Some d -> exists text, docs !! i = Some text /\ d = BM25._tokenize text.
Proof.
  subst toks. change (map BM25._tokenize docs) with (BM25._tokenize <$> docs).
  rewrite list_lookup_fmap. destruct (docs !! i) as [text|]; [|discriminate].
  intros [= <-]. eauto.
Qed.

Lemma score_loop (q : list string) (its : list (nat * list string))
  (scores : list (string * R)) :
  length ids = length docs ->
  (forall it, In it its -> toks !! it.1 = Some it.2) ->
  (forall cid s, In (cid, s) scores -> scored q cid s) ->
  exists scores',
    fold_left (BM25.score_step self q) its (Some scores) = Some scores'
    /\ (forall cid s, In (cid, s) scores' -> scored q cid s)
    /\ (q = [] -> scores = [] -> scores' = []).
Proof.
  intros Hlen. revert scores. induction its as [|[i d] its IH]; intros scores Hits Hsc.
  - exists scores. cbn [fold_left]. auto.
  - cbn [fold_left].
    assert (toks !! i = Some d) as Hid by (apply (Hits (i, d)); left; reflexivity).
    assert (In d toks) as Hd by (eapply list_elem_of_In, list_elem_of_lookup_2, Hid).
    assert (BM25.score_step self q (Some scores) (i, d)
            = if Rltb 0 (bm25_sum toks q d)
              then (cid ← ids !! i; Some (OD.set cid (bm25_sum toks q d) scores))
              else Some scores) as ->.
    { unfold BM25.score_step. cbn [mbind option_bind snd fst].
      rewrite (doc_score_spec q d Hd). reflexivity. }
    destruct (Rltb 0 (bm25_sum toks q d)) eqn:Epos.
    + assert (is_Some (ids !! i)) as [cid Hcid].
      { apply lookup_lt_is_Some. rewrite Hlen.
        apply lookup_lt_Some in Hid. unfold toks in Hid. rewrite length_map in Hid. exact Hid. }
      rewrite Hcid. cbn [mbind option_bind].
      destruct (IH (OD.set cid (bm25_sum toks q d) scores)) as (scores' & H1 & H2 & H3).
      * intros it Hit. apply Hits. right. exact Hit.
      * intros c s Hin. apply od_set_In_inv in Hin as [[= -> ->]|Hin]; [|apply Hsc, Hin].
        split; [apply bool_decide_eq_true in Epos; exact Epos|].
        destruct (toks_lookup i d Hid) as (text & Ht & ->). eauto.
      * exists scores'. split; [exact H1|]. split; [exact H2|].
        intros -> _. simpl in Epos. unfold Rltb in Epos.
        apply bool_decide_eq_true in Epos. lra.
    + destruct (IH scores) as (scores' & H1 & H2 & H3).
      * intros it Hit. apply Hits. right. exact Hit.
      * exact Hsc.
      * exists scores'. auto.
Qed.

End Fitted.

Lemma enumerate_lookup {A} (l : list A) (i : nat) (x : A) :
  In (i, x) (Py.enumerate l) -> l !! i = Some x.
Proof.
  unfold Py.enumerate.
  assert (forall start, In (i, x) (combine (seq start (length l)) l) ->
                        exists j, i = (start + j)%nat /\ l !! j = Some x) as H.
  { induction l as [|y l IH]; intros start; simpl; [tauto|].
    intros [[= <- <-]|Hin].
    - exists 0%nat. split; [lia|reflexivity].
    - destruct (IH _ Hin) as (j & -> & Hj). exists (S j). split; [lia|exact Hj]. }
  intros Hin. destruct (H 0%nat Hin) as (j & -> & Hj). exact Hj.
Qed.

(** C6. On a corpus fitted with as many ids as documents, [score] returns
    (it raises neither [IndexError] nor [ZeroDivisionError]); for a
    non-negative [top_k] it returns at most [top_k] pairs; every pair is the
    id of a document with that document's score, which is positive and is
    the sum of the BM25 terms of the query tokens found in the document,
    with the inverse document frequency
    [ln ((N - df + 0.5) / (df + 0.5) + 1)]; the pairs are in non-increasing
    order of score; a query without word tokens gives the empty list. *)
Theorem bm25_score_spec (docs ids : list string) (q : string) (top_k : Z) :
  length ids = length docs ->
  exists res : list (string * R),
    BM25.score (BM25.fit BM25.init docs ids) q top_k = Some res
    /\ ((0 <= top_k)%Z -> (Z.of_nat (length res) <= top_k)%Z)
    /\ (forall cid s, In (cid, s) res ->
          (0 < s)%R
          /\ exists i text,
               ids !! i = Some cid /\ docs !! i = Some text
               /\ s = bm25_sum (map BM25._tokenize docs) (BM25._tokenize q)
                               (BM25._tokenize text))
    /\ StronglySorted (fun x y : string * R => (x.2 >= y.2)%R) res
    /\ (BM25._tokenize q = [] -> res = []).
Proof.
  intros Hlen. unfold BM25.score.
  destruct (score_loop docs ids (BM25._tokenize q)
              (Py.enumerate (BM25._docs (BM25.fit BM25.init docs ids))) [] Hlen)
    as (scores & Hfold & Hsc & Hempty).
  { intros [i d] Hin. apply enumerate_lookup in Hin. exact Hin. }
  { intros cid s []. }
  unfold Py.enumerate in Hfold. rewrite Hfold. cbn [mbind option_bind].
  eexists. split; [reflexivity|].
  split; [intros Hk; apply slice_to_length, Hk|].
  split.
  { intros cid s Hin. apply slice_to_In in Hin.
    apply (proj1 (sorted_desc_In snd Rltb _ _)) in Hin. apply Hsc, Hin. }
  split; [apply slice_to_StronglySorted, sorted_desc_R|].
  intros Hq. rewrite (Hempty Hq eq_refl). simpl.
  destruct (slice_to_prefix top_k (@nil (string * R))) as [n ->].
  destruct n; reflexivity.
Qed.

Lemma bm25_score_witness :
  exists res : list (string * R),
    BM25.score (BM25.fit BM25.init ["actors avoid data races"; "use async let"]
                         ["c1"; "c2"])
               "data races in actors" 5 = Some res
    /\ (Z.of_nat (length res) <= 5)%Z
    /\ StronglySorted (fun x y : string * R => (x.2 >= y.2)%R) res.
Proof.
  destruct (bm25_score_spec ["actors avoid data races"; "use async let"]
                            ["c1"; "c2"] "data races in actors" 5 eq_refl)
    as (res & H1 & H2 & _ & H3 & _).
  exists res. split; [exact H1|]. split; [apply H2; lia | exact H3].
Defined.

(** ** Concept graph expansion *)

Lemma Qltb_true (a b : Q) : ConceptGraph.Qltb a b = true -> (a <= b)%Q.
Proof.
  unfold ConceptGraph.Qltb. intros H. apply negb_true_iff in H.
  destruct (Qlt_le_dec a b) as [Hlt|Hle]; [apply Qlt_le_weak, Hlt|].
  apply Qle_bool_iff in Hle. congruence.
Qed.

Lemma Qltb_false (a b : Q) : ConceptGraph.Qltb a b = false -> (b <= a)%Q.
Proof.
  unfold ConceptGraph.Qltb. intros H. apply negb_false_iff in H.
  apply Qle_bool_iff, H.
Qed.

(** Sorting weights in descending order gives a non-increasing list. *)
Lemma sorted_desc_Q {A} (key : A -> Q) (l : list A) :
  StronglySorted (fun x y => (key y <= key x)%Q) (sorted_desc key ConceptGraph.Qltb l).
Proof.
  apply (sorted_desc_sorted key ConceptGraph.Qltb (fun a b => (b <= a)%Q)).
  - intros a b c Hab Hbc. eapply Qle_trans; eassumption.
  - apply Qltb_true.
  - apply Qltb_false.
Qed.

(** The loop [for token in ...: candidates.pop(token, None)]. *)
Lemma pop_all_In {V} (ts : list string) (d : list (string * V)) (k : string) (v : V) :
  NoDup (OD.keys d) ->
  In (k, v) (fold_left (fun c t => OD.pop t c) ts d) -> In (k, v) d /\ ~ In k ts.
Proof.
  revert d. induction ts as [|t ts IH]; simpl; intros d Hd Hin; [tauto|].
  apply IH in Hin as [Hin Hts]; [|apply od_pop_NoDup, Hd].
  apply od_pop_In in Hin as [Hin Hne]; [|exact Hd].
  split; [exact Hin|]. intros [->|H]; tauto.
Qed.

Lemma od_set_In_strong {V} (k x : string) (v s : V) (d : list (string * V)) :
  NoDup (OD.keys d) -> In (k, v) (OD.set x s d) ->
  (k = x /\ v = s) \/ (k <> x /\ In (k, v) d).
Proof.
  intros Hd Hin. apply od_In_get in Hin; [|apply od_set_NoDup, Hd].
  rewrite od_get_set in Hin. destruct (String.eqb_spec k x) as [->|Hne].
  - left. inversion Hin. tauto.
  - right. split; [exact Hne|apply od_get_In, Hin].
Qed.

Section Collect.
Variable g : ConceptGraph.t.

Definition edges_of (concept : string) : list (string * Q) :=
  default [] (ConceptGraph.edges g !! concept).

(** [_collect_neighbors] only writes dictionary entries. *)
Lemma collect_NoDup (depth : nat) (concept : string) (min_weight : Q)
  (st : list (string * Q) * gset string) :
  NoDup (OD.keys st.1) ->
  NoDup (OD.keys (ConceptGraph._collect_neighbors g depth concept min_weight st).1).
Proof.
  revert concept min_weight st.
  induction depth as [|d IH]; intros concept min_weight st Hst; [exact Hst|].
  cbn [ConceptGraph._collect_neighbors].
  destruct (decide (concept ∈ st.2)); [exact Hst|].
  generalize (default [] (ConceptGraph.edges g !! concept)).
  assert (NoDup (OD.keys (st.1, {[concept]} ∪ st.2).1)) as Hst' by exact Hst.
  revert Hst'. generalize (st.1, {[concept]} ∪ st.2). clear Hst.
  intros st0 Hst0 es. revert st0 Hst0.
  induction es as [|e es IHes]; intros st0 Hst0; [exact Hst0|].
  cbn [fold_left]. apply IHes.
  destruct (Qle_bool min_weight e.2); [|exact Hst0].
  destruct d as [|d'].
  - apply od_set_NoDup, Hst0.
  - apply IH. apply od_set_NoDup, Hst0.
Qed.

(** One edge of a seed at depth 1, on the candidates alone. *)
Definition record_edge (min_weight : Q) (c : list (string * Q)) (e : string * Q)
  : list (string * Q) :=
  if Qle_bool min_weight e.2
  then OD.set e.1 (ConceptGraph.qmax (default 0%Q (OD.get e.1 c)) e.2) c
  else c.

Lemma collect_depth1 (seed : string) (min_weight : Q) (c : list (string * Q)) :
  (ConceptGraph._collect_neighbors g 1 seed min_weight (c, ∅)).1
  = fold_left (record_edge min_weight) (edges_of seed) c.
Proof.
  cbn [ConceptGraph._collect_neighbors fst snd].
  destruct (decide (seed ∈ (∅ : gset string))) as [Hin|_]; [set_solver|].
  unfold edges_of. generalize (default [] (ConceptGraph.edges g !! seed)).
  generalize ({[seed]} ∪ (∅ : gset string)). intros vis es. revert c.
  induction es as [|e es IH]; intros c; [reflexivity|].
  cbn [fold_left]. unfold record_edge at 2.
  destruct (Qle_bool min_weight e.2); apply IH.
Qed.

(** The candidates hold, for each concept reached through the edges [L]
    recorded so far, the largest weight among those edges. *)
Definition records (d L : list (string * Q)) : Prop :=
  NoDup (OD.keys d)
  /\ (forall n w', In (n, w') L -> In n (OD.keys d))
  /\ (forall n w, In (n, w) d ->
        (exists w', In (n, w') L /\ (w == w')%Q)
        /\ forall w', In (n, w') L -> (w' <= w)%Q).

Lemma qmax_cases (a b : Q) :
  (ConceptGraph.qmax a b = a /\ (b <= a)%Q) \/ (ConceptGraph.qmax a b = b /\ (a <= b)%Q).
Proof.
  unfold ConceptGraph.qmax. destruct (ConceptGraph.Qltb a b) eqn:E.
  - right. split; [reflexivity|apply Qltb_true, E].
  - left. split; [reflexivity|apply Qltb_false, E].
Qed.

Lemma records_edge (min_weight : Q) (d L : list (string * Q)) (e : string * Q) :
  (0 <= min_weight)%Q -> records d L ->
  records (record_edge min_weight d e)
          (L ++ if Qle_bool min_weight e.2 then [e] else []).
Proof.
  intros Hmw (Hnd & Hdom & Hmax). unfold record_edge.
  destruct (Qle_bool min_weight e.2) eqn:Eq.
  2:{ rewrite app_nil_r. exact (conj Hnd (conj Hdom Hmax)). }
  apply Qle_bool_iff in Eq. destruct e as [n0 w0]. cbn [fst snd] in *.
  assert (0 <= w0)%Q as Hw0 by (eapply Qle_trans; eassumption).
  split; [apply od_set_NoDup, Hnd|]. split.
  - intros n w' Hin. apply od_keys_set. apply in_app_or in Hin as [Hin|[[= -> ->]|[]]].
    + right. eapply Hdom, Hin.
    + left. reflexivity.
  - intros n w Hin. apply (od_set_In_strong _ _ _ _ _ Hnd) in Hin as [[-> ->]|[Hne Hin]].
    + destruct (OD.get n0 d) as [cur|] eqn:Eg; cbn [from_option Datatypes.id].
      * apply od_get_In in Eg. destruct (Hmax _ _ Eg) as [(w' & Hw' & Heq) Hle].
        destruct (qmax_cases cur w0) as [[-> Hc]|[-> Hc]].
        -- split.
           ++ exists w'. split; [apply in_or_app; left; exact Hw' | exact Heq].
           ++ intros w2 Hin2. apply in_app_or in Hin2 as [Hin2|[[= <-]|[]]];
                [apply Hle, Hin2 | exact Hc].
        -- split.
           ++ exists w0. split; [apply in_or_app; right; left; reflexivity | reflexivity].
           ++ intros w2 Hin2. apply in_app_or in Hin2 as [Hin2|[[= <-]|[]]];
                [|apply Qle_refl].
              eapply Qle_trans; [apply Hle, Hin2 | exact Hc].
      * apply od_get_None in Eg.
        assert (forall w2, ~ In (n0, w2) L) as Hfresh.
        { intros w2 Hin2. apply Eg. eapply Hdom, Hin2. }
        destruct (qmax_cases 0%Q w0) as [[-> Hc]|[-> Hc]].
        -- split.
           ++ exists w0. split; [apply in_or_app; right; left; reflexivity|].
              apply Qle_antisym; assumption.
           ++ intros w2 Hin2. apply in_app_or in Hin2 as [Hin2|[[= <-]|[]]];
                [exfalso; eapply Hfresh, Hin2 | exact Hc].
        -- split.
           ++ exists w0. split; [apply in_or_app; right; left; reflexivity | reflexivity].
           ++ intros w2 Hin2. apply in_app_or in Hin2 as [Hin2|[[= <-]|[]]];
                [exfalso; eapply Hfresh, Hin2 | apply Qle_refl].
    + destruct (Hmax _ _ Hin) as [(w' & Hw' & Heq) Hle]. split.
      * exists w'. split; [apply in_or_app; left; exact Hw' | exact Heq].
      * intros w2 Hin2. apply in_app_or in Hin2 as [Hin2|[[= -> _]|[]]];
          [apply Hle, Hin2 | congruence].
Qed.

(** The qualifying edges among [es]. *)
Definition qualifying (min_weight : Q) (es : list (string * Q)) : list (string * Q) :=
  flat_map (fun e : string * Q => if Qle_bool min_weight e.2 then [e] else []) es.

Lemma records_edges (min_weight : Q) (es d L : list (string * Q)) :
  (0 <= min_weight)%Q -> records d L ->
  records (fold_left (record_edge min_weight) es d) (L ++ qualifying min_weight es).
Proof.
  intros Hmw. revert d L. induction es as [|e es IH]; intros d L Hr.
  - simpl. rewrite app_nil_r. exact Hr.
  - cbn [fold_left qualifying flat_map]. rewrite app_assoc.
    apply IH, records_edge; assumption.
Qed.

Lemma records_seeds (min_weight : Q) (seeds : list string) (d L : list (string * Q)) :
  (0 <= min_weight)%Q -> records d L ->
  records
    (fold_left
       (fun c token => (ConceptGraph._collect_neighbors g 1 token min_weight (c, ∅)).1)
       seeds d)
    (L ++ flat_map (fun s => qualifying min_weight (edges_of s)) seeds).
Proof.
  intros Hmw. revert d L. induction seeds as [|s seeds IH]; intros d L Hr.
  - simpl. rewrite app_nil_r. exact Hr.
  - cbn [fold_left flat_map]. rewrite app_assoc, collect_depth1.
    apply IH, records_edges; assumption.
Qed.

Lemma candidates_NoDup (depth : nat) (min_weight : Q) (seeds : list string)
  (d : list (string * Q)) :
  NoDup (OD.keys d) ->
  NoDup (OD.keys
           (fold_left
              (fun c token =>
                 (ConceptGraph._collect_neighbors g depth token min_weight (c, ∅)).1)
              seeds d)).
Proof.
  revert d. induction seeds as [|s seeds IH]; intros d Hd; [exact Hd|].
  cbn [fold_left]. apply IH. apply (collect_NoDup depth s min_weight (d, ∅)), Hd.
Qed.

Lemma qualifying_In (min_weight : Q) (es : list (string * Q)) (e : string * Q) :
  In e (qualifying min_weight es) <-> In e es /\ (min_weight <= e.2)%Q.
Proof.
  unfold qualifying. rewrite in_flat_map. split.
  - intros (e' & Hin & He). destruct (Qle_bool min_weight e'.2) eqn:Eq;
      [|destruct He].
    destruct He as [<-|[]]. split; [exact Hin|apply Qle_bool_iff, Eq].
  - intros [Hin Hle]. exists e. split; [exact Hin|].
    apply Qle_bool_iff in Hle. rewrite Hle. left. reflexivity.
Qed.

End Collect.

Lemma seeds_elements (g : ConceptGraph.t) (tokens : list string) (s : string) :
  In s (elements (set_map (ConceptGraph.resolve g) (list_to_set tokens : gset string)
                    : gset string))
  <-> In s (map (ConceptGraph.resolve g) tokens).
Proof.
  rewrite <- list_elem_of_In, elem_of_elements, elem_of_map, in_map_iff.
  split.
  - intros (t & -> & Ht). exists t. split; [reflexivity|].
    apply list_elem_of_In. set_solver.
  - intros (t & <- & Ht). exists t. split; [reflexivity|].
    apply list_elem_of_In in Ht. set_solver.
Qed.

(** C7. [expand] returns at most [max_expansions] terms (for a
    non-negative [max_expansions]); no term is a token of the query or an
    alias-resolved seed; the terms are in non-increasing order of recorded
    weight; and at depth 1 (the default, with a threshold that is not
    negative) the recorded weight of a term is the largest weight of a
    qualifying edge from a seed to it. *)
Theorem expand_spec (g : ConceptGraph.t) (query : string) (max_expansions : Z)
  (min_weight : Q) (depth : Z) :
  let tokens := ConceptGraph.sigil_tokens (Py.lower query) in
  let seeds := map (ConceptGraph.resolve g) tokens in
  let ranked := ConceptGraph.expand_ranked g query max_expansions min_weight depth in
  let terms := ConceptGraph.expand g query max_expansions min_weight depth in
  terms = map fst ranked
  /\ ((0 <= max_expansions)%Z -> (Z.of_nat (length terms) <= max_expansions)%Z)
  /\ (forall t, In t terms -> ~ In t tokens /\ ~ In t seeds)
  /\ StronglySorted (fun x y : string * Q => (y.2 <= x.2)%Q) ranked
  /\ (depth = 1%Z -> (0 <= min_weight)%Q ->
      forall c w, In (c, w) ranked ->
        (exists seed w', In seed seeds /\ In (c, w') (edges_of g seed)
                         /\ (min_weight <= w')%Q /\ (w == w')%Q)
        /\ (forall seed w', In seed seeds -> In (c, w') (edges_of g seed) ->
                            (min_weight <= w')%Q -> (w' <= w)%Q)).
Proof.
  intros tokens seeds ranked terms.
  set (qt := (list_to_set tokens : gset string)).
  set (resolved := (set_map (ConceptGraph.resolve g) qt : gset string)).
  set (cand0 :=
         fold_left
           (fun c token =>
              (ConceptGraph._collect_neighbors g (Z.to_nat depth) token min_weight
                 (c, ∅)).1)
           (elements resolved) []).
  set (cand := fold_left (fun c token => OD.pop token c)
                         (elements (resolved ∪ qt)) cand0).
  assert (ranked = Py.slice_to max_expansions (sorted_desc snd ConceptGraph.Qltb cand))
    as Hranked by reflexivity.
  assert (NoDup (OD.keys cand0)) as Hnd0.
  { apply candidates_NoDup. constructor. }
  assert (forall c w, In (c, w) ranked ->
            In (c, w) cand0 /\ ~ In c tokens /\ ~ In c seeds) as Hin_ranked.
  { intros c w Hin. rewrite Hranked in Hin. apply slice_to_In in Hin.
    apply (proj1 (sorted_desc_In snd ConceptGraph.Qltb _ _)) in Hin.
    apply pop_all_In in Hin as [Hin Hnot]; [|exact Hnd0].
    split; [exact Hin|].
    rewrite <- list_elem_of_In, elem_of_elements, elem_of_union in Hnot.
    split.
    - intros Hc. apply Hnot. right. apply list_elem_of_In in Hc. set_solver.
    - intros Hc. apply Hnot. left. apply seeds_elements in Hc.
      apply list_elem_of_In in Hc. apply elem_of_elements in Hc. exact Hc. }
  split; [reflexivity|].
  split.
  { intros Hk. unfold terms, ConceptGraph.expand. rewrite length_map.
    fold ranked. rewrite Hranked. apply slice_to_length, Hk. }
  split.
  { intros t Ht. unfold terms, ConceptGraph.expand in Ht. fold ranked in Ht.
    apply in_map_iff in Ht as ([c w] & <- & Hin). apply (Hin_ranked c w Hin). }
  split.
  { rewrite Hranked. apply slice_to_StronglySorted, sorted_desc_Q. }
  intros Hdepth Hmw c w Hin.
  destruct (Hin_ranked c w Hin) as [Hc0 _].
  assert (records cand0
            ([] ++ flat_map (fun s => qualifying min_weight (edges_of g s))
                            (elements resolved))) as (_ & _ & Hmax).
  { subst cand0. rewrite Hdepth. change (Z.to_nat 1) with 1%nat.
    apply records_seeds; [exact Hmw|].
    split; [constructor|]. split; [intros ? ? []|intros ? ? []]. }
  cbn [app] in Hmax. destruct (Hmax c w Hc0) as [(w' & Hw' & Heq) Hle].
  split.
  - apply in_flat_map in Hw' as (seed & Hseed & Hq).
    apply qualifying_In in Hq as [He Hq]. cbn [snd] in Hq.
    exists seed, w'. split; [apply seeds_elements, Hseed|]. auto.
  - intros seed w2 Hseed He Hq. apply Hle. apply in_flat_map.
    exists seed. split; [apply seeds_elements, Hseed|].
    apply qualifying_In. split; assumption.
Qed.

(** ** Whitespace tokens *)

Definition nsp (c : ascii) : bool := negb (Py.is_space c).

(** Every character of [s] satisfies [p]. *)
Fixpoint all_chars (p : ascii -> bool) (s : string) : bool :=
  match s with
  | EmptyString => true
  | String c s' => p c && all_chars p s'
  end.

(** A token: not empty and free of whitespace. *)
Definition token (w : string) : Prop :=
  Py.truthy w = true /\ all_chars nsp w = true.

Lemma runs_nil (p : ascii -> bool) (s : string) :
  Py.runs p s = [] <-> all_chars (fun c => negb (p c)) s = true.
Proof.
  induction s as [|c s IH]; cbn [Py.runs all_chars]; [tauto|].
  destruct (p c) eqn:Ec; cbn [negb andb].
  - split; [|discriminate]. destruct s as [|c' s']; [discriminate|].
    destruct (p c'); [|discriminate]. destruct (Py.runs p (String c' s')); discriminate.
  - exact IH.
Qed.

Lemma rstrip_empty (p : ascii -> bool) (s : string) :
  Py.rstrip_by p s = EmptyString <-> all_chars p s = true.
Proof.
  induction s as [|c s IH]; cbn [Py.rstrip_by all_chars]; [tauto|].
  destruct (Py.rstrip_by p s) eqn:Er.
  - destruct (p c); cbn [andb]; [|split; discriminate]. tauto.
  - split; [discriminate|]. intros H. apply andb_true_iff in H as [_ H].
    apply IH in H. discriminate.
Qed.

Lemma lstrip_all (p : ascii -> bool) (s : string) :
  all_chars p (Py.lstrip_by p s) = all_chars p s.
Proof.
  induction s as [|c s IH]; cbn [Py.lstrip_by all_chars]; [reflexivity|].
  destruct (p c) eqn:Ec; cbn [andb all_chars]; [exact IH|].
  rewrite Ec. reflexivity.
Qed.

(** A text with a token does not strip to the empty string. *)
Lemma strip_truthy (text : string) :
  Py.split text <> [] -> Py.truthy (Py.strip text) = true.
Proof.
  intros Hs. unfold Py.strip, Py.strip_by.
  destruct (Py.rstrip_by Py.is_space (Py.lstrip_by Py.is_space text)) eqn:E;
    [|reflexivity].
  exfalso. apply Hs. apply runs_nil.
  apply rstrip_empty in E. rewrite lstrip_all in E.
  rewrite <- E. clear. induction text as [|c s IH]; [reflexivity|].
  cbn [all_chars]. rewrite IH, negb_involutive. reflexivity.
Qed.

Lemma runs_tokens (s : string) : Forall token (Py.runs nsp s).
Proof.
  induction s as [|c s IH]; cbn [Py.runs]; [constructor|].
  destruct (nsp c) eqn:Ec; [|exact IH].
  destruct s as [|c' s'].
  - repeat constructor. cbn [all_chars]. rewrite Ec. reflexivity.
  - destruct (nsp c') eqn:Ec'.
    + destruct (Py.runs nsp (String c' s')) as [|w ws].
      * repeat constructor. cbn [all_chars]. rewrite Ec. reflexivity.
      * apply Forall_cons in IH as [[Hw1 Hw2] Hws]. constructor; [|exact Hws].
        split; [reflexivity|]. cbn [all_chars]. rewrite Ec, Hw2. reflexivity.
    + constructor; [|exact IH]. split; [reflexivity|].
      cbn [all_chars]. rewrite Ec. reflexivity.
Qed.

Lemma runs_token_sep (w s : string) :
  token w -> Py.runs nsp (w +:+ " " +:+ s) = w :: Py.runs nsp s.
Proof.
  intros [Hne Hall]. induction w as [|c w IH]; [discriminate|].
  cbn [all_chars] in Hall. apply andb_true_iff in Hall as [Hc Hw].
  change (String c w +:+ " " +:+ s) with (String c (w +:+ " " +:+ s)).
  cbn [Py.runs]. rewrite Hc. destruct w as [|c' w'].
  - reflexivity.
  - change (String c' w' +:+ " " +:+ s) with (String c' (w' +:+ " " +:+ s)) in *.
    cbn [all_chars] in Hw. apply andb_true_iff in Hw as [Hc' Hw'].
    rewrite Hc'. rewrite IH; [reflexivity|reflexivity|].
    cbn [all_chars]. rewrite Hc', Hw'. reflexivity.
Qed.

Lemma runs_token (w : string) : token w -> Py.runs nsp w = [w].
Proof.
  intros [Hne Hall]. induction w as [|c w IH]; [discriminate|].
  cbn [all_chars] in Hall. apply andb_true_iff in Hall as [Hc Hw].
  cbn [Py.runs]. rewrite Hc. destruct w as [|c' w']; [reflexivity|].
  pose proof Hw as Hw0. cbn [all_chars] in Hw. apply andb_true_iff in Hw as [Hc' _].
  rewrite Hc'. rewrite IH; [reflexivity|reflexivity|exact Hw0].
Qed.

(** Splitting the join of tokens gives the tokens back. *)
Lemma split_join (ws : list string) :
  Forall token ws -> Py.split (Py.join " " ws) = ws.
Proof.
  unfold Py.split. fold nsp.
  induction ws as [|w ws IH]; intros Hws; [reflexivity|].
  apply Forall_cons in Hws as [Hw Hws]. destruct ws as [|w' ws'].
  - apply runs_token, Hw.
  - change (Py.join " " (w :: w' :: ws')) with (w +:+ " " +:+ Py.join " " (w' :: ws')).
    rewrite runs_token_sep by exact Hw. rewrite IH by exact Hws. reflexivity.
Qed.

Lemma split_tokens (text : string) : Forall token (Py.split text).
Proof. apply runs_tokens. Qed.

(** ** The window splitter *)

Section SplitLong.
Variable max_tokens : Z.

(** While the window is not full the loop only collects words. *)
Lemma split_long_fill (ws cur chunks : list string) :
  (Z.of_nat (length cur + length ws) < max_tokens)%Z ->
  fold_left (Chunker.split_long_step max_tokens) ws (chunks, cur)
  = (chunks, cur ++ ws).
Proof.
  revert cur. induction ws as [|w ws IH]; intros cur Hlen.
  - rewrite app_nil_r. reflexivity.
  - cbn [fold_left]. unfold Chunker.split_long_step at 2. cbn [fst snd].
    rewrite length_app. cbn [length] in *.
    destruct (Z.leb_spec max_tokens (Z.of_nat (length cur + 1))) as [H|_]; [lia|].
    rewrite IH by (rewrite length_app; cbn [length]; lia).
    rewrite <- app_assoc. reflexivity.
Qed.

(** The word that fills the window closes a chunk and leaves the last 50
    words as the start of the next one. *)
Lemma split_long_flush (w : string) (cur chunks : list string) :
  Z.of_nat (length cur + 1) = max_tokens ->
  Chunker.split_long_step max_tokens (chunks, cur) w
  = (chunks ++ [Py.join " " (cur ++ [w])], Py.last_n 50 (cur ++ [w])).
Proof.
  intros Hlen. unfold Chunker.split_long_step. cbn [fst snd].
  rewrite length_app. cbn [length].
  destruct (Z.leb_spec max_tokens (Z.of_nat (length cur + 1))) as [_|H]; [reflexivity|lia].
Qed.

Lemma split_long_keep (w : string) (cur chunks : list string) :
  (Z.of_nat (length cur + 1) < max_tokens)%Z ->
  Chunker.split_long_step max_tokens (chunks, cur) w = (chunks, cur ++ [w]).
Proof. intros H. apply (split_long_fill [w] cur chunks). exact H. Qed.

End SplitLong.

(** A list of [n + 1] elements splits into its first [n - 1] elements and
    its last two. *)
Lemma split_last_two {A} (l : list A) (n : nat) :
  (1 <= n)%nat -> length l = S n ->
  exists a x y, l = a ++ [x; y] /\ length a = (n - 1)%nat.
Proof.
  intros Hn Hl. exists (firstn (n - 1) l).
  assert (length (skipn (n - 1) l) = 2%nat) as H2 by (rewrite length_skipn; lia).
  destruct (skipn (n - 1) l) as [|x [|y [|z r]]] eqn:E; try discriminate.
  exists x, y. split.
  - rewrite <- E. symmetry. apply firstn_skipn.
  - rewrite length_firstn. lia.
Qed.

(** C5 (as amended). With [chunk_max_tokens >= 52]: a body of exactly
    [chunk_max_tokens] tokens gives one chunk, the body itself; a body of
    [chunk_max_tokens + 1] tokens gives exactly two chunks, the first
    [chunk_max_tokens] tokens and the last 51 tokens, which share exactly
    50 tokens and together cover the input. *)
Theorem split_long_boundary (max_tokens : Z) (text : string) :
  (52 <= max_tokens)%Z ->
  let words := Py.split text in
  let n := Z.to_nat max_tokens in
  let t1 := firstn n words in
  let t2 := skipn (n - 50) words in
  (Z.of_nat (length words) = max_tokens ->
     Chunker._split_long max_tokens text = [text])
  /\ (Z.of_nat (length words) = (max_tokens + 1)%Z ->
        Chunker._split_long max_tokens text = [Py.join " " t1; Py.join " " t2]
        /\ Py.split (Py.join " " t1) = t1
        /\ Py.split (Py.join " " t2) = t2
        /\ length t1 = n /\ length t2 = 51%nat
        /\ firstn 50 t2 = skipn (n - 50) t1
        /\ t1 ++ skipn 50 t2 = words).
Proof.
  intros Hmax words n t1 t2. split.
  - intros Hlen. unfold Chunker._split_long. fold words.
    destruct (Z.leb_spec (Z.of_nat (length words)) max_tokens) as [_|H]; [|lia].
    rewrite strip_truthy; [reflexivity|].
    fold words. destruct words; [simpl in Hlen; lia|discriminate].
  - intros Hlen.
    assert (length words = S n) as Hlen' by lia.
    destruct (split_last_two words n ltac:(lia) Hlen') as (a & x & y & Hw & Ha).
    assert (t1 = a ++ [x]) as Ht1.
    { unfold t1. rewrite Hw.
      change (a ++ [x; y]) with (a ++ [x] ++ [y]). rewrite app_assoc.
      apply take_app_length'. rewrite length_app. simpl. lia. }
    assert (t2 = skipn (n - 50) a ++ [x; y]) as Ht2.
    { unfold t2. rewrite Hw. rewrite skipn_app.
      replace (n - 50 - length a)%nat with 0%nat by lia. reflexivity. }
    pose proof (split_tokens text) as Htok. fold words in Htok.
    assert (Forall token t1) as Htok1.
    { unfold t1. apply Forall_take, Htok. }
    assert (Forall token t2) as Htok2.
    { unfold t2. apply Forall_drop, Htok. }
    split.
    { unfold Chunker._split_long. fold words.
      destruct (Z.leb_spec (Z.of_nat (length words)) max_tokens) as [H|_]; [lia|].
      rewrite Hw. change (a ++ [x; y]) with (a ++ [x] ++ [y]).
      rewrite !fold_left_app.
      rewrite (split_long_fill max_tokens a [] []) by (simpl; lia).
      cbn [app fold_left].
      rewrite (split_long_flush max_tokens x a []) by lia.
      assert (Py.last_n 50 (a ++ [x]) = skipn (n - 50) a ++ [x]) as Hlast.
      { unfold Py.last_n. rewrite length_app. cbn [length].
        replace (length a + 1 - 50)%nat with (n - 50)%nat by lia.
        rewrite skipn_app. replace (n - 50 - length a)%nat with 0%nat by lia.
        reflexivity. }
      rewrite Hlast.
      rewrite split_long_keep.
      2:{ rewrite length_app, length_skipn. cbn [length]. lia. }
      cbn [fst snd app]. rewrite Ht1, Ht2.
      rewrite <- app_assoc. cbn [app].
      destruct (skipn (n - 50) a ++ [x; y]) eqn:E; [|reflexivity].
      apply app_eq_nil in E as [_ E]. discriminate. }
    split; [apply split_join, Htok1|].
    split; [apply split_join, Htok2|].
    split; [rewrite Ht1, length_app; simpl; lia|].
    split; [rewrite Ht2, length_app, length_skipn; simpl; lia|].
    split.
    { rewrite Ht1, Ht2. rewrite skipn_app.
      replace (n - 50 - length a)%nat with 0%nat by lia. cbn [skipn].
      change (skipn (n - 50) a ++ [x; y]) with (skipn (n - 50) a ++ [x] ++ [y]).
      rewrite app_assoc. apply take_app_length'.
      rewrite length_app, length_skipn. simpl. lia. }
    unfold t1, t2. rewrite skipn_skipn.
    replace (50 + (n - 50))%nat with n by lia. apply firstn_skipn.
Qed.

Lemma split_long_boundary_witness :
  Chunker._split_long 52 (Py.join " " (repeat "w" 52)) = [Py.join " " (repeat "w" 52)]
  /\ Chunker._split_long 52 (Py.join " " (repeat "w" 53))
     = [Py.join " " (repeat "w" 52); Py.join " " (repeat "w" 51)].
Proof.
  pose proof (split_long_boundary 52 (Py.join " " (repeat "w" 52)) ltac:(lia)) as [H1 _].
  pose proof (split_long_boundary 52 (Py.join " " (repeat "w" 53)) ltac:(lia)) as [_ H2].
  split.
  - apply H1. vm_compute. reflexivity.
  - destruct H2 as [H2 _]; [vm_compute; reflexivity|].
    rewrite H2. vm_compute. reflexivity.
Defined.

(** C5 as stated fails for a small window: with [chunk_max_tokens = 1] a
    body of two tokens gives three chunks. *)
Lemma split_long_small_window :
  length (Py.split "a b") = 2%nat
  /\ Chunker._split_long 1 "a b" = ["a"; "a b"; "a b"].
Proof. split; vm_compute; reflexivity. Qed.

(** ** Section splitting *)

Lemma str_app_cons (c : ascii) (s t : string) :
  String c s +:+ t = String c (s +:+ t).
Proof. reflexivity. Qed.

Lemma str_app_nil_r (s : string) : s +:+ EmptyString = s.
Proof.
  induction s as [|c s IH]; [reflexivity|]. rewrite str_app_cons, IH. reflexivity.
Qed.

Lemma str_app_assoc (s t u : string) : (s +:+ t) +:+ u = s +:+ t +:+ u.
Proof.
  induction s as [|c s IH]; [reflexivity|]. rewrite !str_app_cons, IH. reflexivity.
Qed.

(** The lines of a text put together again with newlines in front of all
    lines but the first. *)
Fixpoint glue (ls : list string) : string :=
  match ls with
  | [] => EmptyString
  | l :: ls' => String Py.newline EmptyString +:+ l +:+ glue ls'
  end.

Lemma split_lines_glue (text : string) :
  exists l ls, Py.split_lines text = l :: ls /\ l +:+ glue ls = text.
Proof.
  induction text as [|c s (l & ls & Hs & Hg)]; cbn [Py.split_lines].
  - exists EmptyString, []. split; reflexivity.
  - destruct (ascii_dec c Py.newline) as [->|Hc].
    + exists EmptyString, (l :: ls). rewrite Hs. split; [reflexivity|].
      cbn [glue]. change (EmptyString +:+ ?x) with x.
      rewrite str_app_cons. change (EmptyString +:+ ?x) with x. rewrite Hg. reflexivity.
    + rewrite Hs. exists (String c l), ls. split; [reflexivity|].
      rewrite str_app_cons, Hg. reflexivity.
Qed.

(** Without a heading line the pattern does not cut the text. *)
Lemma split_at_headings_none (acc : string) (ls : list string) :
  Forall (fun l => Chunker.is_heading l = false) ls ->
  Chunker.split_at_headings false acc ls = [acc +:+ glue ls].
Proof.
  revert acc. induction ls as [|l ls IH]; intros acc Hls; cbn [Chunker.split_at_headings glue].
  - rewrite str_app_nil_r. reflexivity.
  - apply Forall_cons in Hls as [Hl Hls]. rewrite Hl, (IH _ Hls).
    rewrite !str_app_assoc. reflexivity.
Qed.

Lemma pattern_split_none (text : string) :
  Forall (fun l => Chunker.is_heading l = false) (Py.split_lines text) ->
  Chunker.pattern_split text = [text].
Proof.
  intros Hls. unfold Chunker.pattern_split.
  destruct (split_lines_glue text) as (l & ls & Hs & Hg). rewrite Hs in *.
  apply Forall_cons in Hls as [Hl Hls]. cbn [Chunker.split_at_headings]. rewrite Hl.
  rewrite (split_at_headings_none _ ls Hls).
  change ((EmptyString +:+ EmptyString +:+ l) +:+ glue ls) with (l +:+ glue ls).
  rewrite Hg. reflexivity.
Qed.

(** C1 on the code. A text without a heading line that has a character
    other than whitespace gives exactly one section, and its title is
    [intro], not [main]; its body is the stripped text. The [main] section
    only comes out when no section has a body. *)
Theorem split_sections_no_heading (text : string) :
  Forall (fun l => Chunker.is_heading l = false) (Py.split_lines text) ->
  Py.truthy (Py.strip text) = true ->
  Chunker._split_sections text = [("intro", Py.strip text)].
Proof.
  intros Hls Hne. unfold Chunker._split_sections.
  rewrite (pattern_split_none text Hls). rewrite Hne. reflexivity.
Qed.

Lemma split_sections_no_heading_witness :
  Chunker._split_sections "Prefer actors over locks."
  = [("intro", "Prefer actors over locks.")].
Proof.
  apply (split_sections_no_heading "Prefer actors over locks.").
  - repeat constructor.
  - reflexivity.
Defined.

(** ** Chunk ids *)

Lemma chunk_file_In (md5_hex : string -> string) (max_tokens : Z)
  (name path text skill_name : string) (domains : list string) (c : Chunk.t) :
  In c (Chunker.chunk_file md5_hex max_tokens name path text skill_name domains) ->
  exists title body sub,
    In (title, body) (Chunker._split_sections text)
    /\ In sub (Chunker._split_long max_tokens body)
    /\ c = Chunker.make_chunk md5_hex name path skill_name domains
             (Chunker._extract_context text name skill_name) title sub.
Proof.
  unfold Chunker.chunk_file. intros Hin.
  apply in_flat_map in Hin as ([title body] & Hs & Hin).
  apply in_map_iff in Hin as (sub & <- & Hsub).
  exists title, body, sub. auto.
Qed.

(** C9 (as amended). The id of every chunk of [chunk_file] is the digest of
    the text [skill/file/section/first 50 characters of the body], so it is
    the same in every run, and two chunks that agree on the section title
    and on the first 50 characters of their bodies have the same id. *)
Theorem chunk_id_deterministic (md5_hex : string -> string) (max_tokens : Z)
  (name path text skill_name : string) (domains : list string) :
  let chunks := Chunker.chunk_file md5_hex max_tokens name path text skill_name domains in
  Forall (fun c =>
            Chunk.id c
            = md5_hex (skill_name +:+ "/" +:+ name +:+ "/" +:+ Chunk.section c
                                  +:+ "/" +:+ Py.take 50 (Chunk.text c))
            /\ Chunk.skill c = skill_name /\ Chunk.file c = name) chunks
  /\ (forall c1 c2, In c1 chunks -> In c2 chunks ->
        Chunk.section c1 = Chunk.section c2 ->
        Py.take 50 (Chunk.text c1) = Py.take 50 (Chunk.text c2) ->
        Chunk.id c1 = Chunk.id c2).
Proof.
  intros chunks.
  assert (forall c, In c chunks ->
            Chunk.id c
            = md5_hex (skill_name +:+ "/" +:+ name +:+ "/" +:+ Chunk.section c
                                  +:+ "/" +:+ Py.take 50 (Chunk.text c))
            /\ Chunk.skill c = skill_name /\ Chunk.file c = name) as H.
  { intros c Hin. apply chunk_file_In in Hin as (title & body & sub & _ & _ & ->).
    repeat split. }
  split.
  - apply Forall_forall. intros c Hc. apply H, list_elem_of_In, Hc.
  - intros c1 c2 H1 H2 Hs Ht.
    destruct (H c1 H1) as [-> _]. destruct (H c2 H2) as [-> _].
    rewrite Hs, Ht. reflexivity.
Qed.

(** C9 as stated fails: a file that repeats a section (same heading, same
    opening words) gives two chunks with one id, whatever the digest. *)
Lemma chunk_ids_collide :
  let nl := String Py.newline EmptyString in
  let text := "# Actors" +:+ nl +:+ "Use actors." +:+ nl
              +:+ "# Actors" +:+ nl +:+ "Use actors." in
  Chunker._split_sections text = [("Actors", "Use actors."); ("Actors", "Use actors.")]
  /\ forall md5_hex : string -> string,
       map Chunk.id (Chunker.chunk_file md5_hex 400 "notes.md" "swift/notes.md"
                                        text "swift" ["swift"])
       = [md5_hex "swift/notes.md/Actors/Use actors.";
          md5_hex "swift/notes.md/Actors/Use actors."].
Proof. split; [vm_compute; reflexivity|]. intros md5_hex. vm_compute. reflexivity. Qed.

(** ** Fingerprint counts and the vector store *)

(** The registered skills with their [chunk_count]. *)
Definition chunk_counts (fps : list (string * Engine.SkillFingerprint))
  : list (string * nat) :=
  map (fun p => (p.1, Engine.chunk_count p.2)) fps.

(** [sum(fp.chunk_count for fp in fingerprints.values())] *)
Definition sum_chunk_counts (fps : list (string * Engine.SkillFingerprint)) : nat :=
  list_sum (map snd (chunk_counts fps)).

(** The indexed chunks of a skill. *)
Definition chunks_of_skill (skill_name : string) (c : Engine.Collection)
  : Engine.Collection :=
  filter (fun kv : string * Engine.Entry =>
            Engine.m_skill (Engine.e_meta kv.2) = skill_name) c.

Definition swift_dir (body : string) : Engine.SkillDir :=
  Engine.mkDir true "swift" ["swift"] "swift"
    [Engine.mkMd "actors.md" "swift/actors.md" (inl body)].

Definition testing_dir : Engine.SkillDir :=
  Engine.mkDir true "testing" ["testing"] "testing"
    [Engine.mkMd "mocks.md" "testing/mocks.md" (inl "Write mocks.")].

Section IndexFacts.
Variable md5_hex : string -> string.
Variable embed_documents : list string -> list (list R).

Lemma chunk_counts_set_embeddings (fps : list (string * Engine.SkillFingerprint))
  (embs : list (list R)) :
  chunk_counts (Engine.set_embeddings fps embs) = chunk_counts fps.
Proof.
  revert embs. induction fps as [|[n fp] fps IH]; intros [|emb embs]; try reflexivity.
  cbn [Engine.set_embeddings chunk_counts map fst snd Engine.chunk_count].
  f_equal. apply IH.
Qed.

Lemma chunk_counts_embed (fps : list (string * Engine.SkillFingerprint)) :
  chunk_counts (Engine._embed_fingerprints embed_documents fps) = chunk_counts fps.
Proof.
  destruct fps as [|p fps]; [reflexivity|].
  unfold Engine._embed_fingerprints. apply chunk_counts_set_embeddings.
Qed.

(** What [index] leaves in the registry and in the store, in terms of the
    loop over the skill directories. *)
Lemma index_state (e : Engine.t) (fs paths : list Engine.SkillDir) (force : bool) :
  let st :=
    fold_left (Engine.index_step md5_hex (Engine.chunk_max_tokens (Engine.config e)))
              (match paths with [] => fs | _ => paths end)
              (Engine.mkLoop [] 0 [] (Engine._fingerprints e)) in
  let e' := (Engine.index md5_hex embed_documents e fs paths force).2 in
  chunk_counts (Engine._fingerprints e') = chunk_counts (Engine.fingerprints st)
  /\ Engine._collection e'
     = match Engine.all_chunks st with
       | [] => Engine._collection e
       | chunks => Engine._store_chunks embed_documents (Engine._collection e) chunks force
       end.
Proof.
  intros st e'. subst e'. unfold Engine.index. fold st.
  destruct (Engine.all_chunks st) as [|c cs]; cbn [snd].
  - split; reflexivity.
  - cbn [Engine._fingerprints Engine._collection]. split; [apply chunk_counts_embed|reflexivity].
Qed.

(** [index_step] reads the registry only through the names and counts. *)
Definition loop_obs (st : Engine.IndexLoop)
  : list Chunk.t * nat * list string * list (string * nat) :=
  (Engine.all_chunks st, Engine.skill_count st, Engine.errors st,
   chunk_counts (Engine.fingerprints st)).

Lemma chunk_counts_set (k : string) (fp : Engine.SkillFingerprint)
  (fps : list (string * Engine.SkillFingerprint)) :
  chunk_counts (OD.set k fp fps) = OD.set k (Engine.chunk_count fp) (chunk_counts fps).
Proof.
  induction fps as [|[k' fp'] fps IH]; [reflexivity|].
  cbn [OD.set chunk_counts map fst snd]. destruct (String.eqb k k'); [reflexivity|].
  cbn [map fst snd]. f_equal. apply IH.
Qed.

Lemma index_step_obs (mt : Z) (st st' : Engine.IndexLoop) (sd : Engine.SkillDir) :
  loop_obs st = loop_obs st' ->
  loop_obs (Engine.index_step md5_hex mt st sd)
  = loop_obs (Engine.index_step md5_hex mt st' sd).
Proof.
  unfold loop_obs. intros [= Ha Hk He Hf]. unfold Engine.index_step.
  destruct (negb (Engine.sd_is_dir sd)); [congruence|].
  rewrite He.
  destruct (fold_left _ _ _).1;
    cbn [Engine.all_chunks Engine.skill_count Engine.errors Engine.fingerprints].
  - congruence.
  - rewrite !chunk_counts_set, Ha, Hk, Hf. reflexivity.
Qed.

Lemma index_loop_obs (mt : Z) (dirs : list Engine.SkillDir) (st st' : Engine.IndexLoop) :
  loop_obs st = loop_obs st' ->
  loop_obs (fold_left (Engine.index_step md5_hex mt) dirs st)
  = loop_obs (fold_left (Engine.index_step md5_hex mt) dirs st').
Proof.
  revert st st'. induction dirs as [|sd dirs IH]; intros st st' H; [exact H|].
  cbn [fold_left]. apply IH, index_step_obs, H.
Qed.

End IndexFacts.


(** The same on the path without [force]: when the text of a file changes
    between two [index] calls, the chunk written by the first call stays in
    the store next to the new one, while the fingerprint counts the new
    chunk only. *)
Lemma stale_chunk_without_force (md5_hex : string -> string)
  (embed_documents : list string -> list (list R)) :
  md5_hex "swift/actors.md/intro/Use actors."
    <> md5_hex "swift/actors.md/intro/Use async let." ->
  let e0 := Engine.init Engine.default_config in
  let e1 := (Engine.index md5_hex embed_documents e0 []
               [swift_dir "Use actors."] false).2 in
  let e2 := (Engine.index md5_hex embed_documents e1 []
               [swift_dir "Use async let."] false).2 in
  chunk_counts (Engine._fingerprints e2) = [("swift", 1%nat)]
  /\ exists c, Engine._collection e2 = Some c /\ Engine.count c = 2%nat.
Proof.
  intros Hne e0 e1 e2.
  destruct (index_state md5_hex embed_documents e0 []
              [swift_dir "Use actors."] false) as [Hf1 Hc1].
  destruct (index_state md5_hex embed_documents e1 []
              [swift_dir "Use async let."] false) as [Hf2 Hc2].
  fold e1 in Hf1, Hc1. fold e2 in Hf2, Hc2.
  cbv zeta in Hf1, Hc1, Hf2, Hc2.
  set (st1 := fold_left _ _ _) in Hf1, Hc1.
  set (st2 := fold_left _ _ _) in Hf2, Hc2.
  assert (chunk_counts (Engine.fingerprints st1) = [("swift", 1%nat)]) as Hcnt1
    by reflexivity.
  set (fps0 := [("swift", Engine.mkFingerprint "swift" "swift" ["swift"] 1 None)]).
  set (st2' := fold_left (Engine.index_step md5_hex 400) [swift_dir "Use async let."]
                         (Engine.mkLoop [] 0 [] fps0)).
  assert (loop_obs st2 = loop_obs st2') as Hobs.
  { apply index_loop_obs. unfold loop_obs.
    cbn [Engine.all_chunks Engine.skill_count Engine.errors Engine.fingerprints].
    rewrite Hf1, Hcnt1. reflexivity. }
  unfold loop_obs in Hobs.
  pose proof (f_equal (fun x => x.1.1.1) Hobs) as Hall.
  pose proof (f_equal snd Hobs) as Hfps. cbn [fst snd] in Hall, Hfps.
  assert (chunk_counts (Engine.fingerprints st2') = [("swift", 1%nat)]) as Hcnt2
    by reflexivity.
  rewrite Hcnt2 in Hfps. rewrite Hfps in Hf2. split; [exact Hf2|].
  assert (exists v1, Engine._collection e1
                     = Some (<[md5_hex "swift/actors.md/intro/Use actors." := v1]> ∅))
    as [v1 Hc1'].
  { rewrite Hc1. eexists. reflexivity. }
  rewrite Hall, Hc1' in Hc2.
  assert (exists v2,
            Engine._collection e2
            = Some (<[md5_hex "swift/actors.md/intro/Use async let." := v2]>
                      (<[md5_hex "swift/actors.md/intro/Use actors." := v1]> ∅)))
    as [v2 Hc2'].
  { rewrite Hc2. eexists. reflexivity. }
  eexists. split; [exact Hc2'|]. unfold Engine.count.
  rewrite map_size_insert_None.
  - rewrite insert_empty, map_size_singleton. reflexivity.
  - rewrite lookup_insert_ne by exact Hne. apply lookup_empty.
Qed.

(** ** The query cache *)

Section CacheFacts.
Variable md5_hex : string -> string.
Variable embed_documents : list string -> list (list R).
Variable embed_query : string -> list R.
Variable collection_query :
  Engine.Collection -> list R -> Z -> option (list string) -> list (string * R).
Variable cross_encoder : list (string * string) -> option (list R).
Variable elapsed_ms : R.

Let search :=
  Engine.search md5_hex embed_documents embed_query collection_query
                cross_encoder elapsed_ms.
Let ensure := Engine._ensure_indexed md5_hex embed_documents.

(** The engine [e] with another cache and another store of responses. *)
Definition with_cache (e : Engine.t) (cache : list (string * nat))
  (h : list Engine.SearchResponse) : Engine.t :=
  Engine.mk (Engine.config e) (Engine._bm25 e) (Engine._collection e)
            (Engine._fingerprints e) cache h (Engine._concept_graph e)
            (Engine._indexed e).

(** A hit on the literal query: the stored object itself is marked and
    handed back. *)
Lemma search_hit (e : Engine.t) (fs : list Engine.SkillDir) (q : string)
  (k : option Z) (r : nat) :
  Engine.cache_enabled (Engine.config (ensure e fs)) = true ->
  OD.get q (Engine._cache (ensure e fs)) = Some r ->
  search e fs q k
  = Some (r, with_cache (ensure e fs) (Engine._cache (ensure e fs))
                (alter (Engine.set_from_cache true) r (Engine.heap (ensure e fs)))).
Proof.
  intros Hen Hget. unfold search, Engine.search. fold (ensure e fs).
  rewrite Hen. unfold Engine._check_cache. rewrite Hget. reflexivity.
Qed.

(** A miss: a new response object with [from_cache = false] is stored under
    the literal query and handed back. *)
Lemma search_miss (e : Engine.t) (fs : list Engine.SkillDir) (q : string)
  (k : option Z) :
  Engine.cache_enabled (Engine.config (ensure e fs)) = true ->
  Engine._check_cache embed_query (ensure e fs) q = None ->
  (forall sq c, is_Some (BM25.score (Engine._bm25 (ensure e fs)) sq c)) ->
  exists resp,
    Engine.from_cache resp = false
    /\ Engine.query resp = q
    /\ search e fs q k
       = Some (length (Engine.heap (ensure e fs)),
               with_cache (ensure e fs)
                 (OD.set q (length (Engine.heap (ensure e fs)))
                         (Engine._cache (ensure e fs)))
                 (Engine.heap (ensure e fs) ++ [resp])).
Proof.
  intros Hen Hmiss Hbm. unfold search, Engine.search. fold (ensure e fs).
  rewrite Hen, Hmiss.
  match goal with
  | |- context [Engine._match_skills ?fps ?emb] =>
      destruct (match_skills_some fps emb) as [ms ->]
  end.
  cbn [mbind option_bind].
  match goal with
  | |- context [BM25.score ?bm ?sq ?c] => destruct (Hbm sq c) as [sc ->]
  end.
  cbn [mbind option_bind].
  eexists. split; [|split; [|reflexivity]]; reflexivity.
Qed.

(** With no skill on disk [_ensure_indexed] leaves an engine that was never
    indexed as it is. *)
Lemma ensure_no_skills (e : Engine.t) :
  Engine._indexed e = false ->
  ensure e [] = Engine.set_fingerprints (Engine._fingerprints e) e.
Proof.
  intros H. unfold ensure, Engine._ensure_indexed. rewrite H. reflexivity.
Qed.

End CacheFacts.

(** C2 on the code. On a fresh engine with the default configuration (cache
    enabled) and no skills on disk, search the same query twice. The first
    call stores its response with [from_cache = false]; the second call
    finds it, sets [from_cache] on that very object and hands it back, so
    the entry held in the cache now has [from_cache = true]. This holds
    whatever the embedding provider, the store's query and the reranker
    return. *)
Theorem cache_hit_marks_stored_entry (md5_hex : string -> string)
  (embed_documents : list string -> list (list R))
  (embed_query : string -> list R)
  (collection_query :
     Engine.Collection -> list R -> Z -> option (list string) -> list (string * R))
  (cross_encoder : list (string * string) -> option (list R))
  (elapsed_ms : R) (q : string) :
  let search :=
    Engine.search md5_hex embed_documents embed_query collection_query
                  cross_encoder elapsed_ms in
  let e0 := Engine.init Engine.default_config in
  exists e1 e2 : Engine.t,
    search e0 [] q None = Some (0%nat, e1)
    /\ OD.get q (Engine._cache e1) = Some 0%nat
    /\ Engine.from_cache <$> Engine.heap e1 !! 0%nat = Some false
    /\ search e1 [] q None = Some (0%nat, e2)
    /\ OD.get q (Engine._cache e2) = Some 0%nat
    /\ Engine.from_cache <$> Engine.heap e2 !! 0%nat = Some true.
Proof.
  intros search e0.
  pose proof (ensure_no_skills md5_hex embed_documents e0 eq_refl) as H0.
  destruct (search_miss md5_hex embed_documents embed_query collection_query
              cross_encoder elapsed_ms e0 [] q None) as (resp & Hfc & _ & Hs1).
  { rewrite H0. reflexivity. }
  { rewrite H0. reflexivity. }
  { rewrite H0. intros sq c. eexists. reflexivity. }
  rewrite H0 in Hs1. cbn [Engine.heap Engine._cache Engine.set_fingerprints
                          Engine.init length app OD.set] in Hs1.
  set (e1 := with_cache _ _ _) in Hs1.
  pose proof (ensure_no_skills md5_hex embed_documents e1 eq_refl) as H1.
  assert (OD.get q (Engine._cache e1) = Some 0%nat) as Hget.
  { unfold e1, with_cache. cbn [Engine._cache].
    rewrite od_get_set, String.eqb_refl. reflexivity. }
  pose proof (search_hit md5_hex embed_documents embed_query collection_query
                cross_encoder elapsed_ms e1 [] q None 0) as Hs2.
  rewrite H1 in Hs2. specialize (Hs2 eq_refl Hget).
  exists e1. eexists. split; [exact Hs1|]. split; [exact Hget|].
  split; [unfold e1, with_cache; cbn [Engine.heap]; simpl; rewrite Hfc; reflexivity|].
  split; [exact Hs2|]. split; [exact Hget|].
  unfold e1, with_cache. cbn [Engine.heap Engine.set_fingerprints]. reflexivity.
Qed.

(** ** Search without reranking *)

Lemma rrf_fuse_sorted (coll : option Engine.Collection)
  (sem : list (string * R * nat)) (bm25 : list (string * R)) (k : nat) :
  StronglySorted (fun x y => (Engine.final_score x >= Engine.final_score y)%R)
                 (Engine._rrf_fuse coll sem bm25 k).
Proof.
  destruct coll as [c|].
  - destruct (rrf_fuse_unfold c sem bm25 k) as (sm & bm & ->).
    eapply omap_sorted; [|apply sorted_desc_R].
    intros a a' b b' Hge Hb Hb'. simpl in Hb, Hb'.
    destruct (c !! a.1); [|discriminate]. destruct (c !! a'.1); [|discriminate].
    simpl in Hb, Hb'. inversion Hb; inversion Hb'; subst. exact Hge.
  - unfold Engine._rrf_fuse. destruct (Engine.rrf_scores _ _ _); constructor.
Qed.

(** With the reranker disabled, the response that a search computes (on a
    cache miss) lists its results in non-increasing order of
    [final_score]. *)
Lemma search_without_reranker_sorted (md5_hex : string -> string)
  (embed_documents : list string -> list (list R))
  (embed_query : string -> list R)
  (collection_query :
     Engine.Collection -> list R -> Z -> option (list string) -> list (string * R))
  (cross_encoder : list (string * string) -> option (list R))
  (elapsed_ms : R) (e : Engine.t) (fs : list Engine.SkillDir) (q : string)
  (k : option Z) :
  let e' := Engine._ensure_indexed md5_hex embed_documents e fs in
  Engine.reranker_enabled (Engine.config e') = false ->
  (if Engine.cache_enabled (Engine.config e')
   then Engine._check_cache embed_query e' q else None) = None ->
  (forall sq c, is_Some (BM25.score (Engine._bm25 e') sq c)) ->
  exists r e'' resp,
    Engine.search md5_hex embed_documents embed_query collection_query
                  cross_encoder elapsed_ms e fs q k = Some (r, e'')
    /\ Engine.heap e'' !! r = Some resp
    /\ StronglySorted (fun x y => (Engine.final_score x >= Engine.final_score y)%R)
                      (Engine.results resp).
Proof.
  intros e' Hrr Hmiss Hbm. unfold Engine.search. fold e'.
  rewrite Hmiss, Hrr.
  match goal with
  | |- context [Engine._match_skills ?fps ?emb] =>
      destruct (match_skills_some fps emb) as [ms ->]
  end.
  cbn [mbind option_bind].
  match goal with
  | |- context [BM25.score ?bm ?sq ?c] => destruct (Hbm sq c) as [sc ->]
  end.
  cbn [mbind option_bind andb].
  eexists _, _, _. split; [reflexivity|]. split.
  - cbn [Engine.heap]. rewrite lookup_app_r by reflexivity.
    rewrite Nat.sub_diag. reflexivity.
  - cbn [Engine.results]. apply slice_to_StronglySorted, rrf_fuse_sorted.
Qed.

(** * Further properties *)

(** ** Batches *)

(** The slices [xs[i : i + n]] taken at the offsets of [range(0, len(xs), n)]. *)
Definition batches {A} (n : nat) (xs : list A) : list (list A) :=
  map (fun i => firstn n (skipn i xs)) (Py.range_step (length xs) n).

Lemma slices_concat {A} (n k : nat) (xs : list A) :
  (length xs <= k * n)%nat ->
  concat (map (fun j => firstn n (skipn (j * n) xs)) (seq 0 k)) = xs.
Proof.
  revert xs. induction k as [|k IH]; intros xs Hlen.
  - destruct xs; [reflexivity|simpl in Hlen; lia].
  - change (seq 0 (S k)) with (0%nat :: seq 1 k). rewrite <- seq_shift.
    cbn [map concat]. rewrite map_map. change (0 * n)%nat with 0%nat. cbn [skipn].
    transitivity (firstn n xs ++ skipn n xs); [|apply firstn_skipn].
    f_equal.
    transitivity (concat (map (fun j => firstn n (skipn (j * n) (skipn n xs))) (seq 0 k)));
      [|apply IH; rewrite length_skipn; lia].
    f_equal. apply map_ext. intros j.
    rewrite skipn_skipn. do 2 f_equal. lia.
Qed.

Lemma ceil_div_bounds (len n : nat) :
  (0 < n)%nat ->
  (len <= (len + n - 1) / n * n)%nat
  /\ (forall j, j < (len + n - 1) / n -> j * n < len)%nat.
Proof.
  intros Hn.
  pose proof (Nat.div_mod_eq (len + n - 1) n) as Hdm.
  pose proof (Nat.mod_upper_bound (len + n - 1) n ltac:(lia)) as Hr.
  split; [nia|]. intros j Hj. nia.
Qed.

Lemma batches_concat {A} (n : nat) (xs : list A) :
  (0 < n)%nat -> concat (batches n xs) = xs.
Proof.
  intros Hn. unfold batches, Py.range_step. rewrite map_map.
  apply slices_concat. apply ceil_div_bounds, Hn.
Qed.

Lemma batches_sizes {A} (n : nat) (xs : list A) :
  (0 < n)%nat ->
  Forall (fun b => 1 <= length b <= n)%nat (batches n xs).
Proof.
  intros Hn. unfold batches, Py.range_step. rewrite map_map.
  apply Forall_forall. intros b Hb. apply list_elem_of_In, in_map_iff in Hb as (j & <- & Hj).
  apply in_seq in Hj. destruct (ceil_div_bounds (length xs) n Hn) as [_ Hlt].
  specialize (Hlt j ltac:(lia)).
  rewrite length_firstn, length_skipn. lia.
Qed.

(** ** The remote embedder *)

(** X1. [_voyage_embed] calls the client on consecutive slices of the texts
    that are never empty and never longer than 128, that put together are
    the texts, and returns the concatenation of what the client gave; so a
    client that answers every batch with one vector per text yields one
    vector per text. *)
Theorem voyage_embed_batches {E : Type} (client : list string -> string -> list E)
  (texts : list string) (input_type : string) :
  Surface._voyage_embed client texts input_type
  = concat (map (fun b => client b input_type) (batches 128 texts))
  /\ concat (batches 128 texts) = texts
  /\ Forall (fun b => 1 <= length b <= 128)%nat (batches 128 texts)
  /\ ((forall b, length (client b input_type) = length b) ->
      length (Surface._voyage_embed client texts input_type) = length texts).
Proof.
  assert (Surface._voyage_embed client texts input_type
          = concat (map (fun b => client b input_type) (batches 128 texts))) as Heq.
  { unfold Surface._voyage_embed, batches. rewrite flat_map_concat_map, map_map.
    reflexivity. }
  split; [exact Heq|].
  split; [apply batches_concat; lia|].
  split; [apply batches_sizes; lia|].
  intros Hlen. rewrite Heq.
  assert (forall bs : list (list string),
            length (concat (map (fun b => client b input_type) bs))
            = length (concat bs)) as Hbs.
  { induction bs as [|b bs IH]; [reflexivity|].
    cbn [map concat]. rewrite !length_app, Hlen, IH. reflexivity. }
  rewrite Hbs, batches_concat by lia. reflexivity.
Qed.

(** ** Writing chunks to the store *)

Lemma fold_left_map_arg {A B C} (f : A -> C -> A) (g : B -> C) (l : list B) (a : A) :
  fold_left f (map g l) a = fold_left (fun a x => f a (g x)) l a.
Proof. revert a. induction l as [|x l IH]; intros a; [reflexivity|]. apply IH. Qed.

Lemma enumerate_snd {A} (l : list A) : map snd (Py.enumerate l) = l.
Proof.
  unfold Py.enumerate. generalize 0%nat. induction l as [|x l IH]; intros s; [reflexivity|].
  cbn [length seq combine map snd]. f_equal. apply IH.
Qed.

(** The entry written for a chunk holds its text and its provenance. *)
Definition entry_of (ch : Chunk.t) (e : Engine.Entry) : Prop :=
  Engine.e_document e = Chunk.text ch /\ Engine.e_meta e = Engine.meta_of ch.

(** [c'] is [c] with entries written for the chunks [chs] and nothing else. *)
Definition written (c c' : Engine.Collection) (chs : list Chunk.t) : Prop :=
  dom c' = dom c ∪ list_to_set (map Chunk.id chs)
  /\ (forall k, ~ In k (map Chunk.id chs) -> c' !! k = c !! k)
  /\ (forall k e, c' !! k = Some e ->
        c !! k = Some e \/ exists ch, In ch chs /\ Chunk.id ch = k /\ entry_of ch e).

Lemma written_refl (c : Engine.Collection) : written c c [].
Proof.
  split; [cbn [map list_to_set]; rewrite union_empty_r_L; reflexivity|].
  split; [reflexivity|]. intros k e H. left. exact H.
Qed.

Lemma written_trans (c c1 c2 : Engine.Collection) (chs1 chs2 : list Chunk.t) :
  written c c1 chs1 -> written c1 c2 chs2 -> written c c2 (chs1 ++ chs2).
Proof.
  intros (D1 & U1 & E1) (D2 & U2 & E2). split; [|split].
  - rewrite D2, D1, map_app, list_to_set_app_L, union_assoc_L. reflexivity.
  - intros k Hk. rewrite map_app, in_app_iff in Hk.
    rewrite U2, U1 by tauto. reflexivity.
  - intros k e H. apply E2 in H as [H|(ch & Hin & Hid & He)].
    + apply E1 in H as [H|(ch & Hin & Hid & He)]; [left; exact H|].
      right. exists ch. rewrite in_app_iff. tauto.
    + right. exists ch. rewrite in_app_iff. tauto.
Qed.

Section StoreFacts.
Variable embed_documents : list string -> list (list R).

Lemma insert_loop_written (embeddings : list (list R)) (its : list (nat * Chunk.t))
  (c : Engine.Collection) :
  written c
    (fold_left
       (fun (c : Engine.Collection) (it : nat * Chunk.t) =>
          <[Chunk.id it.2 :=
              Engine.mkEntry (default [] (embeddings !! it.1)) (Chunk.text it.2)
                             (Engine.meta_of it.2)]> c)
       its c)
    (map snd its).
Proof.
  revert c. induction its as [|[i ch] its IH]; intros c; [apply written_refl|].
  cbn [fold_left map snd].
  change (ch :: map snd its) with ([ch] ++ map snd its).
  eapply written_trans; [|apply IH]. cbn [snd fst].
  split; [|split].
  - rewrite dom_insert_L. cbn [map list_to_set].
    rewrite union_empty_r_L, union_comm_L. reflexivity.
  - intros k Hk. cbn [map In] in Hk. rewrite lookup_insert_ne by tauto. reflexivity.
  - intros k e H. destruct (decide (Chunk.id ch = k)) as [<-|Hne].
    + rewrite lookup_insert_eq in H. inversion H; subst. right. exists ch.
      split; [left; reflexivity|]. split; [reflexivity|]. split; reflexivity.
    + rewrite lookup_insert_ne in H by exact Hne. left. exact H.
Qed.

Lemma add_batch_written (c : Engine.Collection) (batch : list Chunk.t) :
  written c (Engine.add_batch embed_documents c batch) batch.
Proof.
  unfold Engine.add_batch.
  pose proof (insert_loop_written
                (embed_documents (map Chunk.contextual_text batch))
                (Py.enumerate batch) c) as H.
  rewrite enumerate_snd in H. exact H.
Qed.

Lemma add_batches_written (bs : list (list Chunk.t)) (c : Engine.Collection) :
  written c (fold_left (Engine.add_batch embed_documents) bs c) (concat bs).
Proof.
  revert c. induction bs as [|b bs IH]; intros c; [apply written_refl|].
  cbn [fold_left concat]. eapply written_trans; [apply add_batch_written|apply IH].
Qed.

Lemma store_chunks_written (c : Engine.Collection) (chunks : list Chunk.t) (force : bool) :
  exists c',
    Engine._store_chunks embed_documents (Some c) chunks force = Some c'
    /\ written (if force then ∅ else c) c' chunks.
Proof.
  unfold Engine._store_chunks. eexists. split; [reflexivity|].
  rewrite <- (fold_left_map_arg (Engine.add_batch embed_documents)
                (fun i => firstn 64 (skipn i chunks))).
  fold (batches 64 chunks).
  pose proof (add_batches_written (batches 64 chunks) (if force then ∅ else c)) as H.
  rewrite batches_concat in H by lia. exact H.
Qed.

End StoreFacts.


(** ** The indexing loop *)

Section IndexLoop.
Variable md5_hex : string -> string.
Variable max_tokens : Z.

(** The chunks and the error message that one file contributes. *)
Definition file_chunks (sd : Engine.SkillDir) (f : Engine.MdFile) : list Chunk.t :=
  if Py.startswith "." (Engine.md_name f) then []
  else match Engine.md_read f with
       | inl text =>
           Chunker.chunk_file md5_hex max_tokens (Engine.md_name f) (Engine.md_path f)
                              text (Engine.sd_name sd) (Engine.sd_domains sd)
       | inr _ => []
       end.

Definition file_errors (sd : Engine.SkillDir) (f : Engine.MdFile) : list string :=
  if Py.startswith "." (Engine.md_name f) then []
  else match Engine.md_read f with
       | inl _ => []
       | inr exn => [Engine.sd_name sd +:+ "/" +:+ Engine.md_name f +:+ ": " +:+ exn]
       end.

(** The chunks and errors of a skill directory (none for a path that is
    not a directory). *)
Definition skill_chunks (sd : Engine.SkillDir) : list Chunk.t :=
  if Engine.sd_is_dir sd then flat_map (file_chunks sd) (Engine.sd_files sd) else [].

Definition skill_errors (sd : Engine.SkillDir) : list string :=
  if Engine.sd_is_dir sd then flat_map (file_errors sd) (Engine.sd_files sd) else [].

Lemma chunk_md_loop (sd : Engine.SkillDir) (files : list Engine.MdFile)
  (st : list Chunk.t * list string) :
  fold_left (Engine.chunk_md md5_hex max_tokens sd) files st
  = (st.1 ++ flat_map (file_chunks sd) files, st.2 ++ flat_map (file_errors sd) files).
Proof.
  revert st. induction files as [|f files IH]; intros [cs es].
  - cbn [fold_left flat_map fst snd]. rewrite !app_nil_r. reflexivity.
  - cbn [fold_left flat_map]. rewrite IH. unfold Engine.chunk_md, file_chunks, file_errors.
    cbn [fst snd].
    destruct (Py.startswith "." (Engine.md_name f)); [reflexivity|].
    destruct (Engine.md_read f); cbn [fst snd app]; rewrite <- ?app_assoc, ?app_nil_r;
      reflexivity.
Qed.

(** One skill directory: its chunks and errors are appended, and it is
    registered with its number of chunks when it has any. *)
Lemma index_step_spec (st : Engine.IndexLoop) (sd : Engine.SkillDir) :
  let st' := Engine.index_step md5_hex max_tokens st sd in
  Engine.all_chunks st' = Engine.all_chunks st ++ skill_chunks sd
  /\ Engine.errors st' = Engine.errors st ++ skill_errors sd
  /\ chunk_counts (Engine.fingerprints st')
     = match skill_chunks sd with
       | [] => chunk_counts (Engine.fingerprints st)
       | cs => OD.set (Engine.sd_name sd) (length cs) (chunk_counts (Engine.fingerprints st))
       end
  /\ Engine.skill_count st'
     = (Engine.skill_count st + if Engine.is_nil (skill_chunks sd) then 0 else 1)%nat.
Proof.
  unfold Engine.index_step, skill_chunks, skill_errors.
  destruct (Engine.sd_is_dir sd); cbn [negb].
  - rewrite chunk_md_loop. cbn [fst snd app].
    destruct (flat_map (file_chunks sd) (Engine.sd_files sd)) as [|c cs];
      cbn [Engine.all_chunks Engine.errors Engine.fingerprints Engine.skill_count
           Engine.is_nil].
    + rewrite app_nil_r, Nat.add_0_r. auto.
    + rewrite chunk_counts_set, Nat.add_1_r. auto.
  - cbn [Engine.is_nil]. rewrite !app_nil_r, Nat.add_0_r. auto.
Qed.

(** The registry read through names and counts, after a loop that started
    from the counts [cnt]. *)
Fixpoint register (cnt : list (string * nat)) (dirs : list Engine.SkillDir)
  : list (string * nat) :=
  match dirs with
  | [] => cnt
  | sd :: dirs' =>
      register (match skill_chunks sd with
                | [] => cnt
                | cs => OD.set (Engine.sd_name sd) (length cs) cnt
                end) dirs'
  end.

Lemma index_loop_spec (dirs : list Engine.SkillDir) (st : Engine.IndexLoop) :
  let st' := fold_left (Engine.index_step md5_hex max_tokens) dirs st in
  Engine.all_chunks st' = Engine.all_chunks st ++ flat_map skill_chunks dirs
  /\ Engine.errors st' = Engine.errors st ++ flat_map skill_errors dirs
  /\ chunk_counts (Engine.fingerprints st')
     = register (chunk_counts (Engine.fingerprints st)) dirs
  /\ Engine.skill_count st'
     = (Engine.skill_count st
        + length (List.filter (fun sd => negb (Engine.is_nil (skill_chunks sd))) dirs))%nat.
Proof.
  revert st. induction dirs as [|sd dirs IH]; intros st.
  - cbn [fold_left flat_map register List.filter length].
    rewrite !app_nil_r, Nat.add_0_r. auto.
  - cbn [fold_left flat_map register List.filter].
    destruct (index_step_spec st sd) as (A & E & F & K).
    destruct (IH (Engine.index_step md5_hex max_tokens st sd)) as (A' & E' & F' & K').
    cbv zeta in *. rewrite A', E', F', K', A, E, F, K, <- !app_assoc.
    repeat (split; [reflexivity|]).
    destruct (Engine.is_nil (skill_chunks sd)); cbn [negb length]; lia.
Qed.

End IndexLoop.

Lemma od_set_fresh {V} (k : string) (v : V) (d : list (string * V)) :
  ~ In k (OD.keys d) -> OD.set k v d = d ++ [(k, v)].
Proof.
  induction d as [|[k' v'] d IH]; intros Hk; [reflexivity|].
  cbn [OD.set app]. cbn [OD.keys map fst In] in Hk.
  destruct (String.eqb_spec k k') as [->|Hne]; [tauto|].
  f_equal. apply IH. unfold OD.keys. tauto.
Qed.

Section IndexConsistency.
Variable md5_hex : string -> string.
Variable embed_documents : list string -> list (list R).
Variable max_tokens : Z.

Let producing (sd : Engine.SkillDir) : bool :=
  negb (Engine.is_nil (skill_chunks md5_hex max_tokens sd)).

Lemma register_fresh (dirs : list Engine.SkillDir) (cnt : list (string * nat)) :
  NoDup (map Engine.sd_name dirs) ->
  (forall sd, In sd dirs -> ~ In (Engine.sd_name sd) (OD.keys cnt)) ->
  register md5_hex max_tokens cnt dirs
  = cnt ++ map (fun sd => (Engine.sd_name sd, length (skill_chunks md5_hex max_tokens sd)))
               (List.filter producing dirs).
Proof.
  revert cnt. induction dirs as [|sd dirs IH]; intros cnt Hnd Hfresh.
  - cbn [register List.filter map]. rewrite app_nil_r. reflexivity.
  - cbn [map] in Hnd. apply NoDup_cons in Hnd as [Hnot Hnd]. rewrite list_elem_of_In in Hnot.
    cbn [register List.filter]. unfold producing at 1.
    destruct (skill_chunks md5_hex max_tokens sd) as [|c cs] eqn:Hsk; cbn [Engine.is_nil negb].
    + apply IH; [exact Hnd|]. intros sd' Hin. apply Hfresh. right. exact Hin.
    + rewrite IH; [| exact Hnd |].
      * rewrite od_set_fresh by (apply Hfresh; left; reflexivity).
        rewrite <- app_assoc. cbn [map app]. rewrite Hsk. reflexivity.
      * intros sd' Hin Hk. rewrite od_set_fresh in Hk by (apply Hfresh; left; reflexivity).
        unfold OD.keys in Hk. rewrite map_app, in_app_iff in Hk. cbn [map fst In] in Hk.
        destruct Hk as [Hk|[Hk|[]]].
        -- apply (Hfresh sd'); [right; exact Hin|exact Hk].
        -- apply Hnot. rewrite Hk. apply in_map. exact Hin.
Qed.

Lemma skill_chunks_skill (sd : Engine.SkillDir) (c : Chunk.t) :
  In c (skill_chunks md5_hex max_tokens sd) -> Chunk.skill c = Engine.sd_name sd.
Proof.
  unfold skill_chunks. destruct (Engine.sd_is_dir sd); [|intros []].
  intros Hin. apply in_flat_map in Hin as (f & _ & Hin). unfold file_chunks in Hin.
  destruct (Py.startswith "." (Engine.md_name f)); [destruct Hin|].
  destruct (Engine.md_read f); [|destruct Hin].
  apply chunk_file_In in Hin as (title & body & sub & _ & _ & ->). reflexivity.
Qed.

Lemma filter_all {A} (p : A -> bool) (l : list A) :
  (forall x, In x l -> p x = true) -> List.filter p l = l.
Proof.
  induction l as [|x l IH]; intros H; [reflexivity|]. cbn [List.filter].
  rewrite (H x) by (left; reflexivity). f_equal. apply IH. intros y Hy. apply H. right. exact Hy.
Qed.

Lemma filter_none {A} (p : A -> bool) (l : list A) :
  (forall x, In x l -> p x = false) -> List.filter p l = [].
Proof.
  induction l as [|x l IH]; intros H; [reflexivity|]. cbn [List.filter].
  rewrite (H x) by (left; reflexivity). apply IH. intros y Hy. apply H. right. exact Hy.
Qed.

(** The chunks of the skill named [n] among the chunks of all the
    directories, when no two directories share a name. *)
Lemma chunks_of_name (dirs : list Engine.SkillDir) (sd : Engine.SkillDir) :
  NoDup (map Engine.sd_name dirs) -> In sd dirs ->
  List.filter (fun c => String.eqb (Chunk.skill c) (Engine.sd_name sd))
              (flat_map (skill_chunks md5_hex max_tokens) dirs)
  = skill_chunks md5_hex max_tokens sd.
Proof.
  induction dirs as [|sd' dirs IH]; intros Hnd Hin; [destruct Hin|].
  cbn [map] in Hnd. apply NoDup_cons in Hnd as [Hnot Hnd]. rewrite list_elem_of_In in Hnot.
  cbn [flat_map]. rewrite List.filter_app. destruct Hin as [->|Hin].
  - rewrite filter_all.
    + rewrite filter_none; [apply app_nil_r|].
      intros c Hc. apply in_flat_map in Hc as (sd2 & Hin2 & Hc).
      apply skill_chunks_skill in Hc. rewrite Hc. apply String.eqb_neq. intros Heq.
      apply Hnot. rewrite <- Heq. apply in_map. exact Hin2.
    + intros c Hc. apply skill_chunks_skill in Hc. rewrite Hc. apply String.eqb_refl.
  - rewrite filter_none.
    + apply IH; assumption.
    + intros c Hc. apply skill_chunks_skill in Hc. rewrite Hc. apply String.eqb_neq.
      intros Heq. apply Hnot. rewrite Heq. apply in_map. exact Hin.
Qed.

(** A store that holds exactly the chunks [chs], each under its id. *)
Definition holds (c : Engine.Collection) (chs : list Chunk.t) : Prop :=
  dom c = list_to_set (map Chunk.id chs)
  /\ forall k e, c !! k = Some e -> exists ch, In ch chs /\ Chunk.id ch = k /\ entry_of ch e.

Lemma written_holds (c : Engine.Collection) (chs : list Chunk.t) :
  written ∅ c chs -> holds c chs.
Proof.
  intros (D & _ & E). split.
  - rewrite D, dom_empty_L, union_empty_l_L. reflexivity.
  - intros k e H. destruct (E k e H) as [H0|H0]; [|exact H0].
    rewrite lookup_empty in H0. discriminate.
Qed.

Lemma NoDup_map_filter {A B} (f : A -> B) (p : A -> bool) (l : list A) :
  NoDup (map f l) -> NoDup (map f (List.filter p l)).
Proof.
  induction l as [|x l IH]; intros H; [constructor|]. cbn [map] in H.
  apply NoDup_cons in H as [Hx H]. rewrite list_elem_of_In in Hx. cbn [List.filter]. destruct (p x).
  - cbn [map]. apply NoDup_cons. split; [|apply IH, H].
    rewrite list_elem_of_In. intros Hin. apply Hx. apply in_map_iff in Hin as (y & Hy & Hin).
    apply List.filter_In in Hin as [Hin _]. rewrite <- Hy. apply in_map. exact Hin.
  - apply IH, H.
Qed.

Lemma NoDup_map_inj_In {A B} (f : A -> B) (l : list A) (x y : A) :
  NoDup (map f l) -> In x l -> In y l -> f x = f y -> x = y.
Proof.
  induction l as [|z l IH]; intros H Hx Hy Heq; [destruct Hx|]. cbn [map] in H.
  apply NoDup_cons in H as [Hz H]. rewrite list_elem_of_In in Hz.
  destruct Hx as [->|Hx], Hy as [->|Hy].
  - reflexivity.
  - exfalso. apply Hz. rewrite Heq. apply in_map. exact Hy.
  - exfalso. apply Hz. rewrite <- Heq. apply in_map. exact Hx.
  - apply IH; assumption.
Qed.

Lemma holds_size (c : Engine.Collection) (chs : list Chunk.t) :
  NoDup (map Chunk.id chs) -> holds c chs -> Engine.count c = length chs.
Proof.
  intros Hnd [D _]. unfold Engine.count. rewrite <- size_dom, D.
  rewrite size_list_to_set by exact Hnd.
  apply length_map.
Qed.

Lemma holds_of_skill (c : Engine.Collection) (chs : list Chunk.t) (n : string) :
  NoDup (map Chunk.id chs) -> holds c chs ->
  size (chunks_of_skill n c)
  = length (List.filter (fun ch => String.eqb (Chunk.skill ch) n) chs).
Proof.
  intros Hnd [D E].
  assert (Hdom : dom (chunks_of_skill n c)
                 = list_to_set (map Chunk.id
                                  (List.filter (fun ch => String.eqb (Chunk.skill ch) n) chs))).
  { apply set_eq. intros k. rewrite elem_of_dom, elem_of_list_to_set, list_elem_of_In.
    unfold chunks_of_skill. split.
    - intros [e He]. apply map_lookup_filter_Some in He as [He Hp]. cbn in Hp.
      destruct (E k e He) as (ch & Hin & Hid & _ & Hm).
      apply in_map_iff. exists ch. split; [exact Hid|]. apply List.filter_In.
      split; [exact Hin|]. apply String.eqb_eq. rewrite Hm in Hp. exact Hp.
    - intros Hin. apply in_map_iff in Hin as (ch & Hid & Hin).
      apply List.filter_In in Hin as [Hin Hs]. apply String.eqb_eq in Hs.
      assert (Hk : k ∈ dom c).
      { rewrite D, elem_of_list_to_set, list_elem_of_In, <- Hid. apply in_map. exact Hin. }
      apply elem_of_dom in Hk as [e He]. exists e. apply map_lookup_filter_Some.
      split; [exact He|]. cbn.
      destruct (E k e He) as (ch' & Hin' & Hid' & _ & Hm).
      assert (ch' = ch) as ->
        by (apply (NoDup_map_inj_In Chunk.id chs); [exact Hnd|exact Hin'|exact Hin|congruence]).
      rewrite Hm. exact Hs. }
  rewrite <- size_dom, Hdom.
  rewrite size_list_to_set by (apply NoDup_map_filter; exact Hnd).
  apply length_map.
Qed.

Lemma list_sum_producing (dirs : list Engine.SkillDir) :
  list_sum (map (fun sd => length (skill_chunks md5_hex max_tokens sd))
                (List.filter producing dirs))
  = length (flat_map (skill_chunks md5_hex max_tokens) dirs).
Proof.
  induction dirs as [|sd dirs IH]; [reflexivity|]. cbn [List.filter flat_map].
  rewrite length_app, <- IH. unfold producing at 1.
  destruct (skill_chunks md5_hex max_tokens sd) as [|c cs] eqn:Hsk;
    cbn [Engine.is_nil negb]; [reflexivity|].
  cbn [map]. rewrite Hsk. reflexivity.
Qed.

End IndexConsistency.

Lemma registry_of_skill (md5_hex : string -> string) (max_tokens : Z)
  (dirs : list Engine.SkillDir) (n : string) :
  NoDup (map Engine.sd_name dirs) ->
  default 0%nat
    (OD.get n (map (fun sd => (Engine.sd_name sd,
                               length (skill_chunks md5_hex max_tokens sd)))
                   (List.filter
                      (fun sd => negb (Engine.is_nil (skill_chunks md5_hex max_tokens sd)))
                      dirs)))
  = length (List.filter (fun ch => String.eqb (Chunk.skill ch) n)
                        (flat_map (skill_chunks md5_hex max_tokens) dirs)).
Proof.
  induction dirs as [|sd dirs IH]; intros Hnd; [reflexivity|].
  cbn [map] in Hnd. apply NoDup_cons in Hnd as [Hnot Hnd]. rewrite list_elem_of_In in Hnot.
  cbn [flat_map List.filter]. rewrite List.filter_app, length_app.
  destruct (skill_chunks md5_hex max_tokens sd) as [|c cs] eqn:Hsk; cbn [Engine.is_nil negb].
  - cbn [List.filter length]. rewrite IH by exact Hnd. reflexivity.
  - cbn [map OD.get]. rewrite Hsk. destruct (String.eqb_spec n (Engine.sd_name sd)) as [->|Hne].
    + cbn [from_option Datatypes.id]. rewrite (filter_all _ (c :: cs)).
      * rewrite filter_none; [cbn [length]; lia|].
        intros ch Hch. apply in_flat_map in Hch as (sd2 & Hin2 & Hch).
        apply skill_chunks_skill in Hch. rewrite Hch. apply String.eqb_neq. intros Heq.
        apply Hnot. rewrite <- Heq. apply in_map. exact Hin2.
      * intros ch Hch. rewrite <- Hsk in Hch. apply skill_chunks_skill in Hch.
        rewrite Hch. apply String.eqb_refl.
    + rewrite IH by exact Hnd. rewrite (filter_none _ (c :: cs)); [reflexivity|].
      intros ch Hch. rewrite <- Hsk in Hch. apply skill_chunks_skill in Hch.
      rewrite Hch. apply String.eqb_neq. congruence.
Qed.

(** X3. Indexing into an engine whose registry and store are empty, when no
    two skill directories share a name and no two chunks share an id: the
    store then holds one entry per chunk, the number of chunks reported, the
    sum of the registered chunk counts and the size of the store agree, and
    for every skill name the number of stored chunks of that skill is the
    chunk count registered for it (none when the skill is not registered). *)
Theorem index_fresh_consistent (md5_hex : string -> string)
  (embed_documents : list string -> list (list R))
  (e : Engine.t) (fs paths : list Engine.SkillDir) (force : bool) :
  let dirs := match paths with [] => fs | _ => paths end in
  let chunks :=
    flat_map (skill_chunks md5_hex (Engine.chunk_max_tokens (Engine.config e))) dirs in
  Engine._fingerprints e = [] ->
  Engine._collection e = Some ∅ ->
  NoDup (map Engine.sd_name dirs) ->
  NoDup (map Chunk.id chunks) ->
  let r := Engine.index md5_hex embed_documents e fs paths force in
  exists c',
    Engine._collection r.2 = Some c'
    /\ Engine.count c' = Engine.st_chunks r.1
    /\ sum_chunk_counts (Engine._fingerprints r.2) = Engine.st_chunks r.1
    /\ Engine.st_chunks r.1 = length chunks
    /\ Engine.st_skills r.1 = Engine.st_fingerprints r.1
    /\ forall n,
         size (chunks_of_skill n c')
         = default 0%nat (OD.get n (chunk_counts (Engine._fingerprints r.2))).
Proof.
  intros dirs chunks Hfp Hc Hnd Hids r.
  set (mt := Engine.chunk_max_tokens (Engine.config e)) in *.
  destruct (index_state md5_hex embed_documents e fs paths force) as [Hcc Hcoll].
  cbv zeta in Hcc, Hcoll. fold dirs mt r in Hcc, Hcoll.
  destruct (index_loop_spec md5_hex mt dirs (Engine.mkLoop [] 0 [] (Engine._fingerprints e)))
    as (A & _ & F & K).
  cbv zeta in A, F, K. cbn [Engine.all_chunks Engine.fingerprints Engine.skill_count app] in A, F, K.
  fold chunks in A. rewrite ?Hfp in A, F, K, Hcc, Hcoll. cbn [chunk_counts map] in F.
  rewrite register_fresh in F; [|exact Hnd|intros sd _ []]. cbn [app] in F.
  rewrite F in Hcc. rewrite A, Hc in Hcoll.
  assert (Hsum : sum_chunk_counts (Engine._fingerprints r.2) = length chunks).
  { unfold sum_chunk_counts. rewrite Hcc, map_map. cbn [snd].
    apply list_sum_producing. }
  assert (Hst : Engine.st_chunks r.1 = length chunks
                /\ Engine.st_skills r.1 = Engine.st_fingerprints r.1).
  { subst r. unfold Engine.index. fold dirs mt. rewrite Hfp, A.
    destruct chunks as [|ch chs] eqn:Hchs; cbn [fst Engine.st_chunks Engine.st_skills
                                                 Engine.st_fingerprints length];
      [split; reflexivity|].
    split; [reflexivity|]. rewrite K.
    rewrite <- (length_map (fun p : string * Engine.SkillFingerprint =>
                              (p.1, Engine.chunk_count p.2))
                           (Engine._embed_fingerprints embed_documents _)).
    fold (chunk_counts (Engine._embed_fingerprints embed_documents
                          (Engine.fingerprints
                             (fold_left (Engine.index_step md5_hex mt) dirs
                                (Engine.mkLoop [] 0 [] []))))).
    rewrite chunk_counts_embed, F, length_map. reflexivity. }
  destruct Hst as [Hst Hsk].
  assert (Hholds : exists c', Engine._collection r.2 = Some c' /\ holds c' chunks).
  { rewrite Hcoll. destruct chunks as [|ch chs] eqn:Hchs.
    - exists ∅. split; [reflexivity|]. split.
      + cbn [map list_to_set]. apply dom_empty_L.
      + intros k x Hk. rewrite lookup_empty in Hk. discriminate.
    - destruct (store_chunks_written embed_documents ∅ (ch :: chs) force) as (c' & -> & W).
      exists c'. split; [reflexivity|]. apply written_holds.
      destruct force; exact W. }
  destruct Hholds as (c' & Hc' & Hh). exists c'.
  split; [exact Hc'|]. split; [rewrite Hst; apply holds_size; assumption|].
  split; [rewrite Hst; exact Hsum|]. split; [exact Hst|]. split; [exact Hsk|].
  intros n. rewrite (holds_of_skill c' chunks n Hids Hh), Hcc.
  symmetry. apply registry_of_skill. exact Hnd.
Qed.

Lemma index_fresh_consistent_witness :
  let r := Engine.index (fun s => s) (fun l => map (fun _ => []) l)
             (Engine.init Engine.default_config)
             [swift_dir "Use actors."; testing_dir] [] false in
  exists c',
    Engine._collection r.2 = Some c'
    /\ Engine.count c' = Engine.st_chunks r.1
    /\ sum_chunk_counts (Engine._fingerprints r.2) = Engine.st_chunks r.1
    /\ Engine.st_chunks r.1
       = length (flat_map (skill_chunks (fun s => s) 512)
                          [swift_dir "Use actors."; testing_dir])
    /\ Engine.st_skills r.1 = Engine.st_fingerprints r.1
    /\ forall n,
         size (chunks_of_skill n c')
         = default 0%nat (OD.get n (chunk_counts (Engine._fingerprints r.2))).
Proof.
  apply (index_fresh_consistent (fun s => s) (fun l => map (fun _ => []) l)
           (Engine.init Engine.default_config)
           [swift_dir "Use actors."; testing_dir] [] false).
  - reflexivity.
  - reflexivity.
  - vm_compute. repeat (apply NoDup_cons; split; [rewrite list_elem_of_In; cbn; intuition discriminate|]). apply NoDup_nil. exact I.
  - vm_compute. repeat (apply NoDup_cons; split; [rewrite list_elem_of_In; cbn; intuition discriminate|]). apply NoDup_nil. exact I.
Defined.



(** ** The context handed to the model *)

(** The tokens that [as_context] charges for a list of results. *)
Definition charged (rs : list Engine.SearchResult) : Z :=
  fold_right (fun r a => (Surface.block_tokens r + a)%Z) 0%Z rs.

Lemma block_tokens_nonneg (r : Engine.SearchResult) : (0 <= Surface.block_tokens r)%Z.
Proof. unfold Surface.block_tokens. lia. Qed.

Lemma charged_nonneg (rs : list Engine.SearchResult) : (0 <= charged rs)%Z.
Proof.
  induction rs as [|r rs IH]; cbn [charged fold_right]; [lia|].
  fold (charged rs). pose proof (block_tokens_nonneg r). lia.
Qed.

Lemma context_blocks_prefix (max_tokens used : Z) (rs : list Engine.SearchResult) :
  exists n,
    (n <= length rs)%nat
    /\ Surface.context_blocks max_tokens used rs = map Surface.block (firstn n rs)
    /\ ((used <= max_tokens)%Z -> (used + charged (firstn n rs) <= max_tokens)%Z)
    /\ (forall r, rs !! n = Some r ->
          (max_tokens < used + charged (firstn n rs) + Surface.block_tokens r)%Z).
Proof.
  revert used. induction rs as [|r rs IH]; intros used.
  - exists 0%nat. cbn. split; [lia|]. split; [reflexivity|]. split; [lia|].
    intros r H. discriminate H.
  - cbn [Surface.context_blocks].
    destruct (Z.ltb_spec max_tokens (used + Surface.block_tokens r)) as [Hlt|Hle].
    + exists 0%nat. cbn [firstn map charged fold_right length]. split; [lia|].
      split; [reflexivity|]. split; [lia|].
      intros r' [= <-]. lia.
    + destruct (IH (used + Surface.block_tokens r)%Z) as (n & Hn & Hb & Hs & Hstop).
      exists (S n). cbn [firstn map charged fold_right length]. fold (charged (firstn n rs)).
      split; [lia|]. split; [rewrite Hb; reflexivity|]. split.
      * intros _. specialize (Hs Hle). lia.
      * intros r' Hr'. cbn in Hr'. specialize (Hstop r' Hr'). lia.
Qed.

(** X6. [as_context] gives the empty string for a response without
    results; otherwise it is the header line followed by the blocks of a
    prefix of the results, in their order. For a non-negative budget the
    tokens charged for the blocks kept ([len(block) // 4] each) do not
    exceed [max_tokens]; and the first result left out, if any, is one whose
    block would exceed the budget - the results after it are dropped as
    well, whatever their size. *)
Theorem as_context_budget (resp : Engine.SearchResponse) (max_tokens : Z) :
  exists n,
    (n <= length (Engine.results resp))%nat
    /\ Surface.as_context resp max_tokens
       = match Engine.results resp with
         | [] => EmptyString
         | rs => Py.join (String Py.newline EmptyString)
                   (Surface.context_header resp :: map Surface.block (firstn n rs))
         end
    /\ ((0 <= max_tokens)%Z ->
        (charged (firstn n (Engine.results resp)) <= max_tokens)%Z)
    /\ (forall r, Engine.results resp !! n = Some r ->
          (max_tokens < charged (firstn n (Engine.results resp)) + Surface.block_tokens r)%Z).
Proof.
  destruct (context_blocks_prefix max_tokens 0 (Engine.results resp))
    as (n & Hn & Hb & Hs & Hstop).
  exists n. split; [exact Hn|]. split.
  - unfold Surface.as_context. destruct (Engine.results resp) as [|r rs]; [reflexivity|].
    rewrite Hb. reflexivity.
  - split; [intros H; specialize (Hs H); lia|].
    intros r Hr. specialize (Hstop r Hr). lia.
Qed.

(** ** Reranking *)

Lemma apply_scores_chunks (rs : list Engine.SearchResult) (scores : list R) :
  map Engine.chunk (Engine.apply_scores rs scores) = map Engine.chunk rs.
Proof.
  revert scores. induction rs as [|r rs IH]; intros [|s scores]; try reflexivity.
  cbn [Engine.apply_scores map Engine.chunk]. f_equal. apply IH.
Qed.

Lemma apply_scores_lookup (rs : list Engine.SearchResult) (scores : list R)
  (r : Engine.SearchResult) :
  length scores = length rs ->
  In r (Engine.apply_scores rs scores) ->
  exists i r0 s,
    rs !! i = Some r0 /\ scores !! i = Some s
    /\ r = Engine.mkResult (Engine.chunk r0) s (Engine.semantic_rank r0)
             (Engine.bm25_rank r0) (Some s).
Proof.
  revert scores. induction rs as [|r0 rs IH]; intros [|s scores] Hlen Hin;
    try discriminate Hlen; [destruct Hin|].
  cbn [Engine.apply_scores] in Hin. destruct Hin as [<-|Hin].
  - exists 0%nat, r0, s. auto.
  - injection Hlen as Hlen. destruct (IH scores Hlen Hin) as (i & r1 & s1 & H1 & H2 & H3).
    exists (S i), r1, s1. auto.
Qed.

(** X7. [_rerank]: when the cross-encoder fails, the results come back as
    they were (order and scores). When it returns scores, the results are
    the same chunks (as a multiset), in non-increasing order of
    [final_score]; and when it returns one score per result, every result
    keeps its chunk and its two ranks and has the cross-encoder's score for
    it both as [rerank_score] and as [final_score]. *)
Theorem rerank_spec (cross_encoder : list (string * string) -> option (list R))
  (q : string) (rs : list Engine.SearchResult) :
  match cross_encoder (map (fun r => (q, Chunk.text (Engine.chunk r))) rs) with
  | None => Engine._rerank cross_encoder q rs = rs
  | Some scores =>
      Permutation (map Engine.chunk (Engine._rerank cross_encoder q rs))
                  (map Engine.chunk rs)
      /\ StronglySorted (fun x y => (Engine.final_score x >= Engine.final_score y)%R)
                        (Engine._rerank cross_encoder q rs)
      /\ (length scores = length rs ->
          forall r, In r (Engine._rerank cross_encoder q rs) ->
            exists i r0 s,
              rs !! i = Some r0 /\ scores !! i = Some s
              /\ r = Engine.mkResult (Engine.chunk r0) s (Engine.semantic_rank r0)
                       (Engine.bm25_rank r0) (Some s))
  end.
Proof.
  unfold Engine._rerank.
  destruct (cross_encoder _) as [scores|]; [|reflexivity].
  split; [|split].
  - rewrite <- (apply_scores_chunks rs scores).
    apply Permutation_map, sorted_desc_perm.
  - apply sorted_desc_R.
  - intros Hlen r Hin. apply sorted_desc_In in Hin.
    apply apply_scores_lookup; assumption.
Qed.

(** ** The semantic cache *)

Section CacheScan.
Variable embed_query : string -> list R.
Variable q_emb : list R.

Let sim_of (cq : string) : R :=
  default 0%R (Engine._cosine q_emb (embed_query cq)).

Lemma cache_scan_unfold (best : R * option nat) (it : string * nat) :
  Engine.cache_scan embed_query q_emb (Some best) it
  = Some (if Rltb best.1 (sim_of it.1) then (sim_of it.1, Some it.2) else best).
Proof.
  unfold Engine.cache_scan, sim_of. cbn [mbind option_bind].
  rewrite cosine_some. cbn [mbind option_bind from_option Datatypes.id].
  destruct (Rltb _ _); reflexivity.
Qed.

(** The state of the scan: the best similarity seen so far, not below the
    start value, and the response it came with. *)
Lemma cache_scan_loop (items : list (string * nat)) (best : R * option nat) :
  exists best',
    fold_left (Engine.cache_scan embed_query q_emb) items (Some best) = Some best'
    /\ (best.1 <= best'.1)%R
    /\ (forall cq r, In (cq, r) items -> (sim_of cq <= best'.1)%R)
    /\ (best' = best
        \/ exists cq r, In (cq, r) items /\ best' = (sim_of cq, Some r)
                        /\ (best.1 < sim_of cq)%R).
Proof.
  revert best. induction items as [|[cq r] items IH]; intros best.
  - exists best. cbn [fold_left]. split; [reflexivity|]. split; [lra|].
    split; [intros ? ? []|]. left. reflexivity.
  - cbn [fold_left]. rewrite cache_scan_unfold. cbn [fst snd].
    destruct (Rltb best.1 (sim_of cq)) eqn:E.
    + apply bool_decide_eq_true in E.
      destruct (IH (sim_of cq, Some r)) as (b' & Hf & Hle & Hall & Hb').
      exists b'. cbn [fst] in Hle. split; [exact Hf|]. split; [lra|]. split.
      * intros cq' r' [[= <- <-]|Hin]; [exact Hle|apply (Hall cq' r' Hin)].
      * right. destruct Hb' as [->|(cq' & r' & Hin & -> & Hlt)].
        -- exists cq, r. split; [left; reflexivity|]. split; [reflexivity|exact E].
        -- exists cq', r'. split; [right; exact Hin|]. split; [reflexivity|].
           cbn [fst] in Hlt. lra.
    + apply bool_decide_eq_false in E.
      destruct (IH best) as (b' & Hf & Hle & Hall & Hb').
      exists b'. split; [exact Hf|]. split; [exact Hle|]. split.
      * intros cq' r' [[= <- <-]|Hin]; [lra|apply (Hall cq' r' Hin)].
      * destruct Hb' as [->|(cq' & r' & Hin & -> & Hlt)]; [left; reflexivity|].
        right. exists cq', r'. split; [right; exact Hin|]. auto.
Qed.

End CacheScan.

(** X8. [_check_cache]: a query that is a key of the cache gets the response
    stored under it. Otherwise a response is returned only if it is stored
    under a cached query whose cosine similarity to the query is positive,
    reaches [cache_similarity] and is the largest among the cached queries;
    and nothing is returned only if no cached query has a positive
    similarity or none reaches the threshold. *)
Theorem check_cache_spec (embed_query : string -> list R) (e : Engine.t) (q : string) :
  let sim := fun cq =>
    default 0%R (Engine._cosine (embed_query q) (embed_query cq)) in
  let threshold := Engine.cache_similarity (Engine.config e) in
  match OD.get q (Engine._cache e), Engine._check_cache embed_query e q with
  | Some r, res => res = Some r
  | None, Some r =>
      exists cq,
        In (cq, r) (Engine._cache e)
        /\ (0 < sim cq)%R /\ (threshold <= sim cq)%R
        /\ forall cq' r', In (cq', r') (Engine._cache e) -> (sim cq' <= sim cq)%R
  | None, None =>
      (forall cq r, In (cq, r) (Engine._cache e) -> (sim cq <= 0)%R)
      \/ (forall cq r, In (cq, r) (Engine._cache e) -> (sim cq < threshold)%R)
  end.
Proof.
  intros sim threshold. unfold Engine._check_cache.
  destruct (OD.get q (Engine._cache e)) as [r|]; [reflexivity|].
  destruct (Engine._cache e) as [|it items] eqn:Hc; [left; intros ? ? []|].
  rewrite <- Hc.
  destruct (cache_scan_loop embed_query (embed_query q) (Engine._cache e) (0%R, None))
    as (best & -> & Hle & Hall & Hb).
  cbn [fst] in Hle. fold threshold.
  destruct (Rleb threshold best.1) eqn:E.
  - apply bool_decide_eq_true in E.
    destruct Hb as [->|(cq & r & Hin & -> & Hlt)].
    + cbn [snd]. left. intros cq r Hin. apply (Hall cq r Hin).
    + cbn [snd fst] in *. exists cq. split; [exact Hin|]. split; [exact Hlt|].
      split; [exact E|]. intros cq' r' Hin'. apply (Hall cq' r' Hin').
  - apply bool_decide_eq_false in E. right. intros cq r Hin.
    specialize (Hall cq r Hin). fold (sim cq) in Hall. lra.
Qed.

(** ** The best [k] of a sorted list *)

Lemma firstn_sorted_best {A} (R : A -> A -> Prop) (l : list A) (n : nat) (x : A) :
  StronglySorted R l -> In x l ->
  In x (firstn n l) \/ (length (firstn n l) = n /\ forall y, In y (firstn n l) -> R y x).
Proof.
  intros Hs. revert n. induction Hs as [|a l Hs IH Ha]; intros n Hin; [destruct Hin|].
  destruct n as [|n]; [right; split; [reflexivity|intros y []]|].
  cbn [firstn]. destruct Hin as [->|Hin]; [left; left; reflexivity|].
  destruct (IH n Hin) as [H|[Hlen Hall]]; [left; right; exact H|].
  right. split; [cbn [length]; lia|].
  intros y [<-|Hy]; [|apply Hall, Hy].
  rewrite Forall_forall in Ha. apply Ha, list_elem_of_In, Hin.
Qed.

Lemma slice_to_sorted_best {A} (R : A -> A -> Prop) (l : list A) (k : Z) (x : A) :
  (0 <= k)%Z -> StronglySorted R l -> In x l ->
  In x (Py.slice_to k l)
  \/ (Z.of_nat (length (Py.slice_to k l)) = k /\ forall y, In y (Py.slice_to k l) -> R y x).
Proof.
  intros Hk Hs Hin. unfold Py.slice_to.
  destruct (Z.leb_spec 0 k) as [_|?]; [|lia].
  destruct (firstn_sorted_best R l (Z.to_nat k) x Hs Hin) as [H|[Hlen Hall]];
    [left; exact H|right]. split; [lia|exact Hall].
Qed.

(** ** The documents that BM25 returns *)

Lemma od_fold_set_fresh {V} (l acc : list (string * V)) :
  NoDup (map fst (acc ++ l)) ->
  fold_left (fun d p => OD.set p.1 p.2 d) l acc = acc ++ l.
Proof.
  revert acc. induction l as [|[k v] l IH]; intros acc Hnd.
  - cbn [fold_left]. rewrite app_nil_r. reflexivity.
  - cbn [fold_left fst snd].
    assert (Hk : ~ In k (OD.keys acc)).
    { rewrite map_app in Hnd. apply NoDup_app in Hnd as (_ & Hd & _).
      intros Hin. apply (Hd k); [apply list_elem_of_In; exact Hin|left]. }
    rewrite od_set_fresh by exact Hk.
    rewrite IH; rewrite <- app_assoc; [reflexivity|exact Hnd].
Qed.

Lemma bm25_term_pos (n df tf dl : nat) (avgdl : R) :
  (df <= n)%nat -> (1 <= tf)%nat -> (0 < avgdl)%R -> (0 < bm25_term n df tf dl avgdl)%R.
Proof.
  intros Hdf Htf Hav. unfold bm25_term.
  apply le_INR in Hdf. apply le_INR in Htf. change (INR 1) with 1%R in Htf.
  pose proof (pos_INR df) as Hdf0. pose proof (pos_INR dl) as Hdl.
  apply Rdiv_lt_0_compat.
  - apply Rmult_lt_0_compat; [|lra].
    rewrite <- ln_1. apply ln_increasing; [lra|].
    assert (0 < (INR n - INR df + 0.5) / (INR df + 0.5))%R
      by (apply Rdiv_lt_0_compat; lra).
    lra.
  - assert (0 <= 0.75 * INR dl / avgdl)%R.
    { apply Rmult_le_pos; [lra|]. apply Rlt_le, Rinv_0_lt_compat, Hav. }
    lra.
Qed.

Lemma doc_freq_le (docs : list (list string)) (t : string) :
  (doc_freq docs t <= length docs)%nat.
Proof. unfold doc_freq. apply length_filter. Qed.

Lemma bm25_sum_sign (toks : list (list string)) (q d : list string) :
  In d toks ->
  (0 <= bm25_sum toks q d)%R
  /\ ((0 < bm25_sum toks q d)%R <-> exists t, In t q /\ In t d).
Proof.
  intros Hd. induction q as [|qt q [IH0 IH]]; cbn [bm25_sum].
  - split; [lra|]. split; [lra|]. intros (t & [] & _).
  - destruct (decide (qt ∈ d)) as [Hin|Hn].
    + assert (0 < bm25_term (length toks) (doc_freq toks qt) (count_occ string_dec d qt)
                            (length d) (INR (total_len toks) / INR (length toks)))%R
        as Hpos.
      { apply bm25_term_pos; [apply doc_freq_le|apply count_occ_pos, Hin|].
        assert (1 <= length d)%nat by (destruct d; [inversion Hin|cbn; lia]).
        pose proof (total_len_In d toks Hd).
        assert (1 <= length toks)%nat by (destruct toks; [destruct Hd|cbn; lia]).
        apply Rdiv_lt_0_compat; apply lt_0_INR; lia. }
      split; [lra|]. split; [|lra].
      intros _. exists qt. split; [left; reflexivity|apply list_elem_of_In, Hin].
    + split; [lra|]. rewrite Rplus_0_l, IH. split.
      * intros (t & Ht & Htd). exists t. split; [right; exact Ht|exact Htd].
      * intros (t & [<-|Ht] & Htd); [exfalso; apply Hn, list_elem_of_In, Htd|].
        exists t. auto.
Qed.

Lemma enumerate_zip {A B C} (f : B -> C) (dflt : A) (ys : list B) (xs pre : list A) :
  length xs = length ys ->
  map (fun it : nat * B => (default dflt ((pre ++ xs) !! it.1), f it.2))
      (combine (seq (length pre) (length ys)) ys)
  = map (fun p : A * B => (p.1, f p.2)) (combine xs ys).
Proof.
  revert xs pre. induction ys as [|y ys IH]; intros [|x xs] pre Hlen;
    try discriminate Hlen; [reflexivity|].
  cbn [length seq combine map fst snd]. f_equal.
  - rewrite list_lookup_middle by reflexivity. reflexivity.
  - injection Hlen as Hlen. specialize (IH xs (pre ++ [x]) Hlen).
    rewrite length_app, Nat.add_1_r, <- app_assoc in IH. exact IH.
Qed.

Lemma map_fst_combine_eq {A B} (xs : list A) (ys : list B) :
  length xs = length ys -> map fst (combine xs ys) = xs.
Proof.
  revert ys. induction xs as [|x xs IH]; intros [|y ys] Hlen; try discriminate Hlen;
    [reflexivity|].
  cbn [combine map fst]. f_equal. apply IH. injection Hlen as Hlen. exact Hlen.
Qed.

Lemma combine_map_snd {A B C D} (f : C -> D) (g : B -> C) (xs : list A) (ys : list B) :
  map (fun p : A * C => (p.1, f p.2)) (combine xs (map g ys))
  = map (fun p : A * B => (p.1, f (g p.2))) (combine xs ys).
Proof.
  revert ys. induction xs as [|x xs IH]; intros [|y ys]; try reflexivity.
  cbn [map combine fst snd]. f_equal. apply IH.
Qed.

Section Hits.
Variables docs ids : list string.
Variable q : list string.
Let toks := map BM25._tokenize docs.
Let self := BM25.fit BM25.init docs ids.

(** The ids and scores of the documents with a positive score, in the
    order of the documents. *)
Definition bm25_hits : list (string * R) :=
  List.filter (fun p : string * R => Rltb 0 p.2)
    (map (fun p : string * string => (p.1, bm25_sum toks q (BM25._tokenize p.2)))
         (combine ids docs)).

Let upd (sc : list (string * R)) (it : nat * list string) : list (string * R) :=
  if Rltb 0 (bm25_sum toks q it.2)
  then OD.set (default EmptyString (ids !! it.1)) (bm25_sum toks q it.2) sc
  else sc.

Lemma score_loop_fold (its : list (nat * list string)) (scores : list (string * R)) :
  length ids = length docs ->
  (forall it, In it its -> toks !! it.1 = Some it.2) ->
  fold_left (BM25.score_step self q) its (Some scores) = Some (fold_left upd its scores).
Proof.
  intros Hlen. revert scores. induction its as [|[i d] its IH]; intros scores Hits;
    [reflexivity|].
  cbn [fold_left].
  assert (toks !! i = Some d) as Hid by (apply (Hits (i, d)); left; reflexivity).
  assert (In d toks) as Hd by (eapply list_elem_of_In, list_elem_of_lookup_2, Hid).
  assert (BM25.score_step self q (Some scores) (i, d) = Some (upd scores (i, d))) as ->.
  { unfold BM25.score_step, upd. cbn [mbind option_bind snd fst].
    unfold self, toks. rewrite (doc_score_spec docs ids q d Hd).
    cbn [mbind option_bind]. fold toks.
    destruct (Rltb 0 (bm25_sum toks q d)); [|reflexivity].
    change (BM25._ids (BM25.fit BM25.init docs ids)) with ids.
    assert (is_Some (ids !! i)) as [cid ->]; [|reflexivity].
    apply lookup_lt_is_Some. rewrite Hlen.
    apply lookup_lt_Some in Hid. unfold toks in Hid. rewrite length_map in Hid. exact Hid. }
  apply IH. intros it Hit. apply Hits. right. exact Hit.
Qed.

Lemma upd_fold (its : list (nat * list string)) (scores : list (string * R)) :
  fold_left upd its scores
  = fold_left (fun d (p : string * R) => OD.set p.1 p.2 d)
      (List.filter (fun p : string * R => Rltb 0 p.2)
         (map (fun it : nat * list string =>
                 (default EmptyString (ids !! it.1), bm25_sum toks q it.2)) its))
      scores.
Proof.
  revert scores. induction its as [|[i d] its IH]; intros scores; [reflexivity|].
  cbn [fold_left map List.filter fst snd]. unfold upd at 2. cbn [fst snd].
  destruct (Rltb 0 (bm25_sum toks q d)); cbn [fold_left fst snd]; apply IH.
Qed.

Lemma hits_enumerate :
  length ids = length docs ->
  List.filter (fun p : string * R => Rltb 0 p.2)
    (map (fun it : nat * list string =>
            (default EmptyString (ids !! it.1), bm25_sum toks q it.2))
         (Py.enumerate toks))
  = bm25_hits.
Proof.
  intros Hlen. unfold bm25_hits, Py.enumerate. f_equal.
  pose proof (enumerate_zip (bm25_sum toks q) EmptyString toks ids []) as H.
  cbn [app length] in H. rewrite H by (unfold toks; rewrite length_map; exact Hlen).
  unfold toks at 2. apply combine_map_snd.
Qed.

Lemma hits_NoDup : length ids = length docs -> NoDup ids -> NoDup (map fst bm25_hits).
Proof.
  intros Hlen Hnd. unfold bm25_hits. apply NoDup_map_filter.
  rewrite map_map. cbn [fst].
  change (fun x : string * string => x.1) with (@fst string string).
  rewrite map_fst_combine_eq by exact Hlen. exact Hnd.
Qed.

End Hits.

Lemma In_combine_lookup {A B} (xs : list A) (ys : list B) (x : A) (y : B) :
  In (x, y) (combine xs ys) <-> exists i, xs !! i = Some x /\ ys !! i = Some y.
Proof.
  revert ys. induction xs as [|a xs IH]; intros [|b ys]; cbn [combine In].
  - split; [tauto|]. intros (i & H & _). discriminate H.
  - split; [tauto|]. intros (i & H & _). discriminate H.
  - split; [tauto|]. intros (i & _ & H). discriminate H.
  - rewrite IH. split.
    + intros [[= <- <-]|(i & H1 & H2)]; [exists 0%nat; auto|exists (S i); auto].
    + intros ([|i] & H1 & H2); cbn in H1, H2; [left; congruence|right; eauto].
Qed.

(** X9. BM25 on a corpus fitted with pairwise distinct ids, one per
    document: a document has a positive score exactly when it shares a word
    with the query, [score] returns the first [top_k] of those documents
    sorted by score (ties in document order), and for a non-negative
    [top_k] every document that shares a word with the query is either
    returned or outscored (or tied) by [top_k] returned documents. *)
Theorem bm25_score_ranking (docs ids : list string) (query : string) (top_k : Z) :
  length ids = length docs ->
  NoDup ids ->
  let toks := map BM25._tokenize docs in
  let qt := BM25._tokenize query in
  let hits := bm25_hits docs ids qt in
  exists res,
    BM25.score (BM25.fit BM25.init docs ids) query top_k = Some res
    /\ res = Py.slice_to top_k (sorted_desc snd Rltb hits)
    /\ (forall cid s,
          In (cid, s) hits
          <-> exists i text,
                ids !! i = Some cid /\ docs !! i = Some text
                /\ s = bm25_sum toks qt (BM25._tokenize text)
                /\ exists t, In t qt /\ In t (BM25._tokenize text))
    /\ ((0 <= top_k)%Z ->
        forall cid s, In (cid, s) hits ->
          In (cid, s) res
          \/ (Z.of_nat (length res) = top_k
              /\ forall cid' s', In (cid', s') res -> (s' >= s)%R)).
Proof.
  intros Hlen Hnd toks qt hits.
  eexists. split; [|split; [reflexivity|split]].
  - subst toks. set (toks := map BM25._tokenize docs).
    unfold BM25.score. fold qt.
    change (combine (seq 0 (length (BM25._docs (BM25.fit BM25.init docs ids))))
                    (BM25._docs (BM25.fit BM25.init docs ids)))
      with (Py.enumerate toks).
    rewrite (score_loop_fold docs ids qt (Py.enumerate toks) [] Hlen).
    + cbn [mbind option_bind]. rewrite upd_fold. subst toks.
      rewrite (hits_enumerate docs ids qt Hlen).
      rewrite od_fold_set_fresh by (apply hits_NoDup; assumption).
      reflexivity.
    + intros [i d] Hin. apply enumerate_lookup in Hin. exact Hin.
  - intros cid s. unfold hits, bm25_hits. rewrite List.filter_In, in_map_iff. split.
    + intros [([c text] & [= <- <-] & Hin) Hpos]. cbn [fst snd] in *.
      apply In_combine_lookup in Hin as (i & Hi & Ht).
      exists i, text. split; [exact Hi|]. split; [exact Ht|]. split; [reflexivity|].
      apply bool_decide_eq_true in Hpos.
      apply (bm25_sum_sign toks qt (BM25._tokenize text)); [|exact Hpos].
      apply in_map. eapply list_elem_of_In, list_elem_of_lookup_2, Ht.
    + intros (i & text & Hi & Ht & -> & Hshare). split.
      * exists (cid, text). split; [reflexivity|].
        apply In_combine_lookup. exists i. auto.
      * cbn [snd]. apply bool_decide_eq_true.
        apply (bm25_sum_sign toks qt (BM25._tokenize text)); [|exact Hshare].
        apply in_map. eapply list_elem_of_In, list_elem_of_lookup_2, Ht.
  - intros Hk cid s Hin.
    destruct (slice_to_sorted_best (fun x y : string * R => (x.2 >= y.2)%R)
                (sorted_desc snd Rltb hits) top_k (cid, s) Hk)
      as [H|[H1 H2]].
    + apply sorted_desc_R.
    + apply sorted_desc_In, Hin.
    + left. exact H.
    + right. split; [exact H1|]. intros c' s' H'. apply (H2 (c', s') H').
Qed.

Lemma bm25_score_ranking_witness :
  exists res,
    BM25.score (BM25.fit BM25.init ["actors avoid data races"; "use async let"]
                         ["c1"; "c2"])
               "data races in actors" 1 = Some res
    /\ res = Py.slice_to 1
               (sorted_desc snd Rltb
                  (bm25_hits ["actors avoid data races"; "use async let"] ["c1"; "c2"]
                             (BM25._tokenize "data races in actors"))).
Proof.
  destruct (bm25_score_ranking ["actors avoid data races"; "use async let"] ["c1"; "c2"]
              "data races in actors" 1)
    as (res & H1 & H2 & _).
  - reflexivity.
  - repeat (apply NoDup_cons; split; [rewrite list_elem_of_In; cbn; intuition discriminate|]).
    apply NoDup_nil. exact I.
  - exists res. split; [exact H1|exact H2].
Defined.

(** ** Building the concept graph *)

Lemma edges_of_add_edge (a b : string) (w : Q) (g : ConceptGraph.t) (k : string) :
  default [] (ConceptGraph.add_edge a b w (ConceptGraph.edges g) !! k)
  = if decide (k = a) then edges_of g a ++ [(b, w)] else edges_of g k.
Proof.
  unfold ConceptGraph.add_edge, edges_of. destruct (decide (k = a)) as [->|Hne].
  - rewrite lookup_insert_eq. reflexivity.
  - rewrite lookup_insert_ne by congruence. reflexivity.
Qed.

Lemma edges_of_add_relation (a b : string) (w : Q) (g : ConceptGraph.t)
  (k n : string) (v : Q) :
  In (n, v) (edges_of (ConceptGraph.add_relation a b w g) k)
  <-> In (n, v) (edges_of g k)
      \/ (v = w /\ ((k = Py.lower a /\ n = Py.lower b)
                    \/ (k = Py.lower b /\ n = Py.lower a))).
Proof.
  unfold ConceptGraph.add_relation. cbv zeta.
  set (la := Py.lower a). set (lb := Py.lower b).
  unfold edges_of at 1. cbn [ConceptGraph.edges].
  set (g1 := ConceptGraph.mk (ConceptGraph.add_edge la lb w (ConceptGraph.edges g))
                             (ConceptGraph.aliases g)).
  change (ConceptGraph.add_edge la lb w (ConceptGraph.edges g))
    with (ConceptGraph.edges g1).
  rewrite (edges_of_add_edge lb la w g1 k).
  assert (H1 : forall k', edges_of g1 k'
                          = if decide (k' = la) then edges_of g la ++ [(lb, w)]
                            else edges_of g k').
  { intros k'. unfold edges_of at 1. subst g1. cbn [ConceptGraph.edges].
    apply edges_of_add_edge. }
  destruct (decide (k = lb)) as [->|Hkb].
  - rewrite in_app_iff, H1. cbn [In].
    destruct (decide (lb = la)) as [Hba|Hba].
    + rewrite in_app_iff. cbn [In]. rewrite Hba. intuition congruence.
    + intuition congruence.
  - rewrite H1. destruct (decide (k = la)) as [->|Hka].
    + rewrite in_app_iff. cbn [In]. intuition congruence.
    + intuition congruence.
Qed.

(** The graph that a sequence of [add_relation] calls builds on [g]. *)
Definition add_relations (rels : list (string * string * Q)) (g : ConceptGraph.t)
  : ConceptGraph.t :=
  fold_left (fun g (r : string * string * Q) => ConceptGraph.add_relation r.1.1 r.1.2 r.2 g)
            rels g.

Definition add_aliases (als : list (string * string)) (g : ConceptGraph.t)
  : ConceptGraph.t :=
  fold_left (fun g (a : string * string) => ConceptGraph.add_alias a.1 a.2 g) als g.

Lemma edges_of_add_relations (rels : list (string * string * Q)) (g : ConceptGraph.t)
  (k n : string) (v : Q) :
  In (n, v) (edges_of (add_relations rels g) k)
  <-> In (n, v) (edges_of g k)
      \/ exists a b, In (a, b, v) rels
                     /\ ((k = Py.lower a /\ n = Py.lower b)
                         \/ (k = Py.lower b /\ n = Py.lower a)).
Proof.
  revert g. induction rels as [|[[a b] w] rels IH]; intros g.
  - cbn [add_relations fold_left]. split; [tauto|]. intros [H|(a & b & [] & _)]. exact H.
  - unfold add_relations. cbn [fold_left fst snd]. fold (add_relations rels).
    rewrite IH, edges_of_add_relation. split.
    + intros [[H|[-> H]]|(a' & b' & Hin & H)].
      * left. exact H.
      * right. exists a, b. split; [left; reflexivity|exact H].
      * right. exists a', b'. split; [right; exact Hin|exact H].
    + intros [Hold|(a' & b' & [Heq|Hin] & Hk)].
      * left. left. exact Hold.
      * injection Heq as -> -> ->. left. right. split; [reflexivity|exact Hk].
      * right. exists a', b'. split; [exact Hin|exact Hk].
Qed.

Lemma edges_of_add_aliases (als : list (string * string)) (g : ConceptGraph.t) (k : string) :
  edges_of (add_aliases als g) k = edges_of g k.
Proof.
  revert g. induction als as [|[a c] als IH]; intros g; [reflexivity|].
  unfold add_aliases. cbn [fold_left]. fold (add_aliases als). rewrite IH. reflexivity.
Qed.

(** X10. [add_relation] records every relation in both directions under the
    lowercased names: after any sequence of [add_relation] calls on a graph,
    the edges of a concept are the former ones together with one edge per
    added relation that names the concept on either side. Hence a graph
    built from the empty one is symmetric, and so is the graph of
    [get_swift_concept_graph], whose aliases add no edge. *)
Theorem add_relation_symmetric (rels : list (string * string * Q)) (g : ConceptGraph.t) :
  (forall k n v,
     In (n, v) (edges_of (add_relations rels g) k)
     <-> In (n, v) (edges_of g k)
         \/ exists a b, In (a, b, v) rels
                        /\ ((k = Py.lower a /\ n = Py.lower b)
                            \/ (k = Py.lower b /\ n = Py.lower a)))
  /\ (forall k n v,
        In (n, v) (edges_of (add_relations rels ConceptGraph.empty) k)
        -> In (k, v) (edges_of (add_relations rels ConceptGraph.empty) n))
  /\ (forall k n v,
        In (n, v) (edges_of ConceptGraph.get_swift_concept_graph k)
        -> In (k, v) (edges_of ConceptGraph.get_swift_concept_graph n)).
Proof.
  assert (Hsym : forall rels' k n v,
             In (n, v) (edges_of (add_relations rels' ConceptGraph.empty) k)
             -> In (k, v) (edges_of (add_relations rels' ConceptGraph.empty) n)).
  { intros rels' k n v H. apply edges_of_add_relations in H.
    apply edges_of_add_relations. destruct H as [H|(a & b & Hin & H)].
    - unfold edges_of, ConceptGraph.empty in H. cbn in H. rewrite lookup_empty in H.
      destruct H.
    - right. exists a, b. split; [exact Hin|tauto]. }
  split; [intros k n v; apply edges_of_add_relations|].
  split; [apply Hsym|].
  intros k n v.
  change ConceptGraph.get_swift_concept_graph
    with (add_aliases ConceptGraph.swift_aliases
            (add_relations ConceptGraph.swift_relations ConceptGraph.empty)).
  rewrite !edges_of_add_aliases. apply Hsym.
Qed.

(** ** Query tokens and aliases *)

(** A match of [[@#]?\w+]: word characters, after at most one sigil. *)
Definition sigil_token (t : string) : bool :=
  match t with
  | EmptyString => false
  | String c r =>
      all_chars Py.is_word r && (Py.is_word c || (ConceptGraph.is_sigil c && Py.truthy r))
  end.

Lemma sigil_tokens_shape (s : string) :
  Forall (fun t => sigil_token t = true) (ConceptGraph.sigil_tokens s)
  /\ (forall c r, s = String c r -> Py.is_word c = true ->
        exists w ws, ConceptGraph.sigil_tokens s = w :: ws
                     /\ all_chars Py.is_word w = true /\ Py.truthy w = true).
Proof.
  induction s as [|c s' [IH IHhead]].
  - split; [constructor|]. intros c r H. discriminate H.
  - cbn [ConceptGraph.sigil_tokens]. destruct s' as [|c' r'].
    + destruct (Py.is_word c) eqn:Ec.
      * split.
        -- constructor; [|constructor]. cbn. rewrite Ec. reflexivity.
        -- intros c0 r0 [= <- <-] _. eexists _, _. split; [reflexivity|].
           cbn. rewrite Ec. auto.
      * split; [constructor|]. intros c0 r0 [= <- <-] H. congruence.
    + destruct (Py.is_word c) eqn:Ec.
      * destruct (Py.is_word c') eqn:Ec'.
        -- destruct (IHhead c' r' eq_refl Ec') as (w & ws & Hw & Hall & Hne).
           rewrite Hw in IH |- *. apply Forall_cons in IH as [_ IH]. split.
           ++ constructor; [|exact IH]. cbn [sigil_token]. rewrite Hall, Ec. reflexivity.
           ++ intros c0 r0 [= <- <-] _. eexists _, _. split; [reflexivity|].
              cbn [all_chars Py.truthy]. rewrite Ec, Hall. auto.
        -- split.
           ++ constructor; [|exact IH]. cbn. rewrite Ec. reflexivity.
           ++ intros c0 r0 [= <- <-] _. eexists _, _. split; [reflexivity|].
              cbn. rewrite Ec. auto.
      * split; [|intros c0 r0 [= <- <-] H; congruence].
        destruct (ConceptGraph.is_sigil c && Py.is_word c') eqn:Es; [|exact IH].
        apply andb_true_iff in Es as [Es Ec'].
        destruct (IHhead c' r' eq_refl Ec') as (w & ws & Hw & Hall & Hne).
        rewrite Hw in IH |- *. apply Forall_cons in IH as [_ IH].
        constructor; [|exact IH]. cbn [sigil_token]. rewrite Hall, Es, Hne.
        rewrite orb_true_r. reflexivity.
Qed.

Lemma fold_left_pointwise {A B} (f h : A -> B -> A) (l : list B) (a : A) :
  (forall a x, f a x = h a x) -> fold_left f l a = fold_left h l a.
Proof.
  intros H. revert a. induction l as [|x l IH]; intros a; [reflexivity|].
  cbn [fold_left]. rewrite H. apply IH.
Qed.

(** [_collect_neighbors] reads the edges of the graph only. *)
Lemma collect_edges_only (g g' : ConceptGraph.t) (depth : nat) (concept : string)
  (min_weight : Q) (st : list (string * Q) * gset string) :
  ConceptGraph.edges g' = ConceptGraph.edges g ->
  ConceptGraph._collect_neighbors g' depth concept min_weight st
  = ConceptGraph._collect_neighbors g depth concept min_weight st.
Proof.
  intros He. revert concept min_weight st.
  induction depth as [|d IH]; intros concept min_weight st; [reflexivity|].
  cbn [ConceptGraph._collect_neighbors]. rewrite He.
  destruct (decide (concept ∈ st.2)); [reflexivity|].
  apply fold_left_pointwise. intros a e.
  destruct (Qle_bool min_weight e.2); [|reflexivity].
  destruct d; [reflexivity|]. apply IH.
Qed.

Lemma resolve_add_alias (g : ConceptGraph.t) (alias canonical t : string) :
  ConceptGraph.resolve (ConceptGraph.add_alias alias canonical g) t
  = if decide (t = Py.lower alias) then Py.lower canonical else ConceptGraph.resolve g t.
Proof.
  unfold ConceptGraph.resolve, ConceptGraph.add_alias. cbn [ConceptGraph.aliases].
  destruct (decide (t = Py.lower alias)) as [->|Hne].
  - rewrite lookup_insert_eq. reflexivity.
  - rewrite lookup_insert_ne by congruence. reflexivity.
Qed.

(** X11. Every token that [expand] takes from a query is a run of word
    characters after at most one [@] or [#]. [add_alias] makes the
    lowercased alias resolve to the lowercased canonical name and changes
    the resolution of no other token. So an alias whose lowercased name is
    not such a token - one that holds a space or a slash, as the alias
    [async/await] of [get_swift_concept_graph] does - is never resolved:
    adding it changes no expansion. *)
Theorem alias_resolution (g : ConceptGraph.t) (alias canonical : string) :
  let g' := ConceptGraph.add_alias alias canonical g in
  (forall s, Forall (fun t => sigil_token t = true) (ConceptGraph.sigil_tokens s))
  /\ ConceptGraph.resolve g' (Py.lower alias) = Py.lower canonical
  /\ (forall t, t <> Py.lower alias -> ConceptGraph.resolve g' t = ConceptGraph.resolve g t)
  /\ (sigil_token (Py.lower alias) = false ->
      forall query max_expansions min_weight depth,
        ConceptGraph.expand g' query max_expansions min_weight depth
        = ConceptGraph.expand g query max_expansions min_weight depth)
  /\ sigil_token (Py.lower "async/await") = false.
Proof.
  intros g'. split; [intros s; apply sigil_tokens_shape|].
  split; [subst g'; rewrite resolve_add_alias; destruct (decide _); [reflexivity|tauto]|].
  split; [intros t Ht; subst g'; rewrite resolve_add_alias;
          destruct (decide _); [tauto|reflexivity]|].
  split; [|vm_compute; reflexivity].
  intros Hdead query max_expansions min_weight depth.
  unfold ConceptGraph.expand, ConceptGraph.expand_ranked. cbv zeta.
  set (qt := (list_to_set (ConceptGraph.sigil_tokens (Py.lower query)) : gset string)).
  assert (Hres : (set_map (ConceptGraph.resolve g') qt : gset string)
                 = set_map (ConceptGraph.resolve g) qt).
  { apply set_eq. intros x. rewrite !elem_of_map.
    assert (Hq : forall t, t ∈ qt -> ConceptGraph.resolve g' t = ConceptGraph.resolve g t).
    { intros t Ht. subst g'. rewrite resolve_add_alias.
      destruct (decide (t = Py.lower alias)) as [->|_]; [|reflexivity].
      exfalso. apply elem_of_list_to_set in Ht.
      destruct (sigil_tokens_shape (Py.lower query)) as [Hall _].
      rewrite Forall_forall in Hall. specialize (Hall _ Ht). congruence. }
    split; intros (t & -> & Ht); exists t; (split; [|exact Ht]);
      [apply Hq, Ht|symmetry; apply Hq, Ht]. }
  rewrite Hres.
  rewrite (fold_left_pointwise
             (fun c token =>
                (ConceptGraph._collect_neighbors g' (Z.to_nat depth) token min_weight
                   (c, ∅)).1)
             (fun c token =>
                (ConceptGraph._collect_neighbors g (Z.to_nat depth) token min_weight
                   (c, ∅)).1)).
  - reflexivity.
  - intros c token. f_equal. apply collect_edges_only. reflexivity.
Qed.

(** ** What an expansion is connected to *)

(** [reach g depth min_weight c n]: [n] is joined to [c] by a path of at
    most [depth] edges, the first of weight at least [min_weight] and each
    further one of weight at least 0.7 times the bound of the one before. *)
Inductive reach (g : ConceptGraph.t) : nat -> Q -> string -> string -> Prop :=
| reach_edge (d : nat) (mw : Q) (c n : string) (w : Q) :
    In (n, w) (edges_of g c) -> (mw <= w)%Q -> reach g (S d) mw c n
| reach_step (d : nat) (mw : Q) (c m n : string) (w : Q) :
    In (m, w) (edges_of g c) -> (mw <= w)%Q ->
    reach g (S d) (mw * 0.7)%Q m n -> reach g (S (S d)) mw c n.

Lemma collect_reach (g : ConceptGraph.t) (depth : nat) (concept : string)
  (min_weight : Q) (st : list (string * Q) * gset string) (k : string) :
  In k (OD.keys (ConceptGraph._collect_neighbors g depth concept min_weight st).1) ->
  In k (OD.keys st.1) \/ reach g depth min_weight concept k.
Proof.
  revert concept min_weight st.
  induction depth as [|d IH]; intros concept min_weight st; [left; assumption|].
  cbn [ConceptGraph._collect_neighbors].
  destruct (decide (concept ∈ st.2)); [left; assumption|].
  fold (edges_of g concept).
  assert (Hes : forall e, In e (edges_of g concept) -> In e (edges_of g concept))
    by (intros; assumption).
  revert Hes. generalize (edges_of g concept) at 1 3. intros es.
  change (OD.keys st.1) with (OD.keys (st.1, {[concept]} ∪ st.2).1).
  generalize (st.1, {[concept]} ∪ st.2). clear st n.
  induction es as [|e es IHes]; intros st0 Hes Hk; [left; exact Hk|].
  cbn [fold_left] in Hk. apply IHes in Hk; [|intros e' He'; apply Hes; right; exact He'].
  destruct Hk as [Hk|Hk]; [|right; exact Hk].
  assert (He : In e (edges_of g concept)) by (apply Hes; left; reflexivity).
  destruct (Qle_bool min_weight e.2) eqn:Eq; [|left; exact Hk].
  apply Qle_bool_iff in Eq. destruct e as [n w]. cbn [fst snd] in *.
  destruct d as [|d'].
  - cbn [fst] in Hk. apply od_keys_set in Hk as [->|Hk]; [|left; exact Hk].
    right. eapply reach_edge; eassumption.
  - apply IH in Hk as [Hk|Hk].
    + cbn [fst] in Hk. apply od_keys_set in Hk as [->|Hk]; [|left; exact Hk].
      right. eapply reach_edge; eassumption.
    + right. eapply reach_step; eassumption.
Qed.

Lemma candidates_reach (g : ConceptGraph.t) (depth : nat) (min_weight : Q)
  (seeds : list string) (d : list (string * Q)) (k : string) :
  In k (OD.keys
          (fold_left
             (fun c token =>
                (ConceptGraph._collect_neighbors g depth token min_weight (c, ∅)).1)
             seeds d)) ->
  In k (OD.keys d) \/ exists seed, In seed seeds /\ reach g depth min_weight seed k.
Proof.
  revert d. induction seeds as [|s seeds IH]; intros d Hk; [left; exact Hk|].
  cbn [fold_left] in Hk. apply IH in Hk as [Hk|(seed & Hin & Hr)].
  - apply collect_reach in Hk as [Hk|Hk]; [left; exact Hk|].
    right. exists s. split; [left; reflexivity|exact Hk].
  - right. exists seed. split; [right; exact Hin|exact Hr].
Qed.

Lemma reach_depth_pos (g : ConceptGraph.t) (d : nat) (mw : Q) (c n : string) :
  reach g d mw c n -> (0 < d)%nat /\ exists m w, In (n, w) (edges_of g m).
Proof.
  induction 1 as [d mw c n w Hin Hw|d mw c m n w Hin Hw Hr [_ IH]].
  - split; [lia|]. eauto.
  - split; [lia|exact IH].
Qed.

(** X12. At any depth, every term that [expand] returns is joined to a seed
    (an alias-resolved token of the lowercased query) by a path of at most
    [depth] edges of the graph, the first of weight at least [min_weight],
    each further one at least 0.7 times the bound before it. So a depth
    that is not positive, or seeds without edges, give no expansion. *)
Theorem expand_reachable (g : ConceptGraph.t) (query : string) (max_expansions : Z)
  (min_weight : Q) (depth : Z) :
  let seeds := map (ConceptGraph.resolve g) (ConceptGraph.sigil_tokens (Py.lower query)) in
  let terms := ConceptGraph.expand g query max_expansions min_weight depth in
  Forall (fun t => exists seed,
                     In seed seeds /\ reach g (Z.to_nat depth) min_weight seed t) terms
  /\ ((depth <= 0)%Z -> terms = [])
  /\ ((forall seed, In seed seeds -> edges_of g seed = []) -> terms = []).
Proof.
  intros seeds terms.
  assert (Hall : Forall (fun t => exists seed,
                     In seed seeds /\ reach g (Z.to_nat depth) min_weight seed t) terms).
  { apply Forall_forall. intros t Ht. apply list_elem_of_In in Ht.
    subst terms. unfold ConceptGraph.expand in Ht.
    apply in_map_iff in Ht as ([t' w] & <- & Ht). cbn [fst].
    unfold ConceptGraph.expand_ranked in Ht. cbv zeta in Ht.
    apply slice_to_In in Ht.
    apply (proj1 (sorted_desc_In snd ConceptGraph.Qltb _ _)) in Ht.
    apply pop_all_In in Ht as [Ht _]; [|apply candidates_NoDup; constructor].
    assert (Hk : In t' (OD.keys
               (fold_left
                  (fun c token =>
                     (ConceptGraph._collect_neighbors g (Z.to_nat depth) token min_weight
                        (c, ∅)).1)
                  (elements (set_map (ConceptGraph.resolve g)
                               (list_to_set (ConceptGraph.sigil_tokens (Py.lower query))
                                  : gset string) : gset string)) []))).
    { unfold OD.keys. apply in_map_iff. exists (t', w). split; [reflexivity|exact Ht]. }
    apply candidates_reach in Hk as [[]|(seed & Hin & Hr)].
    exists seed. split; [|exact Hr]. apply seeds_elements, Hin. }
  split; [exact Hall|]. split.
  - intros Hd. destruct terms as [|t ts]; [reflexivity|].
    apply Forall_cons in Hall as [(seed & _ & Hr) _].
    apply reach_depth_pos in Hr as [Hpos _]. lia.
  - intros Hno. destruct terms as [|t ts]; [reflexivity|].
    apply Forall_cons in Hall as [(seed & Hin & Hr) _].
    specialize (Hno seed Hin).
    inversion Hr as [d mw c n w He Hw|d mw c m n w He Hw Hr']; subst;
      rewrite Hno in He; destruct He.
Qed.

Lemma od_pop_keeps {V} (t k : string) (v : V) (d : list (string * V)) :
  k <> t -> In (k, v) d -> In (k, v) (OD.pop t d).
Proof.
  intros Hne. induction d as [|[k' v'] d IH]; [tauto|].
  cbn [OD.pop]. destruct (String.eqb_spec t k') as [->|Hk'].
  - intros [[= <- <-]|Hin]; [congruence|exact Hin].
  - intros [Heq|Hin]; [left; exact Heq|right; apply IH, Hin].
Qed.

Lemma pop_all_keeps {V} (ts : list string) (d : list (string * V)) (k : string) (v : V) :
  ~ In k ts -> In (k, v) d -> In (k, v) (fold_left (fun c t => OD.pop t c) ts d).
Proof.
  revert d. induction ts as [|t ts IH]; intros d Hk Hin; [exact Hin|].
  cbn [fold_left]. apply IH; [intros H; apply Hk; right; exact H|].
  apply od_pop_keeps; [intros ->; apply Hk; left; reflexivity|exact Hin].
Qed.

(** X13. At depth 1, with a threshold and a limit that are not negative:
    a concept joined to a seed by an edge of weight at least [min_weight],
    and that is neither a token of the query nor a seed, is returned with a
    weight at least that of the edge - unless [max_expansions] terms are
    returned, each with a weight at least that of the edge. *)
Theorem expand_best (g : ConceptGraph.t) (query : string) (max_expansions : Z)
  (min_weight : Q) (seed c : string) (w : Q) :
  let tokens := ConceptGraph.sigil_tokens (Py.lower query) in
  let seeds := map (ConceptGraph.resolve g) tokens in
  let ranked := ConceptGraph.expand_ranked g query max_expansions min_weight 1 in
  (0 <= min_weight)%Q -> (0 <= max_expansions)%Z ->
  In seed seeds -> In (c, w) (edges_of g seed) -> (min_weight <= w)%Q ->
  ~ In c tokens -> ~ In c seeds ->
  ConceptGraph.expand g query max_expansions min_weight 1 = map fst ranked
  /\ ((exists w', In (c, w') ranked /\ (w <= w')%Q)
      \/ (Z.of_nat (length ranked) = max_expansions
          /\ forall c' w', In (c', w') ranked -> (w <= w')%Q)).
Proof.
  intros tokens seeds ranked Hmw Hm Hseed Hedge Hw Htok Hsd.
  split; [reflexivity|].
  set (qt := (list_to_set tokens : gset string)).
  set (resolved := (set_map (ConceptGraph.resolve g) qt : gset string)).
  set (cand0 :=
         fold_left
           (fun c token =>
              (ConceptGraph._collect_neighbors g 1 token min_weight (c, ∅)).1)
           (elements resolved) []).
  set (cand := fold_left (fun c token => OD.pop token c)
                         (elements (resolved ∪ qt)) cand0).
  assert (ranked = Py.slice_to max_expansions (sorted_desc snd ConceptGraph.Qltb cand))
    as Hranked by reflexivity.
  assert (Hrec : records cand0
                   ([] ++ flat_map (fun s => qualifying min_weight (edges_of g s))
                                   (elements resolved))).
  { apply records_seeds; [exact Hmw|]. split; [constructor|]. split.
    - intros n w' [].
    - intros n w' []. }
  cbn [app] in Hrec. destruct Hrec as (Hnd & Hdom & Hmax).
  assert (HL : In (c, w) (flat_map (fun s => qualifying min_weight (edges_of g s))
                                   (elements resolved))).
  { apply in_flat_map. exists seed. split; [apply seeds_elements; exact Hseed|].
    apply qualifying_In. split; [exact Hedge|exact Hw]. }
  pose proof (Hdom c w HL) as Hkey. unfold OD.keys in Hkey.
  apply in_map_iff in Hkey as ([c0 w0] & Hc0 & Hin0). cbn [fst] in Hc0. subst c0.
  destruct (Hmax c w0 Hin0) as [_ Hle]. specialize (Hle w HL).
  assert (Hcand : In (c, w0) cand).
  { apply pop_all_keeps; [|exact Hin0].
    rewrite <- list_elem_of_In, elem_of_elements, elem_of_union. intros [H|H].
    - apply elem_of_elements, list_elem_of_In, seeds_elements in H. apply Hsd, H.
    - apply elem_of_list_to_set, list_elem_of_In in H. apply Htok, H. }
  destruct (slice_to_sorted_best (fun x y : string * Q => (y.2 <= x.2)%Q)
              (sorted_desc snd ConceptGraph.Qltb cand) max_expansions (c, w0) Hm)
    as [H|[H1 H2]].
  - apply sorted_desc_Q.
  - apply sorted_desc_In, Hcand.
  - left. exists w0. rewrite Hranked. split; [exact H|exact Hle].
  - right. rewrite Hranked. split; [exact H1|].
    intros c' w' H'. specialize (H2 (c', w') H'). cbn [snd] in H2.
    eapply Qle_trans; eassumption.
Qed.

Lemma expand_best_witness :
  ConceptGraph.expand ConceptGraph.get_swift_concept_graph "Sendable warning" 6 0.5 1
  = map fst (ConceptGraph.expand_ranked ConceptGraph.get_swift_concept_graph
               "Sendable warning" 6 0.5 1)
  /\ ((exists w', In ("data race", w')
                     (ConceptGraph.expand_ranked ConceptGraph.get_swift_concept_graph
                        "Sendable warning" 6 0.5 1) /\ (1.0 <= w')%Q)
      \/ (Z.of_nat (length (ConceptGraph.expand_ranked ConceptGraph.get_swift_concept_graph
                              "Sendable warning" 6 0.5 1)) = 6%Z
          /\ forall c' w', In (c', w')
                              (ConceptGraph.expand_ranked ConceptGraph.get_swift_concept_graph
                                 "Sendable warning" 6 0.5 1) -> (1.0 <= w')%Q)).
Proof.
  apply (expand_best ConceptGraph.get_swift_concept_graph "Sendable warning" 6 0.5
           "sendable" "data race" 1.0%Q).
  - vm_compute. discriminate.
  - lia.
  - vm_compute. left. reflexivity.
  - vm_compute. right. left. reflexivity.
  - vm_compute. discriminate.
  - vm_compute. intuition discriminate.
  - vm_compute. intuition discriminate.
Defined.

(** ** The windows of [_split_long] *)

Section Windows.
Variable max_tokens : Z.
Hypothesis Hmax : (51 <= max_tokens)%Z.
Let m := Z.to_nat max_tokens.
Let step := (m - 50)%nat.

(** The loop of [_split_long] and what follows it, on a list of words. *)
Definition split_long_run (ws : list string) : list string :=
  let st := fold_left (Chunker.split_long_step max_tokens) ws ([], []) in
  match st.2 with
  | [] => st.1
  | _ => st.1 ++ [Py.join " " st.2]
  end.

Lemma split_long_prefix (ws cs cur : list string) :
  fold_left (Chunker.split_long_step max_tokens) ws (cs, cur)
  = (cs ++ (fold_left (Chunker.split_long_step max_tokens) ws ([], cur)).1,
     (fold_left (Chunker.split_long_step max_tokens) ws ([], cur)).2).
Proof.
  revert cs cur. induction ws as [|w ws IH]; intros cs cur.
  - cbn [fold_left fst snd]. rewrite app_nil_r. reflexivity.
  - cbn [fold_left]. unfold Chunker.split_long_step at 2 4 6. cbn [fst snd].
    destruct (max_tokens <=? Z.of_nat (length (cur ++ [w])))%Z.
    + rewrite (IH (cs ++ _)). rewrite (IH ([] ++ _)). cbn [fst snd app].
      rewrite <- app_assoc. reflexivity.
    + apply IH.
Qed.

Lemma split_long_restart (cur rest : list string) :
  (Z.of_nat (length cur) < max_tokens)%Z ->
  fold_left (Chunker.split_long_step max_tokens) (cur ++ rest) ([], [])
  = fold_left (Chunker.split_long_step max_tokens) rest ([], cur).
Proof.
  intros Hlen. rewrite fold_left_app.
  rewrite (split_long_fill max_tokens cur [] []) by (cbn [length]; lia).
  reflexivity.
Qed.

Lemma run_short (l : list string) :
  l <> [] -> (length l < m)%nat -> split_long_run l = [Py.join " " l].
Proof.
  intros Hne Hlen. unfold split_long_run.
  rewrite (split_long_fill max_tokens l [] []) by (cbn [length]; subst m; lia).
  cbn [fst snd app]. destruct l; [congruence|reflexivity].
Qed.

Lemma run_long (l : list string) :
  (m <= length l)%nat ->
  split_long_run l = Py.join " " (firstn m l) :: split_long_run (skipn step l).
Proof.
  intros Hlen. unfold split_long_run.
  assert (Hm : (51 <= m)%nat) by (subst m; lia).
  assert (Hsplit : l = firstn (m - 1) l ++ [nth (m - 1) l EmptyString] ++ skipn m l).
  { rewrite <- (firstn_skipn (m - 1) l) at 1. f_equal.
    rewrite <- (firstn_skipn 1 (skipn (m - 1) l)) at 1.
    rewrite skipn_skipn. replace (1 + (m - 1))%nat with m by lia. f_equal.
    assert (length (skipn (m - 1) l) >= 1)%nat by (rewrite length_skipn; lia).
    destruct (skipn (m - 1) l) as [|x r] eqn:E; [cbn in *; lia|].
    cbn [firstn]. f_equal.
    rewrite <- (firstn_skipn (m - 1) l) at 1. rewrite E.
    rewrite app_nth2 by (rewrite length_firstn; lia).
    rewrite length_firstn. replace (m - 1 - Nat.min (m - 1) (length l))%nat with 0%nat by lia.
    reflexivity. }
  set (x := nth (m - 1) l EmptyString) in *.
  assert (Hfirst : firstn m l = firstn (m - 1) l ++ [x]).
  { rewrite Hsplit at 1. rewrite app_assoc.
    rewrite firstn_app.
    rewrite length_app, length_firstn. cbn [length].
    replace (m - (Nat.min (m - 1) (length l) + 1))%nat with 0%nat by lia.
    cbn [firstn]. rewrite app_nil_r. apply firstn_all2.
    rewrite length_app, length_firstn. cbn [length]. lia. }
  assert (Hcur : Py.last_n 50 (firstn m l) ++ skipn m l = skipn step l).
  { unfold Py.last_n. rewrite length_firstn.
    replace (Nat.min m (length l) - 50)%nat with step by (subst step; lia).
    rewrite <- (firstn_skipn m l) at 3.
    rewrite skipn_app, length_firstn.
    replace (step - Nat.min m (length l))%nat with 0%nat by (subst step; lia).
    reflexivity. }
  set (F := fold_left (Chunker.split_long_step max_tokens) (skipn step l) ([], [])).
  assert (Hfold : fold_left (Chunker.split_long_step max_tokens) l ([], [])
                  = (Py.join " " (firstn m l) :: F.1, F.2)).
  { rewrite Hsplit at 1. rewrite !fold_left_app.
    rewrite (split_long_fill max_tokens (firstn (m - 1) l) [] [])
      by (cbn [length]; rewrite length_firstn; subst m; lia).
    cbn [app fold_left].
    rewrite split_long_flush by (rewrite length_firstn; subst m; lia).
    cbn [app]. rewrite <- Hfirst.
    rewrite split_long_prefix.
    rewrite <- (split_long_restart (Py.last_n 50 (firstn m l)) (skipn m l)).
    2:{ unfold Py.last_n. rewrite length_skipn, length_firstn. subst m. lia. }
    rewrite Hcur. reflexivity. }
  rewrite Hfold. cbn [fst snd]. destruct F.2; reflexivity.
Qed.

(** The number of chunks for [n] words. *)
Definition window_count (n : nat) : nat :=
  if (n <? m)%nat then 1%nat else (2 + (n - m) / step)%nat.

Lemma window_count_step (n : nat) :
  (m <= n)%nat -> window_count n = S (window_count (n - step)).
Proof.
  intros Hn. assert (Hm : (51 <= m)%nat) by (subst m; lia).
  assert (Hs : step = (m - 50)%nat) by reflexivity.
  unfold window_count. clearbody step m.
  destruct (Nat.ltb_spec n m) as [?|_]; [lia|].
  destruct (Nat.ltb_spec (n - step) m) as [Hlt|Hge].
  - rewrite Nat.div_small by lia. reflexivity.
  - replace (n - m)%nat with ((n - step - m) + 1 * step)%nat by lia.
    rewrite Nat.div_add by lia. lia.
Qed.

Lemma run_windows (l : list string) :
  l <> [] ->
  split_long_run l
  = map (fun j => Py.join " " (firstn m (skipn (j * step) l)))
        (seq 0 (window_count (length l))).
Proof.
  assert (Hm : (51 <= m)%nat) by (subst m; lia).
  assert (Hs : step = (m - 50)%nat) by reflexivity.
  remember (length l) as n eqn:Hn. revert l Hn.
  induction n as [n IH] using lt_wf_ind. intros l Hn Hne.
  destruct (Nat.ltb_spec n m) as [Hlt|Hge].
  - rewrite run_short by (try assumption; lia).
    unfold window_count. destruct (Nat.ltb_spec n m) as [_|?]; [|lia].
    cbn [seq map Nat.mul]. rewrite drop_0, firstn_all2 by lia. reflexivity.
  - rewrite run_long by lia.
    rewrite (window_count_step n Hge). cbn [seq map Nat.mul]. rewrite drop_0.
    f_equal. rewrite <- seq_shift, map_map.
    rewrite (IH (n - step)%nat ltac:(lia) (skipn step l)).
    + apply map_ext. intros j. rewrite skipn_skipn. do 3 f_equal. lia.
    + rewrite length_skipn. lia.
    + intros E. apply (f_equal (@length string)) in E.
      rewrite length_skipn in E. cbn [length] in E. lia.
Qed.

End Windows.

Lemma Forall_firstn_skipn {A} (P : A -> Prop) (l : list A) (a b : nat) :
  Forall P l -> Forall P (firstn a (skipn b l)).
Proof.
  intros H. apply Forall_take, Forall_drop, H.
Qed.

(** X14. [_split_long] on a text of more than [max_tokens] words, for
    [max_tokens >= 51]: the chunks are the windows of [max_tokens] words
    that start every [max_tokens - 50] words, joined by single spaces;
    there are [2 + (n - max_tokens) / (max_tokens - 50)] of them for [n]
    words. Every chunk re-splits into its window; every chunk but the last
    holds exactly [max_tokens] words; the last one holds the 50 words
    shared with the chunk before it and the
    [(n - max_tokens) mod (max_tokens - 50)] words that remain - so it
    brings nothing new when that remainder is zero. *)
Theorem split_long_window_chunks (max_tokens : Z) (text : string) :
  (51 <= max_tokens)%Z ->
  (max_tokens < Z.of_nat (length (Py.split text)))%Z ->
  let words := Py.split text in
  let n := length words in
  let m := Z.to_nat max_tokens in
  let step := (m - 50)%nat in
  let count := (2 + (n - m) / step)%nat in
  let window := fun j => firstn m (skipn (j * step) words) in
  Chunker._split_long max_tokens text
  = map (fun j => Py.join " " (window j)) (seq 0 count)
  /\ (forall j, Py.split (Py.join " " (window j)) = window j)
  /\ (forall j, (j + 1 < count)%nat -> length (window j) = m)
  /\ length (window (count - 1)%nat) = (50 + (n - m) mod step)%nat.
Proof.
  intros Hmax Hlong words n m step count window.
  assert (Hm : (51 <= m)%nat) by (subst m; lia).
  assert (Hn : (m < n)%nat) by (subst m n words; lia).
  assert (Hstep : step = (m - 50)%nat) by reflexivity.
  assert (Hdm := Nat.div_mod_eq (n - m) step).
  assert (Hmod := Nat.mod_upper_bound (n - m) step ltac:(lia)).
  split; [|split; [|split]].
  - unfold Chunker._split_long. fold words.
    destruct (Z.leb_spec (Z.of_nat (length words)) max_tokens) as [H|_]; [lia|].
    change (match (fold_left (Chunker.split_long_step max_tokens) words ([], [])).2 with
            | [] => (fold_left (Chunker.split_long_step max_tokens) words ([], [])).1
            | _ :: _ =>
                (fold_left (Chunker.split_long_step max_tokens) words ([], [])).1
                ++ [Py.join " " (fold_left (Chunker.split_long_step max_tokens) words
                                   ([], [])).2]
            end)
      with (split_long_run max_tokens words).
    rewrite (run_windows max_tokens Hmax words).
    + unfold window_count. fold m n. destruct (Nat.ltb_spec n m) as [?|_]; [lia|].
      reflexivity.
    + intros E. fold words in Hlong. rewrite E in Hlong. cbn in Hlong. lia.
  - intros j. apply split_join. apply Forall_firstn_skipn, split_tokens.
  - intros j Hj. unfold window. rewrite length_firstn, length_skipn. fold n.
    assert (j <= (n - m) / step)%nat by (subst count; lia).
    assert (j * step <= (n - m) / step * step)%nat by (apply Nat.mul_le_mono_r; lia).
    clearbody step m n. nia.
  - unfold window. rewrite length_firstn, length_skipn. fold n.
    replace (count - 1)%nat with (S ((n - m) / step)) by (subst count; lia).
    clearbody step m n. nia.
Qed.

Lemma split_long_window_chunks_witness :
  let text := Py.join " " (repeat "w" 53) in
  let words := Py.split text in
  let n := length words in
  let m := Z.to_nat 51 in
  let step := (m - 50)%nat in
  let count := (2 + (n - m) / step)%nat in
  let window := fun j => firstn m (skipn (j * step) words) in
  Chunker._split_long 51 text
  = map (fun j => Py.join " " (window j)) (seq 0 count).
Proof.
  intros text words n m step count window.
  destruct (split_long_window_chunks 51 text) as [H _].
  - lia.
  - vm_compute. reflexivity.
  - exact H.
Defined.

(** ** The size of the chunks *)

Lemma all_chars_ext (p q : ascii -> bool) (s : string) :
  (forall c, p c = q c) -> all_chars p s = all_chars q s.
Proof.
  intros H. induction s as [|c s IH]; [reflexivity|].
  cbn [all_chars]. rewrite H, IH. reflexivity.
Qed.

Lemma strip_blank (text : string) :
  Py.split text = [] -> Py.truthy (Py.strip text) = false.
Proof.
  intros Hs. unfold Py.split in Hs. apply runs_nil in Hs.
  rewrite (all_chars_ext _ Py.is_space) in Hs by (intros c; apply negb_involutive).
  unfold Py.strip, Py.strip_by.
  rewrite <- (lstrip_all Py.is_space) in Hs. apply rstrip_empty in Hs.
  rewrite Hs. reflexivity.
Qed.

Lemma split_long_sizes (max_tokens : Z) (text : string) :
  (51 <= max_tokens)%Z ->
  Forall (fun sub => (1 <= length (Py.split sub))%nat
                     /\ (Z.of_nat (length (Py.split sub)) <= max_tokens)%Z)
         (Chunker._split_long max_tokens text).
Proof.
  intros Hmax. unfold Chunker._split_long.
  destruct (Z.leb_spec (Z.of_nat (length (Py.split text))) max_tokens) as [Hle|Hgt].
  - destruct (Py.truthy (Py.strip text)) eqn:Et; [|constructor].
    constructor; [|constructor]. split; [|exact Hle].
    destruct (Py.split text) eqn:Es; [|cbn [length]; lia].
    rewrite (strip_blank text Es) in Et. discriminate.
  - set (words := Py.split text) in *.
    change (match (fold_left (Chunker.split_long_step max_tokens) words ([], [])).2 with
            | [] => (fold_left (Chunker.split_long_step max_tokens) words ([], [])).1
            | _ :: _ =>
                (fold_left (Chunker.split_long_step max_tokens) words ([], [])).1
                ++ [Py.join " " (fold_left (Chunker.split_long_step max_tokens) words
                                   ([], [])).2]
            end)
      with (split_long_run max_tokens words).
    rewrite (run_windows max_tokens Hmax words)
      by (intros E; rewrite E in Hgt; cbn in Hgt; lia).
    apply Forall_forall. intros sub Hsub. apply list_elem_of_In, in_map_iff in Hsub.
    destruct Hsub as (j & <- & Hj). apply in_seq in Hj.
    rewrite split_join by (apply Forall_firstn_skipn, split_tokens).
    rewrite length_firstn, length_skipn.
    unfold window_count in Hj.
    set (m := Z.to_nat max_tokens) in *. set (n := length words) in *.
    assert (Hm : (51 <= m)%nat) by (subst m; lia).
    assert (Hn : (m < n)%nat) by (subst m n; lia).
    destruct (Nat.ltb_spec n m) as [?|_]; [lia|].
    assert (Hdm := Nat.div_mod_eq (n - m) (m - 50)).
    assert (Hmod := Nat.mod_upper_bound (n - m) (m - 50) ltac:(lia)).
    assert (j <= 1 + (n - m) / (m - 50))%nat by lia.
    assert (j * (m - 50) <= (1 + (n - m) / (m - 50)) * (m - 50))%nat
      by (apply Nat.mul_le_mono_r; lia).
    assert (Hmz : Z.of_nat m = max_tokens) by (subst m; lia).
    clearbody m n. split; [nia|lia].
Qed.

(** X15. Every chunk that [chunk_file] makes, for [max_tokens >= 51]: it
    carries the skill, file name, path and domains it was made for and the
    title of a section of the text; its text holds at least one and at most
    [max_tokens] words; its contextual text is the header
    [[skill | file]], the file context, an empty line and the text; and its
    id is the digest of [skill/file/section/first 50 characters]. The
    chunks come section by section, in the order of the sections. *)
Theorem chunk_file_chunks (md5_hex : string -> string) (max_tokens : Z)
  (name path text skill_name : string) (domains : list string) :
  (51 <= max_tokens)%Z ->
  let nl := String Py.newline EmptyString in
  let chunks := Chunker.chunk_file md5_hex max_tokens name path text skill_name domains in
  Forall (fun c =>
            Chunk.skill c = skill_name /\ Chunk.file c = name
            /\ Chunk.file_path c = path /\ Chunk.domains c = domains
            /\ (exists body, In (Chunk.section c, body) (Chunker._split_sections text)
                             /\ In (Chunk.text c) (Chunker._split_long max_tokens body))
            /\ (1 <= length (Py.split (Chunk.text c)))%nat
            /\ (Z.of_nat (length (Py.split (Chunk.text c))) <= max_tokens)%Z
            /\ Chunk.contextual_text c
               = "[" +:+ skill_name +:+ " | " +:+ name +:+ "]" +:+ nl
                   +:+ Chunker._extract_context text name skill_name
                   +:+ nl +:+ nl +:+ Chunk.text c
            /\ Chunk.id c
               = md5_hex (skill_name +:+ "/" +:+ name +:+ "/" +:+ Chunk.section c
                            +:+ "/" +:+ Py.take 50 (Chunk.text c)))
         chunks
  /\ map Chunk.section chunks
     = flat_map (fun s : string * string =>
                   map (fun _ => s.1) (Chunker._split_long max_tokens s.2))
                (Chunker._split_sections text)
  /\ map Chunk.text chunks
     = flat_map (fun s : string * string => Chunker._split_long max_tokens s.2)
                (Chunker._split_sections text).
Proof.
  intros Hmax nl chunks. split; [|split].
  - apply Forall_forall. intros c Hc. apply list_elem_of_In in Hc.
    apply chunk_file_In in Hc as (title & body & sub & Hs & Hsub & ->).
    cbn [Chunker.make_chunk Chunk.skill Chunk.file Chunk.file_path Chunk.domains
         Chunk.section Chunk.text Chunk.contextual_text Chunk.id].
    pose proof (split_long_sizes max_tokens body Hmax) as Hsz.
    rewrite Forall_forall in Hsz. specialize (Hsz sub (proj2 (list_elem_of_In _ _) Hsub)).
    destruct Hsz as [H1 H2].
    repeat (split; [reflexivity|]).
    split; [exists body; split; assumption|].
    split; [exact H1|]. split; [exact H2|]. split; reflexivity.
  - subst chunks. unfold Chunker.chunk_file.
    induction (Chunker._split_sections text) as [|s ss IH]; [reflexivity|].
    cbn [flat_map]. rewrite map_app, IH, map_map. reflexivity.
  - subst chunks. unfold Chunker.chunk_file.
    induction (Chunker._split_sections text) as [|s ss IH]; [reflexivity|].
    cbn [flat_map]. rewrite map_app, IH, map_map. cbn [Chunker.make_chunk Chunk.text].
    rewrite map_id. reflexivity.
Qed.

Lemma chunk_file_chunks_witness :
  let chunks := Chunker.chunk_file (fun s => s) 400 "notes.md" "swift/notes.md"
                  "Use actors." "swift" ["swift"] in
  map Chunk.text chunks
  = flat_map (fun s : string * string => Chunker._split_long 400 s.2)
             (Chunker._split_sections "Use actors.").
Proof.
  intros chunks.
  destruct (chunk_file_chunks (fun s => s) 400 "notes.md" "swift/notes.md"
              "Use actors." "swift" ["swift"]) as (_ & _ & H).
  - lia.
  - exact H.
Defined.

(** ** Searching twice *)

Section Repeat.
Variable md5_hex : string -> string.
Variable embed_documents : list string -> list (list R).
Variable embed_query : string -> list R.
Variable collection_query :
  Engine.Collection -> list R -> Z -> option (list string) -> list (string * R).
Variable cross_encoder : list (string * string) -> option (list R).
Variable elapsed_ms : R.

Let search :=
  Engine.search md5_hex embed_documents embed_query collection_query
                cross_encoder elapsed_ms.
Let ensure := Engine._ensure_indexed md5_hex embed_documents.

(** Indexing touches neither the configuration nor the cache nor the
    responses handed out. *)
Lemma index_keeps_cache (e : Engine.t) (fs paths : list Engine.SkillDir) (force : bool) :
  let e' := (Engine.index md5_hex embed_documents e fs paths force).2 in
  Engine.config e' = Engine.config e
  /\ Engine._cache e' = Engine._cache e
  /\ Engine.heap e' = Engine.heap e
  /\ Engine._concept_graph e' = Engine._concept_graph e.
Proof.
  unfold Engine.index.
  destruct (Engine.all_chunks _); cbn; auto.
Qed.





End Repeat.



(** ** What fusion returns *)

Lemma od_of_list_keys {V} (l : list (string * V)) (k : string) :
  In k (OD.keys (OD.of_list l)) <-> In k (map fst l).
Proof.
  unfold OD.of_list.
  assert (H : forall d, In k (OD.keys (fold_left (fun d p => OD.set p.1 p.2 d) l d))
                        <-> In k (map fst l) \/ In k (OD.keys d)).
  { induction l as [|p l IH]; intros d; cbn [fold_left map In]; [tauto|].
    rewrite IH, od_keys_set. intuition congruence. }
  rewrite H. cbn. tauto.
Qed.

Lemma od_get_of_list_None {V} (l : list (string * V)) (k : string) :
  OD.get k (OD.of_list l) = None <-> ~ In k (map fst l).
Proof. rewrite od_get_None, od_of_list_keys. reflexivity. Qed.

Lemma enumerate_snd_In {A} (l : list A) (x : A) :
  In x (map snd (Py.enumerate l)) <-> In x l.
Proof. rewrite enumerate_snd. reflexivity. Qed.



(** X17. Every result of [_rrf_fuse] is a chunk held by the collection: its
    id is a key of the store and its text and provenance are the stored
    ones; no chunk is returned twice; a result has no semantic rank exactly
    when its id is not in the semantic list and no BM25 rank exactly when
    its id is not among the BM25 hits; and there are at most as many
    results as the two lists have entries. *)
Theorem rrf_fuse_results (coll : option Engine.Collection)
  (sem : list (string * R * nat)) (bm25 : list (string * R)) :
  let fused := Engine._rrf_fuse coll sem bm25 60 in
  let id_of := fun r => Chunk.id (Engine.chunk r) in
  let sem_ids := map (fun x : string * R * nat => x.1.1) sem in
  NoDup (map id_of fused)
  /\ Forall (fun r =>
               (exists c e,
                  coll = Some c /\ c !! id_of r = Some e
                  /\ Engine.chunk r
                     = Chunk.mk (id_of r) (Engine.e_document e) (Engine.e_document e)
                         (Engine.m_skill (Engine.e_meta e)) (Engine.m_file (Engine.e_meta e))
                         (Engine.m_file_path (Engine.e_meta e))
                         (Engine.m_section (Engine.e_meta e))
                         (Engine.m_domains (Engine.e_meta e)))
               /\ (In (id_of r) sem_ids \/ In (id_of r) (map fst bm25))
               /\ (Engine.semantic_rank r = None <-> ~ In (id_of r) sem_ids)
               /\ (Engine.bm25_rank r = None <-> ~ In (id_of r) (map fst bm25)))
            fused
  /\ (length fused <= length sem + length bm25)%nat.
Proof.
  intros fused id_of sem_ids.
  destruct coll as [c|].
  2:{ subst fused. unfold Engine._rrf_fuse. destruct (Engine.rrf_scores _ _ _);
      cbn; repeat split; try constructor; lia. }
  set (lex := sorted_desc snd Rltb bm25).
  set (rrf := Engine.rrf_scores 60 sem_ids (map fst lex)).
  set (sem_map :=
         OD.of_list (map (fun it : nat * (string * R * nat) => (it.2.1.1, (it.2.1.2, it.1)))
                         (Py.enumerate sem))).
  set (rank_map :=
         OD.of_list (map (fun it : nat * (string * R) => (it.2.1, it.1))
                         (Py.enumerate lex))).
  assert (Hf : fused
               = omap (fun it : string * R =>
                         e ← c !! it.1;
                         Some (Engine.fused_result sem_map rank_map it.1 it.2 e))
                      (sorted_desc snd Rltb rrf)).
  { subst fused. unfold Engine._rrf_fuse. fold sem_ids lex rrf sem_map rank_map.
    destruct rrf as [|p rrf'] eqn:E; [reflexivity|]. rewrite <- E.
    apply omap_ext_in. intros [x v] Hin. cbn [fst snd].
    rewrite collection_get_lookup; [reflexivity|].
    apply (proj1 (sorted_desc_In snd Rltb _ _)) in Hin.
    unfold OD.keys. apply in_map_iff. exists (x, v). tauto. }
  destruct (rrf_scores_spec 60 sem_ids (map fst lex)) as (Hnd & Hkeys & _).
  fold rrf in Hnd, Hkeys.
  assert (Hlex : forall x, In x (map fst lex) <-> In x (map fst bm25)).
  { intros x. rewrite !in_map_iff. split; intros (p & Hp & Hin); exists p;
      (split; [exact Hp|]);
      [apply (proj1 (sorted_desc_In snd Rltb _ _))|apply (proj2 (sorted_desc_In snd Rltb _ _))];
      exact Hin. }
  assert (Hids : map id_of fused
                 = filter (fun x => is_Some (c !! x)) (map fst (sorted_desc snd Rltb rrf))).
  { rewrite Hf.
    apply (omap_filter_fst (fun x => c !! x) (Engine.fused_result sem_map rank_map) id_of).
    reflexivity. }
  split; [|split].
  - rewrite Hids. apply NoDup_filter.
    rewrite (Permutation_map fst (sorted_desc_perm snd Rltb rrf)). exact Hnd.
  - apply Forall_forall. intros r Hr. rewrite Hf in Hr.
    apply list_elem_of_omap in Hr as ([x v] & Hin & Hg). cbn [fst snd] in Hg.
    destruct (c !! x) as [e|] eqn:Hx; [|discriminate Hg].
    cbn [mbind option_bind] in Hg. injection Hg as <-.
    unfold id_of. cbn [Engine.fused_result Engine.chunk Chunk.id Engine.semantic_rank
                       Engine.bm25_rank].
    apply list_elem_of_In in Hin. apply (proj1 (sorted_desc_In snd Rltb _ _)) in Hin.
    assert (Hk : In x (OD.keys rrf))
      by (unfold OD.keys; apply in_map_iff; exists (x, v); split; [reflexivity|exact Hin]).
    apply Hkeys in Hk. rewrite Hlex in Hk.
    split; [exists c, e; auto|]. split; [exact Hk|]. split.
    + rewrite fmap_None. unfold sem_map. rewrite od_get_of_list_None, map_map.
      cbn [fst]. unfold sem_ids.
      rewrite <- (enumerate_snd sem) at 2. rewrite map_map. reflexivity.
    + unfold rank_map. rewrite od_get_of_list_None, map_map. cbn [fst].
      rewrite <- Hlex. rewrite <- (enumerate_snd lex) at 2. rewrite map_map. reflexivity.
  - transitivity (length (map id_of fused)); [rewrite length_map; reflexivity|].
    rewrite Hids.
    transitivity (length (map fst (sorted_desc snd Rltb rrf))); [apply length_filter|].
    rewrite length_map, (Permutation_length (sorted_desc_perm snd Rltb rrf)).
    assert (Hsub : forall x, In x (OD.keys rrf) -> In x (sem_ids ++ map fst lex)).
    { intros x Hx. apply in_app_iff, Hkeys, Hx. }
    transitivity (length (sem_ids ++ map fst lex)).
    + rewrite <- (length_map fst rrf). apply NoDup_incl_length.
      * apply NoDup_ListNoDup, Hnd.
      * exact Hsub.
    + unfold sem_ids, lex. rewrite length_app, !length_map.
      rewrite (Permutation_length (sorted_desc_perm snd Rltb bm25)). lia.
Qed.

(** ** The response of a search *)






(** ** Indexing on demand *)

Section Ensure.
Variable md5_hex : string -> string.
Variable embed_documents : list string -> list (list R).





End Ensure.


(** ** What [status] reports after indexing *)




(** ** The sections of a text *)

(** The parts of [pattern.split]: the text before the first heading, then
    each heading line with the text that follows it. *)
Lemma split_at_headings_parts (first : bool) (acc : string) (ls : list string) :
  exists p0 pairs,
    Chunker.split_at_headings first acc ls
    = p0 :: flat_map (fun p : string * string => [p.1; p.2]) pairs
    /\ map fst pairs = List.filter Chunker.is_heading ls.
Proof.
  revert first acc. induction ls as [|l ls IH]; intros first acc.
  - exists acc, []. split; reflexivity.
  - cbn [Chunker.split_at_headings List.filter].
    destruct (Chunker.is_heading l) eqn:Eh.
    + destruct (IH false EmptyString) as (p0 & pairs & Hs & Hp).
      eexists _, ((l, p0) :: pairs). rewrite Hs. split; [reflexivity|].
      cbn [map fst]. rewrite Hp. reflexivity.
    + apply IH.
Qed.

(** The section that a heading line and the text after it give. *)
Definition section_of (p : string * string) : list (string * string) :=
  if Py.truthy (Py.strip p.2)
  then [(Py.strip (Py.lstrip_by Chunker.is_hash p.1), Py.strip p.2)]
  else [].

Lemma heading_sections_pairs (pairs : list (string * string)) :
  Chunker.heading_sections (flat_map (fun p : string * string => [p.1; p.2]) pairs)
  = flat_map section_of pairs.
Proof.
  induction pairs as [|[h b] pairs IH]; [reflexivity|].
  cbn [flat_map app fst snd Chunker.heading_sections]. rewrite IH. reflexivity.
Qed.

(** X21. [_split_sections] never returns an empty list. Either it returns
    the single section [("main", text)] - which happens exactly when the
    text before the first heading and the text under every heading are
    blank - or every section has a body that is not empty: first the
    section [intro] with the stripped text before the first heading, if
    that is not blank, then one section per heading line whose text is not
    blank, in order, titled by the heading without its [#] marks and
    surrounding spaces. A heading without text under it gives no section. *)
Theorem split_sections_shape (text : string) :
  exists p0 pairs,
    Chunker.pattern_split text = p0 :: flat_map (fun p : string * string => [p.1; p.2]) pairs
    /\ map fst pairs = List.filter Chunker.is_heading (Py.split_lines text)
    /\ let sections :=
         (if Py.truthy (Py.strip p0) then [("intro", Py.strip p0)] else [])
           ++ flat_map section_of pairs in
       Chunker._split_sections text
       = match sections with [] => [("main", text)] | _ => sections end
       /\ Forall (fun s : string * string => Py.truthy s.2 = true) sections
       /\ (length sections <= 1 + length pairs)%nat
       /\ Chunker._split_sections text <> [].
Proof.
  unfold Chunker._split_sections, Chunker.pattern_split.
  destruct (split_at_headings_parts true EmptyString (Py.split_lines text))
    as (p0 & pairs & Hs & Hp).
  exists p0, pairs. rewrite Hs, heading_sections_pairs.
  split; [reflexivity|]. split; [exact Hp|]. cbv zeta.
  split; [reflexivity|]. split; [|split].
  - apply Forall_app. split.
    + destruct (Py.truthy (Py.strip p0)) eqn:E; constructor; [exact E|constructor].
    + apply Forall_forall. intros s Hin. apply list_elem_of_In, in_flat_map in Hin.
      destruct Hin as (p & _ & Hin). unfold section_of in Hin.
      destruct (Py.truthy (Py.strip p.2)) eqn:E; [|destruct Hin].
      destruct Hin as [<-|[]]. exact E.
  - rewrite length_app.
    assert (length (flat_map section_of pairs) <= length pairs)%nat.
    { clear. induction pairs as [|p pairs IH]; [reflexivity|].
      cbn [flat_map]. rewrite length_app. unfold section_of at 1.
      destruct (Py.truthy _); cbn [length]; lia. }
    destruct (Py.truthy (Py.strip p0)); cbn [length]; lia.
  - destruct (_ ++ _); discriminate.
Qed.

(** ** Letter case *)

Lemma lower_char_idem (c : ascii) : Py.lower_char (Py.lower_char c) = Py.lower_char c.
Proof. destruct c as [[] [] [] [] [] [] [] []]; vm_compute; reflexivity. Qed.

Lemma lower_idem (s : string) : Py.lower (Py.lower s) = Py.lower s.
Proof.
  induction s as [|c s IH]; [reflexivity|].
  cbn [Py.lower]. rewrite lower_char_idem, IH. reflexivity.
Qed.

Lemma runs_all (q p : ascii -> bool) (s : string) :
  all_chars q s = true -> Forall (fun w => all_chars q w = true) (Py.runs p s).
Proof.
  induction s as [|c s IH]; cbn [Py.runs all_chars]; [constructor|].
  intros H. apply andb_true_iff in H as [Hc Hs]. specialize (IH Hs).
  destruct (p c); [|exact IH].
  destruct s as [|c' s'].
  - repeat constructor. cbn [all_chars]. rewrite Hc. reflexivity.
  - destruct (p c').
    + destruct (Py.runs p (String c' s')) as [|w ws].
      * repeat constructor. cbn [all_chars]. rewrite Hc. reflexivity.
      * apply Forall_cons in IH as [Hw Hws]. constructor; [|exact Hws].
        cbn [all_chars]. rewrite Hc, Hw. reflexivity.
    + constructor; [|exact IH]. cbn [all_chars]. rewrite Hc. reflexivity.
Qed.

Definition is_lower_char (c : ascii) : bool :=
  if ascii_dec (Py.lower_char c) c then true else false.

Lemma lower_all (s : string) : all_chars is_lower_char (Py.lower s) = true.
Proof.
  induction s as [|c s IH]; [reflexivity|].
  cbn [Py.lower all_chars]. rewrite IH. unfold is_lower_char.
  rewrite lower_char_idem. destruct (ascii_dec _ _); [reflexivity|congruence].
Qed.

Lemma all_lower_fixed (s : string) : all_chars is_lower_char s = true -> Py.lower s = s.
Proof.
  induction s as [|c s IH]; [reflexivity|]. cbn [all_chars Py.lower].
  intros H. apply andb_true_iff in H as [Hc Hs]. rewrite (IH Hs).
  unfold is_lower_char in Hc. destruct (ascii_dec _ _) as [->|]; [reflexivity|discriminate].
Qed.

(** X22. Letter case plays no part in lexical matching or in query
    expansion: the tokens of [BM25._tokenize] are lowercase, a text and its
    lowercased form have the same tokens, and so BM25 fitted on documents or
    on their lowercased forms is the same index, [BM25.score] gives the same
    result for a query and for its lowercased form, and so does
    [ConceptGraph.expand]. *)
Theorem case_insensitive :
  (forall s, BM25._tokenize (Py.lower s) = BM25._tokenize s)
  /\ (forall s, Forall (fun t => Py.lower t = t) (BM25._tokenize s))
  /\ (forall bm docs ids, BM25.fit bm (map Py.lower docs) ids = BM25.fit bm docs ids)
  /\ (forall bm q top_k, BM25.score bm (Py.lower q) top_k = BM25.score bm q top_k)
  /\ (forall g q max_expansions min_weight depth,
        ConceptGraph.expand g (Py.lower q) max_expansions min_weight depth
        = ConceptGraph.expand g q max_expansions min_weight depth).
Proof.
  assert (Htok : forall s, BM25._tokenize (Py.lower s) = BM25._tokenize s).
  { intros s. unfold BM25._tokenize. rewrite lower_idem. reflexivity. }
  split; [exact Htok|]. split; [|split; [|split]].
  - intros s. unfold BM25._tokenize.
    pose proof (runs_all is_lower_char Py.is_word (Py.lower s) (lower_all s)) as H.
    apply Forall_forall. intros t Ht. rewrite Forall_forall in H.
    apply all_lower_fixed, H, Ht.
  - intros bm docs ids. unfold BM25.fit. rewrite !map_map, length_map.
    rewrite (map_ext (fun x => BM25._tokenize (Py.lower x)) BM25._tokenize Htok).
    reflexivity.
  - intros bm q top_k. unfold BM25.score. rewrite Htok. reflexivity.
  - intros g q m mw d. unfold ConceptGraph.expand, ConceptGraph.expand_ranked.
    rewrite lower_idem. reflexivity.
Qed.

(** ** Skill matching at the edges *)

Lemma filter_none_R (thr : R) (l : list (string * R)) :
  Forall (fun p : string * R => (p.2 < thr)%R) l ->
  filter (fun p : string * R => Rleb thr p.2) l = [].
Proof.
  induction 1 as [|p l Hp Hl IH]; [reflexivity|].
  rewrite filter_cons, IH. destruct (decide _) as [H|_]; [|reflexivity].
  unfold Rleb in H. apply bool_decide_unpack in H. lra.
Qed.

(** X23. The edge cases of [_match_skills]. Without an embedded fingerprint
    it matches nothing. Otherwise, when the highest similarity is not
    negative, the best-scoring skill comes first in the result; when it is
    negative, the threshold of 0.6 times the highest similarity lies above
    every similarity and no skill is matched at all - so that the search
    is not restricted to any skill. Every matched name is a scored
    fingerprint. *)
Theorem match_skills_sign (fps : list (string * Engine.SkillFingerprint)) (q : list R) :
  exists scores matched,
    Engine.skill_scores q fps = Some scores
    /\ Engine._match_skills fps q = Some matched
    /\ (scores = [] -> matched = [])
    /\ (forall top, highest top scores ->
          ((0 <= top)%R -> exists n rest, matched = n :: rest /\ In (n, top) scores)
          /\ ((top < 0)%R -> matched = []))
    /\ (forall n, In n matched -> exists s, In (n, s) scores).
Proof.
  destruct (skill_scores_some q fps) as [scores Hs].
  pose proof (sorted_desc_R snd scores) as Hsorted.
  pose proof (sorted_desc_perm snd Rltb scores) as Hperm.
  exists scores.
  destruct (sorted_desc snd Rltb scores) as [|t rest] eqn:E.
  - exists []. apply Permutation_nil in Hperm. subst scores.
    split; [exact Hs|]. split.
    { unfold Engine._match_skills. destruct fps; [reflexivity|]. rewrite Hs. reflexivity. }
    split; [reflexivity|]. split; [|intros n []].
    intros top [[n []] _].
  - exists (firstn 8 (map fst (filter (fun p : string * R => Rleb (t.2 * 0.6) p.2)
                                      (t :: rest)))).
    split; [exact Hs|]. split.
    { unfold Engine._match_skills. destruct fps as [|p fps].
      - cbn in Hs. inversion Hs; subst. apply Permutation_sym, Permutation_nil in Hperm.
        discriminate Hperm.
      - rewrite Hs. cbn [mbind option_bind]. rewrite E. reflexivity. }
    split.
    { intros ->. apply Permutation_sym, Permutation_nil in Hperm. discriminate Hperm. }
    assert (Hall : forall p, In p (t :: rest) -> (p.2 <= t.2)%R).
    { intros p [<-|Hp]; [lra|].
      apply StronglySorted_inv in Hsorted as [_ Hall].
      rewrite Forall_forall in Hall. apply list_elem_of_In, Hall in Hp. cbn in Hp. lra. }
    split.
    + intros top [[n Hn] Hmax].
      assert (top = t.2) as ->.
      { apply Rle_antisym.
        - apply (Hall (n, top)). apply (Permutation_in _ (Permutation_sym Hperm)), Hn.
        - apply Hmax. apply (Permutation_in _ Hperm). left. reflexivity. }
      split.
      * intros Hpos. rewrite filter_cons.
        destruct (decide _) as [_|Hno].
        -- cbn [map firstn]. eexists _, _. split; [reflexivity|].
           apply (Permutation_in _ Hperm). left. destruct t; reflexivity.
        -- exfalso. apply Hno. unfold Rleb. apply bool_decide_pack. lra.
      * intros Hneg. rewrite filter_none_R; [reflexivity|].
        apply Forall_forall. intros p Hp. apply list_elem_of_In, Hall in Hp. lra.
    + intros n Hn. apply firstn_In, in_map_iff in Hn as ([n' s] & <- & Hin).
      apply list_elem_of_In, list_elem_of_filter in Hin as [_ Hin].
      exists s. apply (Permutation_in _ Hperm), list_elem_of_In, Hin.
Qed.

(** ** Indexing the same skills again *)

Definition put (c : Engine.Collection) (kv : string * Engine.Entry) : Engine.Collection :=
  <[kv.1 := kv.2]> c.

(** Writing a sequence of entries: each key ends with the last entry written
    under it, the other keys keep theirs. *)
Lemma puts_lookup (kvs : list (string * Engine.Entry)) :
  exists g : string -> option Engine.Entry,
    forall (m : Engine.Collection) (k : string),
      fold_left put kvs m !! k = match g k with Some v => Some v | None => m !! k end.
Proof.
  induction kvs as [|[k0 v0] kvs [g IH]].
  - exists (fun _ => None). reflexivity.
  - exists (fun k => match g k with
                     | Some v => Some v
                     | None => if decide (k = k0) then Some v0 else None
                     end).
    intros m k. cbn [fold_left]. rewrite IH. destruct (g k); [reflexivity|].
    unfold put. cbn [fst snd]. destruct (decide (k = k0)) as [->|Hne].
    + apply lookup_insert_eq.
    + apply lookup_insert_ne. congruence.
Qed.

Lemma puts_idem (kvs : list (string * Engine.Entry)) (m : Engine.Collection) :
  fold_left put kvs (fold_left put kvs m) = fold_left put kvs m.
Proof.
  destruct (puts_lookup kvs) as [g Hg]. apply map_eq. intros k.
  rewrite !Hg. destruct (g k); reflexivity.
Qed.

Lemma fold_left_flat_map {A B C} (f : A -> C -> A) (g : B -> list C) (l : list B) (a : A) :
  fold_left f (flat_map g l) a = fold_left (fun a x => fold_left f (g x) a) l a.
Proof.
  revert a. induction l as [|x l IH]; intros a; [reflexivity|].
  cbn [flat_map fold_left]. rewrite fold_left_app. apply IH.
Qed.

Section Again.
Variable md5_hex : string -> string.
Variable embed_documents : list string -> list (list R).

(** The entries that [collection.add] is given for one batch. *)
Definition batch_entries (batch : list Chunk.t) : list (string * Engine.Entry) :=
  map (fun it : nat * Chunk.t =>
         (Chunk.id it.2,
          Engine.mkEntry
            (default [] (embed_documents (map Chunk.contextual_text batch) !! it.1))
            (Chunk.text it.2) (Engine.meta_of it.2)))
      (Py.enumerate batch).

Lemma add_batch_puts (c : Engine.Collection) (batch : list Chunk.t) :
  Engine.add_batch embed_documents c batch = fold_left put (batch_entries batch) c.
Proof.
  unfold Engine.add_batch, batch_entries.
  rewrite (fold_left_map_arg put). reflexivity.
Qed.

Lemma store_chunks_puts (c : Engine.Collection) (chunks : list Chunk.t) (force : bool) :
  Engine._store_chunks embed_documents (Some c) chunks force
  = Some (fold_left put
            (flat_map (fun i => batch_entries (firstn 64 (skipn i chunks)))
                      (Py.range_step (length chunks) 64))
            (if force then ∅ else c)).
Proof.
  unfold Engine._store_chunks. f_equal. rewrite fold_left_flat_map.
  apply fold_left_pointwise. intros a i. apply add_batch_puts.
Qed.

Lemma od_set_same {V} (k : string) (v : V) (d : list (string * V)) :
  OD.get k d = Some v -> OD.set k v d = d.
Proof.
  induction d as [|[k' v'] d IH]; [discriminate|].
  cbn [OD.get OD.set]. destruct (String.eqb_spec k k') as [->|Hne].
  - intros [= ->]. reflexivity.
  - intros H. rewrite (IH H). reflexivity.
Qed.

(** Once every skill that gives chunks is registered with its count, a
    further pass over the directories changes no count. *)
Lemma register_fixed (mt : Z) (dirs : list Engine.SkillDir) (cnt : list (string * nat)) :
  (forall sd, In sd dirs -> skill_chunks md5_hex mt sd <> [] ->
     OD.get (Engine.sd_name sd) cnt = Some (length (skill_chunks md5_hex mt sd))) ->
  register md5_hex mt cnt dirs = cnt.
Proof.
  induction dirs as [|sd dirs IH]; intros H; [reflexivity|].
  cbn [register]. destruct (skill_chunks md5_hex mt sd) as [|ch chs] eqn:E.
  - apply IH. intros sd' Hin. apply H. right. exact Hin.
  - rewrite od_set_same.
    + apply IH. intros sd' Hin. apply H. right. exact Hin.
    + rewrite <- E. apply H; [left; reflexivity|congruence].
Qed.

Lemma register_get (mt : Z) (dirs : list Engine.SkillDir) (cnt : list (string * nat))
  (sd : Engine.SkillDir) :
  NoDup (map Engine.sd_name dirs) -> In sd dirs -> skill_chunks md5_hex mt sd <> [] ->
  OD.get (Engine.sd_name sd) (register md5_hex mt cnt dirs)
  = Some (length (skill_chunks md5_hex mt sd)).
Proof.
  assert (Hkeep : forall dirs cnt k v,
             ~ In k (map Engine.sd_name dirs) -> OD.get k cnt = Some v ->
             OD.get k (register md5_hex mt cnt dirs) = Some v).
  { clear. induction dirs as [|sd dirs IH]; intros cnt k v Hk Hg; [exact Hg|].
    cbn [register]. cbn [map In] in Hk. apply IH; [tauto|].
    destruct (skill_chunks md5_hex mt sd); [exact Hg|].
    rewrite od_get_set. destruct (String.eqb_spec k (Engine.sd_name sd)); [|exact Hg].
    exfalso. apply Hk. left. congruence. }
  revert cnt. induction dirs as [|sd' dirs IH]; intros cnt Hnd Hin Hne; [destruct Hin|].
  cbn [map] in Hnd. apply NoDup_cons in Hnd as [Hnot Hnd]. rewrite list_elem_of_In in Hnot.
  cbn [register]. destruct Hin as [->|Hin].
  - destruct (skill_chunks md5_hex mt sd) as [|ch chs] eqn:E; [congruence|].
    apply Hkeep; [exact Hnot|]. rewrite od_get_set, String.eqb_refl. reflexivity.
  - apply IH; assumption.
Qed.

End Again.

(** X24. Indexing the same skill directories a second time, without
    [force] and with no two directories of the same name, changes nothing
    that the first run set up: the vector store holds the same entries (no
    chunk is added twice, the ids being the same), BM25 is the same index,
    the registered chunk counts and the number of chunks reported are the
    same. *)
Theorem reindex_same_skills (md5_hex : string -> string)
  (embed_documents : list string -> list (list R))
  (e : Engine.t) (fs paths : list Engine.SkillDir) (force : bool) :
  let dirs := match paths with [] => fs | _ => paths end in
  let r1 := Engine.index md5_hex embed_documents e fs paths force in
  let r2 := Engine.index md5_hex embed_documents r1.2 fs paths false in
  NoDup (map Engine.sd_name dirs) ->
  Engine._collection r2.2 = Engine._collection r1.2
  /\ Engine._bm25 r2.2 = Engine._bm25 r1.2
  /\ chunk_counts (Engine._fingerprints r2.2) = chunk_counts (Engine._fingerprints r1.2)
  /\ Engine.st_chunks r2.1 = Engine.st_chunks r1.1
  /\ Engine.st_errors r2.1 = Engine.st_errors r1.1
  /\ Engine._indexed r2.2 = Engine._indexed r1.2.
Proof.
  intros dirs r1 r2 Hnd.
  set (mt := Engine.chunk_max_tokens (Engine.config e)).
  set (chunks := flat_map (skill_chunks md5_hex mt) dirs).
  assert (Hcfg : Engine.config r1.2 = Engine.config e)
    by apply (index_keeps_cache md5_hex embed_documents e fs paths force).
  assert (Hloop : forall fps,
             let st := fold_left (Engine.index_step md5_hex mt) dirs
                                 (Engine.mkLoop [] 0 [] fps) in
             Engine.all_chunks st = chunks
             /\ Engine.errors st = flat_map skill_errors dirs
             /\ chunk_counts (Engine.fingerprints st)
                = register md5_hex mt (chunk_counts fps) dirs).
  { intros fps.
    destruct (index_loop_spec md5_hex mt dirs (Engine.mkLoop [] 0 [] fps))
      as (A & E & F & _). cbv zeta in A, E, F.
    cbn [Engine.all_chunks Engine.errors Engine.fingerprints app] in A, E, F. auto. }
  destruct (index_state md5_hex embed_documents e fs paths force) as [Hcc1 Hcoll1].
  destruct (index_state md5_hex embed_documents r1.2 fs paths false) as [Hcc2 Hcoll2].
  cbv zeta in Hcc1, Hcoll1, Hcc2, Hcoll2.
  fold r1 in Hcc1, Hcoll1. fold r1 r2 in Hcc2, Hcoll2. fold dirs in Hcc1, Hcoll1, Hcc2, Hcoll2.
  rewrite Hcfg in Hcc2, Hcoll2. fold mt in Hcc1, Hcoll1, Hcc2, Hcoll2.
  destruct (Hloop (Engine._fingerprints e)) as (A1 & E1 & F1).
  destruct (Hloop (Engine._fingerprints r1.2)) as (A2 & E2 & F2).
  cbv zeta in A1, E1, F1, A2, E2, F2.
  rewrite A1 in Hcoll1. rewrite A2 in Hcoll2. rewrite F1 in Hcc1. rewrite F2, Hcc1 in Hcc2.
  assert (Hfix : register md5_hex mt
                   (register md5_hex mt (chunk_counts (Engine._fingerprints e)) dirs) dirs
                 = register md5_hex mt (chunk_counts (Engine._fingerprints e)) dirs).
  { apply register_fixed. intros sd Hin Hne. apply register_get; assumption. }
  rewrite Hfix in Hcc2.
  assert (Hstats : forall e0, Engine.config e0 = Engine.config e ->
             let r := Engine.index md5_hex embed_documents e0 fs paths in
             forall f, Engine.st_chunks (r f).1 = length chunks
                       /\ Engine.st_errors (r f).1 = flat_map skill_errors dirs
                       /\ Engine._indexed (r f).2
                          = (if Engine.is_nil chunks then Engine._indexed e0 else true)
                       /\ Engine._bm25 (r f).2
                          = (if Engine.is_nil chunks then Engine._bm25 e0
                             else Engine._build_bm25 (Engine._bm25 e0) chunks)).
  { intros e0 Hc0 r f. subst r. unfold Engine.index. fold dirs. rewrite Hc0. fold mt.
    destruct (Hloop (Engine._fingerprints e0)) as (A0 & E0 & _). cbv zeta in A0, E0.
    rewrite A0, E0. destruct chunks; cbn; auto. }
  destruct (Hstats e eq_refl force) as (S1 & Er1 & I1 & B1).
  destruct (Hstats r1.2 Hcfg false) as (S2 & Er2 & I2 & B2).
  fold r1 in S1, Er1, I1, B1. fold r2 in S2, Er2, I2, B2.
  split; [|split; [|split; [|split; [|split]]]].
  - rewrite Hcoll2. destruct chunks as [|ch chs] eqn:Ech; [reflexivity|].
    rewrite Hcoll1. destruct (Engine._collection e) as [c|]; [|reflexivity].
    rewrite (store_chunks_puts embed_documents c (ch :: chs) force).
    rewrite (store_chunks_puts embed_documents _ (ch :: chs) false).
    f_equal. apply puts_idem.
  - rewrite B2, B1. destruct chunks; cbn [Engine.is_nil]; [reflexivity|].
    destruct (Engine.is_nil _); reflexivity.
  - rewrite Hcc2, Hcc1. reflexivity.
  - rewrite S2, S1. reflexivity.
  - rewrite Er2, Er1. reflexivity.
  - rewrite I2, I1. destruct chunks; reflexivity.
Qed.

Lemma reindex_same_skills_witness :
  let r1 := Engine.index (fun s => s) (fun l => map (fun _ => []) l)
              (Engine.init Engine.default_config)
              [swift_dir "Use actors."; testing_dir] [] false in
  let r2 := Engine.index (fun s => s) (fun l => map (fun _ => []) l) r1.2
              [swift_dir "Use actors."; testing_dir] [] false in
  Engine._collection r2.2 = Engine._collection r1.2
  /\ Engine._bm25 r2.2 = Engine._bm25 r1.2.
Proof.
  intros r1 r2.
  destruct (reindex_same_skills (fun s => s) (fun l => map (fun _ => []) l)
              (Engine.init Engine.default_config)
              [swift_dir "Use actors."; testing_dir] [] false) as (H1 & H2 & _).
  - vm_compute.
    repeat (apply NoDup_cons; split; [rewrite list_elem_of_In; cbn; intuition discriminate|]).
    apply NoDup_nil. exact I.
  - split; [exact H1|exact H2].
Defined.
